(** * Ivy: order items, inventory sync, stock statistics and price rules

    A shallow embedding of the server routes and page helpers of the Ivy
    dashboard, with the properties of its specification.

    - [OrderItems] : the route /api/suppliers/orders/[orderId]/items
      (POST, PUT, DELETE and updateOrderTotals);
    - [OrderPage]  : the status buttons of the order page;
    - [Sync]       : the two batched fetch loops of the inventory sync stream;
    - [Stats]      : the option classification of /api/inventory/stats;
    - [PriceRules] : calculateTotalPrice of the price rule page. *)

From Stdlib Require Import ZArith QArith Qround Floats Ascii.
From stdpp Require Import gmap strings list fin_maps pretty.

Local Open Scope Z_scope.

(** * JavaScript numbers

    The handlers use [+], [*], [<], the literals [0], [1], [1.2] and the
    truthiness of a number ([x || y], [x ? a : b]).  The carrier is kept
    abstract; the instance a JavaScript engine computes with is binary64
    ([float_number]). *)

Class JsNumber (A : Type) := {
  num_0 : A;
  num_1 : A;
  num_1_2 : A;
  num_add : A → A → A;
  num_mul : A → A → A;
  (** [x < y] *)
  num_ltb : A → A → bool;
  (** ToBoolean on a number: false on [0], [-0] and [NaN]. *)
  truthy : A → bool;
}.

(** ToBoolean on binary64: [x =? 0] holds of both zeros, [x =? x] fails on NaN. *)
Definition float_truthy (x : float) : bool :=
  negb (PrimFloat.eqb x 0%float) && PrimFloat.eqb x x.

#[global] Instance float_number : JsNumber float := {|
  num_0 := 0%float;
  num_1 := 1%float;
  num_1_2 := 0x1.3333333333333p+0%float;
  num_add := PrimFloat.add;
  num_mul := PrimFloat.mul;
  num_ltb := PrimFloat.ltb;
  truthy := float_truthy;
|}.

Section JsValues.
Context {A : Type} `{JsNumber A}.

(** [x || y] where [x] may be [undefined] or [null] and [y] is a number. *)
Definition js_or (x : option A) (y : A) : A :=
  match x with
  | Some v => if truthy v then v else y
  | None => y
  end.

(** [x || 0]. *)
Definition js_or0 (x : option A) : A := js_or x num_0.

(** A number on which [x || 0] is [x]: every number but NaN and [-0]. *)
Definition plain (x : A) : Prop := truthy x = true ∨ x = num_0.

Lemma js_or0_plain (x : A) : plain x → js_or0 (Some x) = x.
Proof.
  intros [Ht | ->]; unfold js_or0, js_or.
  - by rewrite Ht.
  - by destruct (truthy num_0).
Qed.

Lemma js_or0_is_plain (x : option A) : plain (js_or0 x).
Proof.
  destruct x as [v|]; unfold js_or0, js_or, plain.
  - destruct (truthy v) eqn:E; auto.
  - auto.
Qed.

End JsValues.

(** ToBoolean on a string that may be [null] or [undefined]: false on
    these and on the empty string. *)
Definition js_string_truthy (s : option string) : bool :=
  match s with
  | Some v => negb (String.eqb v "")
  | None => false
  end.

(** [Array.prototype.filter(Boolean)] on such strings. *)
Definition filter_Boolean (l : list (option string)) : list string :=
  omap (λ s, if js_string_truthy s then s else None) l.

(** [.single()] of the store client: the row when exactly one matches. *)
Definition single {X : Type} (rows : list X) : option X :=
  match rows with
  | [x] => Some x
  | _ => None
  end.

Lemma filter_none {X : Type} (P : X → Prop) `{∀ x, Decision (P x)} (l : list X) :
  (∀ x, x ∈ l → ¬ P x) → filter P l = [].
Proof.
  induction l as [|x l IH]; intros Hno; [done|].
  rewrite filter_cons_False by (apply Hno; left).
  apply IH. intros y Hy. apply Hno. by right.
Qed.

(** * Object literals used as maps

    [const m: Record<string, V> = {}] is an object like any other: it
    inherits the properties of [Object.prototype].  A read [m[k]] under a
    name that [m] has no own property for answers with the inherited
    property when there is one: a function, or the prototype itself for
    [__proto__], truthy in both cases. *)

Definition inherited_names : list string :=
  [ "constructor"; "__defineGetter__"; "__defineSetter__"; "hasOwnProperty";
    "__lookupGetter__"; "__lookupSetter__"; "isPrototypeOf"; "propertyIsEnumerable";
    "toString"; "valueOf"; "__proto__"; "toLocaleString" ].

Definition inherited (k : string) : bool := bool_decide (k ∈ inherited_names).

(** What [m[k]] answers. *)
Inductive Read (V : Type) :=
| Own (v : V)
| Inherited (name : string)
| Undefined.
Arguments Own {V} _.
Arguments Inherited {V} _.
Arguments Undefined {V}.

Definition js_read {V : Type} (m : gmap string V) (k : string) : Read V :=
  match m !! k with
  | Some v => Own v
  | None => if inherited k then Inherited k else Undefined
  end.

(** The property key an inherited value stands for when it is used as an
    index ([m[f]] reads [m[String(f)]]), as the engine of the server
    prints it. *)
Definition inherited_text (name : string) : string :=
  if String.eqb name "__proto__" then "[object Object]"
  else "function " +:+ (if String.eqb name "constructor" then "Object" else name)
       +:+ "() { [native code] }".

Lemma js_read_own {V : Type} (m : gmap string V) (k : string) (v : V) :
  m !! k = Some v → js_read m k = Own v.
Proof. intros Hk. unfold js_read. by rewrite Hk. Qed.

Lemma js_read_undefined {V : Type} (m : gmap string V) (k : string) :
  m !! k = None → inherited k = false → js_read m k = Undefined.
Proof. intros Hk Hi. unfold js_read. by rewrite Hk, Hi. Qed.

Lemma js_read_inherited {V : Type} (m : gmap string V) (k : string) :
  m !! k = None → inherited k = true → js_read m k = Inherited k.
Proof. intros Hk Hi. unfold js_read. by rewrite Hk, Hi. Qed.

(** * The order-items route (src/unnamed/part_001) *)

Module OrderItems.

Section Route.
Context {A : Type} `{JsNumber A}.

(** ** Rows of the relational store *)

(** supplier_order_items *)
Record OrderItem := {
  item_id : string;
  order_id : string;
  variant_id : option string;
  product_title : string;
  variant_title : option string;
  sku : option string;
  quantity : A;
  unit_price : A;
  line_total : A;
  is_validated : bool;
  validated_at : option string;
  is_printed : bool;
  printed_at : option string;
  metafields : gmap string string;
  item_updated_at : option string;
}.

(** supplier_orders *)
Record SupplierOrder := {
  so_id : string;
  so_shop_id : string;
  status : string;
  subtotal : A;
  balance_adjustment : A;
  total_ht : A;
  total_ttc : A;
  so_updated_at : option string;
}.

(** product_variants, the columns the route selects *)
Record ProductVariant := {
  pv_id : string;
  cost : option A;
  shopify_id : option string;
}.

(** metafield_config *)
Record MetafieldConfig := {
  mc_shop_id : string;
  mc_is_active : bool;
  namespace : string;
  key : string;
  display_name : string;
}.

Record Store := {
  supplier_order_items : list OrderItem;
  supplier_orders : list SupplierOrder;
  product_variants : list ProductVariant;
  metafield_config : list MetafieldConfig;
  (** how many rows the store has generated an id for *)
  next_id : nat;
}.

(** ** What the route and the world around it exchange *)

(** One entry of [body.items] of a POST. *)
Record ItemRequest := {
  req_variant_id : option string;
  req_product_title : string;
  req_variant_title : option string;
  req_sku : option string;
  (** a JSON number, as the rational it is, or absent *)
  req_quantity : option Q;
}.

(** One object pushed on [itemsToInsert], as it reaches the store: a
    property whose value is not a number but a function is left out of
    the JSON body ([None]). *)
Record NewItem := {
  new_order_id : string;
  new_variant_id : option string;
  new_product_title : string;
  new_variant_title : option string;
  new_sku : option string;
  new_quantity : A;
  new_unit_price : option A;
  new_line_total : option A;
  new_metafields : gmap string string;
}.

Inductive Message :=
| NoItemsToUpdate
| ArticlesUpdated (updatedCount : nat)
| NoMetafieldConfigured
| ArticlesProcessed (updatedCount withMetafields : nat).

Inductive Response :=
| JsonItems (items : list OrderItem)
| JsonItem (item : OrderItem)
| JsonMessage (message : Message)
| JsonSuccess
| JsonError (http_status : Z) (error : string).

(** The clock ([new Date().toISOString()]) and what the store answers to
    the statement whose [error] the handler inspects. *)
Record World := {
  now : string;
  db_error : option string;
}.

(** The GraphQL read of the variants' metafields: a network call, kept as a
    parameter; the ids the store generates and the column defaults of
    supplier_order_items (declared outside the route) are parameters too,
    as is what the store holds in [unit_price] and [line_total] of a row
    that is sent without them. *)
Variable fetchVariantMetafields :
  string → list (option string) → list MetafieldConfig → gmap string (gmap string string).
Variable gen_id : nat → string.
Variable default_is_validated : bool.
Variable default_is_printed : bool.
Variable absent_unit_price : A.
Variable absent_line_total : A.

(** ** Store statements *)

Definition set_items (items : list OrderItem) (st : Store) : Store :=
  {| supplier_order_items := items;
     supplier_orders := supplier_orders st;
     product_variants := product_variants st;
     metafield_config := metafield_config st;
     next_id := next_id st |}.

Definition set_orders (orders : list SupplierOrder) (st : Store) : Store :=
  {| supplier_order_items := supplier_order_items st;
     supplier_orders := orders;
     product_variants := product_variants st;
     metafield_config := metafield_config st;
     next_id := next_id st |}.

(** [.from('supplier_order_items').select(..).eq('order_id', orderId)] *)
Definition select_order_items (orderId : string) (st : Store) : list OrderItem :=
  filter (λ item, order_id item = orderId) (supplier_order_items st).

(** [.from('product_variants').select(..).in('id', variantIds)] *)
Definition select_variants (variantIds : list string) (st : Store) : list ProductVariant :=
  filter (λ v, pv_id v ∈ variantIds) (product_variants st).

(** [.from('metafield_config').select(..).eq('shop_id', shopId).eq('is_active', true)] *)
Definition select_metafield_configs (shopId : string) (st : Store) : list MetafieldConfig :=
  filter (λ c, mc_shop_id c = shopId ∧ mc_is_active c = true) (metafield_config st).

Definition inserted_row (n : nat) (r : NewItem) : OrderItem :=
  {| item_id := gen_id n;
     order_id := new_order_id r;
     variant_id := new_variant_id r;
     product_title := new_product_title r;
     variant_title := new_variant_title r;
     sku := new_sku r;
     quantity := new_quantity r;
     unit_price := default absent_unit_price (new_unit_price r);
     line_total := default absent_line_total (new_line_total r);
     is_validated := default_is_validated;
     validated_at := None;
     is_printed := default_is_printed;
     printed_at := None;
     metafields := new_metafields r;
     item_updated_at := None |}.

(** [.from('supplier_order_items').insert(rows).select()] *)
Definition db_insert (rows : list NewItem) (st : Store) : list OrderItem * Store :=
  let inserted := imap (λ i r, inserted_row (next_id st + i) r) rows in
  (inserted,
   {| supplier_order_items := supplier_order_items st ++ inserted;
      supplier_orders := supplier_orders st;
      product_variants := product_variants st;
      metafield_config := metafield_config st;
      next_id := next_id st + length rows |}).

(** ** updateOrderTotals *)

Definition with_totals (subtotal' totalHt totalTtc : A) (updatedAt : string)
    (o : SupplierOrder) : SupplierOrder :=
  {| so_id := so_id o;
     so_shop_id := so_shop_id o;
     status := status o;
     subtotal := subtotal';
     balance_adjustment := balance_adjustment o;
     total_ht := totalHt;
     total_ttc := totalTtc;
     so_updated_at := Some updatedAt |}.

(** [items.filter(item => item.is_validated)
         .reduce((sum, item) => sum + (item.line_total || 0), 0)] *)
Definition validated_sum (items : list OrderItem) : A :=
  foldl (λ sum item, num_add sum (js_or0 (Some (line_total item)))) num_0
        (filter (λ item, is_validated item) items).

Definition updateOrderTotals (w : World) (orderId shopId : string) (st : Store) : Store :=
  let items := select_order_items orderId st in
  let subtotal' := js_or0 (Some (validated_sum items)) in
  let order := single (filter (λ o, so_id o = orderId) (supplier_orders st)) in
  let balanceAdjustment := js_or0 (balance_adjustment <$> order) in
  let totalHt := num_add subtotal' balanceAdjustment in
  let totalTtc := num_mul totalHt num_1_2 in
  set_orders
    ((λ o, if bool_decide (so_id o = orderId ∧ so_shop_id o = shopId)
           then with_totals subtotal' totalHt totalTtc (now w) o
           else o) <$> supplier_orders st)
    st.

(** ** POST: add items *)

Record PostBody := {
  post_shopId : option string;
  (** [None]: absent, or not an array *)
  post_items : option (list ItemRequest);
}.

(** [variants?.forEach(v => { variantCostMap[v.id] = v.cost || 0; })] *)
Definition build_cost_map (variants : list ProductVariant) : gmap string A :=
  foldl (λ m v, <[pv_id v := js_or0 (cost v)]> m) ∅ variants.

(** [variants?.forEach(v => { variantShopifyIdMap[v.id] = v.shopify_id; })] *)
Definition build_shopify_id_map (variants : list ProductVariant) : gmap string (option string) :=
  foldl (λ m v, <[pv_id v := shopify_id v]> m) ∅ variants.

(** [map[id]] where [id] is held by a row of the store, or is [null]: the
    ids of the store are its own (UUIDs, ids of the platform), none of
    them the name of an inherited property, [null] or [undefined]; the
    read is the own property, or [undefined]. *)
Definition js_index {V : Type} (m : gmap string V) (k : option string) : option V :=
  k ≫= (m !!.).

(** [map[item.variant_id]] where [item] is an entry of the request: the
    id is any string the client has sent, [null] or absent. *)
Definition js_index_sent {V : Type} (m : gmap string V) (k : option string) : Read V :=
  match k with
  | Some id => js_read m id
  | None => Undefined
  end.

(** [variantCostMap[item.variant_id] || 0]: a number, or the inherited
    function, which is truthy and no number. *)
Definition cost_or_0 (cost' : Read A) : option A :=
  match cost' with
  | Own c => Some (js_or0 (Some c))
  | Inherited _ => None
  | Undefined => Some num_0
  end.

(** [shopifyId ? (variantMetafieldsMap[shopifyId] || {}) : {}] *)
Definition metafields_of (variantMetafieldsMap : gmap string (gmap string string))
    (shopifyId : option string) : gmap string string :=
  if js_string_truthy shopifyId
  then default ∅ (js_index variantMetafieldsMap shopifyId)
  else ∅.

(** [item.quantity || 1] *)
Definition quantity_or_1 (quantity' : option Q) : Q :=
  match quantity' with
  | Some q => if Qeq_bool q 0 then 1%Q else q
  | None => 1%Q
  end.

(** The turns of [for (let i = 0; i < quantity; i++)] from [i] on, [fuel]
    turns at most. *)
Fixpoint loop_turns (fuel : nat) (i : Z) (quantity' : Q) : nat :=
  match fuel with
  | O => 0
  | S fuel' =>
    if Qle_bool quantity' (inject_Z i) then 0%nat
    else S (loop_turns fuel' (i + 1) quantity')
  end.

(** The turns of the inner loop for an entry; the loop ends within the
    fuel, [ceiling_turns] below. *)
Definition requested_units (item : ItemRequest) : nat :=
  let quantity' := quantity_or_1 (req_quantity item) in
  loop_turns (Z.to_nat (Qceiling quantity')) 0 quantity'.

(** The body of [for (const item of items)]: the inner loop pushes the same
    object literal at every turn. *)
Definition unit_rows (orderId : string) (variantCostMap : gmap string A)
    (variantShopifyIdMap : gmap string (option string))
    (variantMetafieldsMap : gmap string (gmap string string))
    (item : ItemRequest) : list NewItem :=
  let unitPrice := cost_or_0 (js_index_sent variantCostMap (req_variant_id item)) in
  let metafields' :=
    match js_index_sent variantShopifyIdMap (req_variant_id item) with
    | Own shopifyId => metafields_of variantMetafieldsMap shopifyId
    | Inherited name => metafields_of variantMetafieldsMap (Some (inherited_text name))
    | Undefined => ∅
    end in
  replicate (requested_units item)
    {| new_order_id := orderId;
       new_variant_id := req_variant_id item;
       new_product_title := req_product_title item;
       new_variant_title := req_variant_title item;
       new_sku := req_sku item;
       new_quantity := num_1;
       new_unit_price := unitPrice;
       new_line_total := unitPrice;
       new_metafields := metafields' |}.

Definition itemsToInsert (orderId shopId : string) (items : list ItemRequest)
    (st : Store) : list NewItem :=
  let variantIds := filter_Boolean (req_variant_id <$> items) in
  let variants := select_variants variantIds st in
  let variantCostMap := build_cost_map variants in
  let variantShopifyIdMap := build_shopify_id_map variants in
  let metafieldConfigs := select_metafield_configs shopId st in
  let variantMetafieldsMap :=
    if bool_decide (0 < length metafieldConfigs)%nat
    then fetchVariantMetafields shopId (map_to_list variantShopifyIdMap).*2 metafieldConfigs
    else ∅ in
  items ≫= unit_rows orderId variantCostMap variantShopifyIdMap variantMetafieldsMap.

(** [.update({ status: 'in_progress', updated_at }).eq('id', orderId).eq('status', 'draft')] *)
Definition mark_in_progress (w : World) (orderId : string) (st : Store) : Store :=
  set_orders
    ((λ o, if bool_decide (so_id o = orderId ∧ status o = "draft")
           then {| so_id := so_id o;
                   so_shop_id := so_shop_id o;
                   status := "in_progress";
                   subtotal := subtotal o;
                   balance_adjustment := balance_adjustment o;
                   total_ht := total_ht o;
                   total_ttc := total_ttc o;
                   so_updated_at := Some (now w) |}
           else o) <$> supplier_orders st)
    st.

Definition POST (w : World) (orderId : string) (body : PostBody) (st : Store)
    : Response * Store :=
  match post_shopId body, post_items body with
  | Some shopId, Some items =>
    if negb (js_string_truthy (Some shopId)) || negb (js_string_truthy (Some orderId))
    then (JsonError 400 "Missing required fields", st)
    else
      let rows := itemsToInsert orderId shopId items st in
      match db_error w with
      | Some message => (JsonError 500 message, st)
      | None =>
        let '(insertedItems, st1) := db_insert rows st in
        let st2 := updateOrderTotals w orderId shopId st1 in
        let st3 := mark_in_progress w orderId st2 in
        (JsonItems insertedItems, st3)
      end
  | _, _ => (JsonError 400 "Missing required fields", st)
  end.

(** ** PUT: the two bulk actions and the update of one item *)

Inductive Action := recalculate_prices | refresh_metafields.

Record PutBody := {
  put_shopId : option string;
  put_itemId : option string;
  put_is_validated : option bool;
  put_is_printed : option bool;
  put_quantity : option A;
  put_unit_price : option A;
  (** [None]: absent, or any other string *)
  put_action : option Action;
}.

(** [.from('supplier_order_items').update(..).eq('id', itemId)] *)
Definition db_update_items (itemId : string) (f : OrderItem → OrderItem) (st : Store) : Store :=
  set_items
    ((λ it, if bool_decide (item_id it = itemId) then f it else it) <$> supplier_order_items st)
    st.

Definition with_price (unitPrice lineTotal : A) (updatedAt : string) (it : OrderItem) : OrderItem :=
  {| item_id := item_id it;
     order_id := order_id it;
     variant_id := variant_id it;
     product_title := product_title it;
     variant_title := variant_title it;
     sku := sku it;
     quantity := quantity it;
     unit_price := unitPrice;
     line_total := lineTotal;
     is_validated := is_validated it;
     validated_at := validated_at it;
     is_printed := is_printed it;
     printed_at := printed_at it;
     metafields := metafields it;
     item_updated_at := Some updatedAt |}.

Definition with_metafields (mf : gmap string string) (updatedAt : string) (it : OrderItem) : OrderItem :=
  {| item_id := item_id it;
     order_id := order_id it;
     variant_id := variant_id it;
     product_title := product_title it;
     variant_title := variant_title it;
     sku := sku it;
     quantity := quantity it;
     unit_price := unit_price it;
     line_total := line_total it;
     is_validated := is_validated it;
     validated_at := validated_at it;
     is_printed := is_printed it;
     printed_at := printed_at it;
     metafields := mf;
     item_updated_at := Some updatedAt |}.

(** [item.variant_id ? (costMap[item.variant_id] || 0) : 0] *)
Definition current_cost (costMap : gmap string A) (variantId : option string) : A :=
  if js_string_truthy variantId then js_or0 (js_index costMap variantId) else num_0.

(** The body of [for (const item of orderItems)] of recalculate_prices;
    [item] is a row of the snapshot read before the loop. *)
Definition recalculate_item (w : World) (costMap : gmap string A) (st : Store)
    (item : OrderItem) : Store :=
  let cost' := current_cost costMap (variant_id item) in
  let lineTotal := num_mul cost' (quantity item) in
  db_update_items (item_id item) (with_price cost' lineTotal (now w)) st.

Definition PUT_recalculate_prices (w : World) (orderId : string) (body : PutBody)
    (st : Store) : Response * Store :=
  match put_shopId body with
  | Some shopId =>
    if negb (js_string_truthy (Some shopId)) || negb (js_string_truthy (Some orderId))
    then (JsonError 400 "Missing required fields", st)
    else
      let orderItems := select_order_items orderId st in
      if bool_decide (length orderItems = 0%nat)
      then (JsonMessage NoItemsToUpdate, st)
      else
        let variantIds := filter_Boolean (variant_id <$> orderItems) in
        let variants := select_variants variantIds st in
        let costMap := build_cost_map variants in
        let st1 := foldl (recalculate_item w costMap) st orderItems in
        let st2 := updateOrderTotals w orderId shopId st1 in
        (JsonMessage (ArticlesUpdated (length orderItems)), st2)
  | None => (JsonError 400 "Missing required fields", st)
  end.

(** The body of the loop of refresh_metafields, [continue] included. *)
Definition refresh_item (w : World) (variantShopifyIdMap : gmap string (option string))
    (variantMetafieldsMap : gmap string (gmap string string))
    (acc : Store * nat) (item : OrderItem) : Store * nat :=
  if negb (js_string_truthy (variant_id item)) then acc
  else
    let shopifyId := mjoin (js_index variantShopifyIdMap (variant_id item)) in
    let mf := metafields_of variantMetafieldsMap shopifyId in
    (db_update_items (item_id item) (with_metafields mf (now w)) acc.1, S acc.2).

Definition PUT_refresh_metafields (w : World) (orderId : string) (body : PutBody)
    (st : Store) : Response * Store :=
  match put_shopId body with
  | Some shopId =>
    if negb (js_string_truthy (Some shopId)) || negb (js_string_truthy (Some orderId))
    then (JsonError 400 "Missing required fields", st)
    else
      let orderItems := select_order_items orderId st in
      if bool_decide (length orderItems = 0%nat)
      then (JsonMessage NoItemsToUpdate, st)
      else
        let variantIds := remove_dups (filter_Boolean (variant_id <$> orderItems)) in
        let variants := select_variants variantIds st in
        let variantShopifyIdMap := build_shopify_id_map variants in
        let metafieldConfigs := select_metafield_configs shopId st in
        if bool_decide (length metafieldConfigs = 0%nat)
        then (JsonMessage NoMetafieldConfigured, st)
        else
          let variantMetafieldsMap :=
            fetchVariantMetafields shopId (map_to_list variantShopifyIdMap).*2 metafieldConfigs in
          let '(st1, updatedCount) :=
            foldl (refresh_item w variantShopifyIdMap variantMetafieldsMap) (st, 0%nat) orderItems in
          let withMetafields :=
            length (filter (λ m : gmap string string, (0 < size m)%nat)
                           (map_to_list variantMetafieldsMap).*2) in
          (JsonMessage (ArticlesProcessed updatedCount withMetafields), st1)
  | None => (JsonError 400 "Missing required fields", st)
  end.

(** [updateData], as the object the handler fills in field by field. *)
Record UpdateData := {
  upd_updated_at : string;
  upd_is_validated : option bool;
  upd_validated_at : option (option string);
  upd_is_printed : option bool;
  upd_printed_at : option (option string);
  upd_quantity : option A;
  upd_unit_price : option A;
  upd_line_total : option A;
}.

Definition apply_update (u : UpdateData) (it : OrderItem) : OrderItem :=
  {| item_id := item_id it;
     order_id := order_id it;
     variant_id := variant_id it;
     product_title := product_title it;
     variant_title := variant_title it;
     sku := sku it;
     quantity := default (quantity it) (upd_quantity u);
     unit_price := default (unit_price it) (upd_unit_price u);
     line_total := default (line_total it) (upd_line_total u);
     is_validated := default (is_validated it) (upd_is_validated u);
     validated_at := default (validated_at it) (upd_validated_at u);
     is_printed := default (is_printed it) (upd_is_printed u);
     printed_at := default (printed_at it) (upd_printed_at u);
     metafields := metafields it;
     item_updated_at := Some (upd_updated_at u) |}.

(** [.from('supplier_order_items').select(..).eq('id', itemId).single()] *)
Definition select_item (itemId : string) (st : Store) : option OrderItem :=
  single (filter (λ it, item_id it = itemId) (supplier_order_items st)).

Definition stamp (w : World) (flag : bool) : option string :=
  if flag then Some (now w) else None.

(** The four [if (x !== undefined)] blocks, in their order: the block of
    [unit_price] runs after the block of [quantity] and overwrites the
    [line_total] it has set. *)
Definition build_updateData (w : World) (itemId : string) (body : PutBody)
    (st : Store) : UpdateData :=
  let lineTotal1 :=
    match put_quantity body with
    | Some quantity' =>
      match select_item itemId st with
      | Some item => Some (num_mul (js_or (put_unit_price body) (unit_price item)) quantity')
      | None => None
      end
    | None => None
    end in
  let lineTotal2 :=
    match put_unit_price body with
    | Some unit_price' =>
      match select_item itemId st with
      | Some item => Some (num_mul unit_price' (js_or (put_quantity body) (quantity item)))
      | None => lineTotal1
      end
    | None => lineTotal1
    end in
  {| upd_updated_at := now w;
     upd_is_validated := put_is_validated body;
     upd_validated_at := stamp w <$> put_is_validated body;
     upd_is_printed := put_is_printed body;
     upd_printed_at := stamp w <$> put_is_printed body;
     upd_quantity := put_quantity body;
     upd_unit_price := put_unit_price body;
     upd_line_total := lineTotal2 |}.

Definition PUT_update_item (w : World) (orderId : string) (body : PutBody)
    (st : Store) : Response * Store :=
  match put_shopId body, put_itemId body with
  | Some shopId, Some itemId =>
    if negb (js_string_truthy (Some shopId)) || negb (js_string_truthy (Some orderId))
       || negb (js_string_truthy (Some itemId))
    then (JsonError 400 "Missing required fields", st)
    else
      let updateData := build_updateData w itemId body st in
      match db_error w, select_item itemId st with
      | Some message, _ => (JsonError 500 message, st)
      | None, None => (JsonError 500 "JSON object requested, multiple (or no) rows returned", st)
      | None, Some item =>
        let st1 := db_update_items itemId (apply_update updateData) st in
        let st2 :=
          if bool_decide (is_Some (put_quantity body) ∨ is_Some (put_unit_price body)
                          ∨ is_Some (put_is_validated body))
          then updateOrderTotals w orderId shopId st1
          else st1 in
        (JsonItem (apply_update updateData item), st2)
      end
  | _, _ => (JsonError 400 "Missing required fields", st)
  end.

Definition PUT (w : World) (orderId : string) (body : PutBody) (st : Store)
    : Response * Store :=
  match put_action body with
  | Some recalculate_prices => PUT_recalculate_prices w orderId body st
  | Some refresh_metafields => PUT_refresh_metafields w orderId body st
  | None => PUT_update_item w orderId body st
  end.

(** ** DELETE *)

Definition DELETE (w : World) (orderId : string) (itemId shopId : option string)
    (st : Store) : Response * Store :=
  match shopId, itemId with
  | Some shopId', Some itemId' =>
    if negb (js_string_truthy shopId) || negb (js_string_truthy (Some orderId))
       || negb (js_string_truthy itemId)
    then (JsonError 400 "Missing required fields", st)
    else
      match db_error w with
      | Some message => (JsonError 500 message, st)
      | None =>
        let st1 :=
          set_items (filter (λ it, item_id it ≠ itemId') (supplier_order_items st)) st in
        (JsonSuccess, updateOrderTotals w orderId shopId' st1)
      end
  | _, _ => (JsonError 400 "Missing required fields", st)
  end.

(** ** The route *)

Inductive Request :=
| ReqPOST (body : PostBody)
| ReqPUT (body : PutBody)
| ReqDELETE (itemId shopId : option string).

Definition handle (w : World) (orderId : string) (req : Request) (st : Store)
    : Response * Store :=
  match req with
  | ReqPOST body => POST w orderId body st
  | ReqPUT body => PUT w orderId body st
  | ReqDELETE itemId shopId => DELETE w orderId itemId shopId st
  end.

Definition request_shopId (req : Request) : option string :=
  match req with
  | ReqPOST body => post_shopId body
  | ReqPUT body => put_shopId body
  | ReqDELETE _ shopId => shopId
  end.

(** ** Properties of the route *)

(** The sum the specification speaks of: the [line_total]s added up from
    the left, starting at [0]. *)
Definition sum_line_totals (items : list OrderItem) : A :=
  foldl num_add num_0 (line_total <$> items).

(** The requests after which the handler has run updateOrderTotals: an
    add, a delete, a recalculation that found items, or the update of an
    item that sets [quantity], [unit_price] or [is_validated]. *)
Definition recomputed (req : Request) (resp : Response) : Prop :=
  match req, resp with
  | ReqPOST _, JsonItems _ => True
  | ReqDELETE _ _, JsonSuccess => True
  | ReqPUT _, JsonMessage (ArticlesUpdated _) => True
  | ReqPUT body, JsonItem _ =>
    is_Some (put_quantity body) ∨ is_Some (put_unit_price body)
    ∨ is_Some (put_is_validated body)
  | _, _ => False
  end.

Lemma foldl_line_totals_plain (items : list OrderItem) (acc : A) :
  Forall (λ item, plain (line_total item)) items →
  foldl (λ sum item, num_add sum (js_or0 (Some (line_total item)))) acc items
  = foldl num_add acc (line_total <$> items).
Proof.
  intros Hall. revert acc.
  induction Hall as [|item items Hp _ IH]; intros acc.
  - reflexivity.
  - rewrite fmap_cons. cbn [foldl]. rewrite (js_or0_plain _ Hp). apply IH.
Qed.

Lemma single_filter_NoDup (orders : list SupplierOrder) (o : SupplierOrder) :
  NoDup (so_id <$> orders) → o ∈ orders →
  filter (λ x, so_id x = so_id o) orders = [o].
Proof.
  induction orders as [|x orders IH]; intros Hnd Hin.
  - by apply elem_of_nil in Hin.
  - rewrite fmap_cons in Hnd. apply NoDup_cons in Hnd as [Hx Hnd].
    apply elem_of_cons in Hin as [-> | Hin].
    + rewrite filter_cons_True by done. f_equal.
      apply filter_none. intros y Hy Heq.
      apply Hx. rewrite <- Heq. by apply list_elem_of_fmap_2.
    + rewrite filter_cons_False; [by apply IH|].
      intros Heq. apply Hx. rewrite Heq. by apply list_elem_of_fmap_2.
Qed.

Lemma updateOrderTotals_items (w : World) (orderId shopId : string) (st : Store) :
  supplier_order_items (updateOrderTotals w orderId shopId st) = supplier_order_items st.
Proof. reflexivity. Qed.

Lemma updateOrderTotals_order_ids (w : World) (orderId shopId : string) (st : Store) :
  so_id <$> supplier_orders (updateOrderTotals w orderId shopId st)
  = so_id <$> supplier_orders st.
Proof.
  unfold updateOrderTotals; simpl. rewrite <- list_fmap_compose.
  apply list_fmap_ext. intros i o _. simpl. by case_bool_decide.
Qed.

(** What updateOrderTotals leaves in the row of the order, in the words of
    the code ([x || 0] kept). *)
Lemma updateOrderTotals_row (w : World) (orderId shopId : string) (st : Store)
    (o : SupplierOrder) :
  NoDup (so_id <$> supplier_orders st) →
  o ∈ supplier_orders (updateOrderTotals w orderId shopId st) →
  so_id o = orderId → so_shop_id o = shopId →
  subtotal o = js_or0 (Some (validated_sum (select_order_items orderId st)))
  ∧ total_ht o = num_add (subtotal o) (js_or0 (Some (balance_adjustment o)))
  ∧ total_ttc o = num_mul (total_ht o) num_1_2.
Proof.
  intros Hnd Hin Hid Hshop. unfold updateOrderTotals in Hin. simpl in Hin.
  apply list_elem_of_fmap in Hin as (o0 & -> & Hin0).
  case_bool_decide as Hc.
  - destruct Hc as [Hid0 _]. simpl.
    rewrite <- Hid0, (single_filter_NoDup _ _ Hnd Hin0). simpl. done.
  - exfalso. apply Hc. done.
Qed.

Lemma mark_in_progress_items (w : World) (orderId : string) (st : Store) :
  supplier_order_items (mark_in_progress w orderId st) = supplier_order_items st.
Proof. reflexivity. Qed.

Lemma mark_in_progress_row (w : World) (orderId : string) (st : Store) (o : SupplierOrder) :
  o ∈ supplier_orders (mark_in_progress w orderId st) →
  ∃ o0, o0 ∈ supplier_orders st ∧ so_id o = so_id o0 ∧ so_shop_id o = so_shop_id o0
        ∧ subtotal o = subtotal o0 ∧ balance_adjustment o = balance_adjustment o0
        ∧ total_ht o = total_ht o0 ∧ total_ttc o = total_ttc o0.
Proof.
  unfold mark_in_progress; simpl. intros Hin.
  apply list_elem_of_fmap in Hin as (o0 & -> & Hin0).
  exists o0. by case_bool_decide.
Qed.

Lemma db_update_items_orders (itemId : string) (f : OrderItem → OrderItem) (st : Store) :
  supplier_orders (db_update_items itemId f st) = supplier_orders st.
Proof. reflexivity. Qed.

Lemma recalculate_loop_orders (w : World) (costMap : gmap string A)
    (orderItems : list OrderItem) (st : Store) :
  supplier_orders (foldl (recalculate_item w costMap) st orderItems) = supplier_orders st.
Proof.
  revert st. induction orderItems as [|item l IH]; intros st; simpl; [done|].
  by rewrite IH.
Qed.

(** The three equations of the specification, for a row updateOrderTotals
    has just written. *)
Lemma totals_of_row (w : World) (orderId shopId : string) (st : Store) (o : SupplierOrder) :
  NoDup (so_id <$> supplier_orders st) →
  o ∈ supplier_orders (updateOrderTotals w orderId shopId st) →
  so_id o = orderId → so_shop_id o = shopId →
  let validated := filter (λ item, is_validated item) (select_order_items orderId st) in
  Forall (λ item, plain (line_total item)) validated →
  plain (sum_line_totals validated) →
  plain (balance_adjustment o) →
  subtotal o = sum_line_totals validated
  ∧ total_ht o = num_add (subtotal o) (balance_adjustment o)
  ∧ total_ttc o = num_mul (total_ht o) num_1_2.
Proof.
  intros Hnd Hin Hid Hshop validated Hall Hsum Hbal.
  destruct (updateOrderTotals_row _ _ _ _ _ Hnd Hin Hid Hshop) as (Hs & Hh & Ht).
  unfold validated_sum in Hs. fold validated in Hs.
  rewrite (foldl_line_totals_plain _ _ Hall) in Hs.
  fold (sum_line_totals validated) in Hs.
  rewrite (js_or0_plain _ Hsum) in Hs. rewrite (js_or0_plain _ Hbal) in Hh.
  done.
Qed.

(** Every handler that reports a mutation ends in updateOrderTotals, POST
    with [mark_in_progress] after it. *)
Lemma handle_ends_in_totals (w : World) (orderId shopId : string) (req : Request)
    (st st' : Store) (resp : Response) :
  handle w orderId req st = (resp, st') →
  recomputed req resp →
  request_shopId req = Some shopId →
  ∃ st1, supplier_orders st1 = supplier_orders st
    ∧ (st' = updateOrderTotals w orderId shopId st1
       ∨ st' = mark_in_progress w orderId (updateOrderTotals w orderId shopId st1)).
Proof.
  intros Hrun Hrec Hshop. destruct req as [body | body | itemId shopId0]; simpl in *.
  - unfold POST in Hrun. rewrite Hshop in Hrun.
    destruct (post_items body) as [items|]; [|by simplify_eq].
    destruct (_ || _); [by simplify_eq|].
    destruct (db_error w); [by simplify_eq|].
    simpl in Hrun. simplify_eq. eexists. split; [|right; reflexivity]. done.
  - unfold PUT in Hrun. destruct (put_action body) as [[]|].
    + unfold PUT_recalculate_prices in Hrun. rewrite Hshop in Hrun.
      destruct (_ || _); [by simplify_eq|].
      case_bool_decide; [by simplify_eq|].
      simplify_eq. eexists. split; [|left; reflexivity].
      apply recalculate_loop_orders.
    + unfold PUT_refresh_metafields in Hrun. rewrite Hshop in Hrun.
      destruct (_ || _); [by simplify_eq|].
      case_bool_decide; [by simplify_eq|].
      case_bool_decide; [by simplify_eq|].
      destruct (foldl _ _ _) as [st1 n]. by simplify_eq.
    + unfold PUT_update_item in Hrun. rewrite Hshop in Hrun.
      destruct (put_itemId body) as [itemId|]; [|by simplify_eq].
      destruct (_ || _); [by simplify_eq|].
      destruct (db_error w); [by simplify_eq|].
      destruct (select_item itemId st); [|by simplify_eq].
      simplify_eq. simpl in Hrec. rewrite bool_decide_eq_true_2 by done.
      eexists. split; [|left; reflexivity]. done.
  - unfold DELETE in Hrun. subst shopId0.
    destruct itemId as [itemId|]; [|by simplify_eq].
    destruct (_ || _); [by simplify_eq|].
    destruct (db_error w); [by simplify_eq|].
    simplify_eq. eexists. split; [|left; reflexivity]. done.
Qed.

Lemma validated_of_order (orderId : string) (st : Store) :
  filter (λ item, is_validated item) (select_order_items orderId st)
  = filter (λ item, order_id item = orderId ∧ is_validated item = true)
           (supplier_order_items st).
Proof.
  unfold select_order_items. rewrite list_filter_filter.
  apply list_filter_iff. intros item. rewrite Is_true_true. tauto.
Qed.

(** C1, as amended. After an add, an update of quantity, unit price or
    validation, a delete or a recalculation that the route answers with
    success, the order the request addresses (its id is the one of the
    path and its shop the one the request names) holds: subtotal = the
    sum of [line_total] over the rows of supplier_order_items that carry
    its id and have [is_validated] (the others do not enter the sum),
    total_ht = subtotal + balance_adjustment, whatever its sign, and
    total_ttc = total_ht * 1.2.  The numbers involved are ordinary ones
    (no NaN, no negative zero), on which [x || 0] is [x]. *)
Theorem totals_after_mutation (w : World) (orderId shopId : string) (req : Request)
    (st st' : Store) (resp : Response) (o : SupplierOrder) :
  handle w orderId req st = (resp, st') →
  recomputed req resp →
  request_shopId req = Some shopId →
  NoDup (so_id <$> supplier_orders st) →
  o ∈ supplier_orders st' → so_id o = orderId → so_shop_id o = shopId →
  let validated :=
    filter (λ item, order_id item = so_id o ∧ is_validated item = true)
           (supplier_order_items st') in
  Forall (λ item, plain (line_total item)) validated →
  plain (sum_line_totals validated) →
  plain (balance_adjustment o) →
  subtotal o = sum_line_totals validated
  ∧ total_ht o = num_add (subtotal o) (balance_adjustment o)
  ∧ total_ttc o = num_mul (total_ht o) num_1_2.
Proof.
  intros Hrun Hrec Hshop Hnd Hin Hid Hsid validated. subst validated.
  rewrite Hid, <- validated_of_order.
  set (validated := filter (λ item, is_validated item) (select_order_items orderId st')).
  intros Hall Hsum Hbal.
  destruct (handle_ends_in_totals _ _ _ _ _ _ _ Hrun Hrec Hshop) as (st1 & Hord & Hst').
  rewrite <- Hord in Hnd.
  destruct Hst' as [-> | ->].
  - by apply (totals_of_row w orderId shopId st1).
  - apply mark_in_progress_row in Hin
      as (o0 & Hin0 & Hid0 & Hsid0 & Hsub & Hb & Hht & Httc).
    rewrite Hid0 in Hid. rewrite Hsid0 in Hsid.
    rewrite Hsub, Hb, Hht, Httc. rewrite Hb in Hbal.
    by apply (totals_of_row w orderId shopId st1).
Qed.

(** *** Adding items *)

Lemma cost_map_absent {V : Type} (f : ProductVariant → V) (variants : list ProductVariant)
    (m : gmap string V) (k : string) :
  (∀ v, v ∈ variants → pv_id v ≠ k) →
  foldl (λ m v, <[pv_id v := f v]> m) m variants !! k = m !! k.
Proof.
  revert m. induction variants as [|x l IH]; intros m Hno; [done|].
  cbn [foldl]. rewrite IH.
  - apply lookup_insert_ne, Hno. left.
  - intros v Hv. apply Hno. by right.
Qed.

Lemma cost_map_present {V : Type} (f : ProductVariant → V) (variants : list ProductVariant)
    (m : gmap string V) (v : ProductVariant) :
  NoDup (pv_id <$> variants) → v ∈ variants →
  foldl (λ m v, <[pv_id v := f v]> m) m variants !! pv_id v = Some (f v).
Proof.
  revert m. induction variants as [|x l IH]; intros m Hnd Hin.
  - by apply elem_of_nil in Hin.
  - rewrite fmap_cons in Hnd. apply NoDup_cons in Hnd as [Hx Hnd].
    cbn [foldl]. apply elem_of_cons in Hin as [-> | Hin].
    + rewrite cost_map_absent; [apply lookup_insert_eq|].
      intros y Hy Heq. apply Hx. rewrite <- Heq. by apply list_elem_of_fmap_2.
    + by apply IH.
Qed.

Lemma select_variants_NoDup (variantIds : list string) (st : Store) :
  NoDup (pv_id <$> product_variants st) →
  NoDup (pv_id <$> select_variants variantIds st).
Proof.
  unfold select_variants. generalize (product_variants st) as l.
  induction l as [|x l IH]; intros Hnd; [done|].
  rewrite fmap_cons in Hnd. apply NoDup_cons in Hnd as [Hx Hnd].
  rewrite filter_cons. case_decide; [|by apply IH].
  rewrite fmap_cons. apply NoDup_cons. split; [|by apply IH].
  intros Hin. apply Hx. apply list_elem_of_fmap in Hin as (y & -> & Hy).
  apply list_elem_of_filter in Hy as [_ Hy]. by apply list_elem_of_fmap_2.
Qed.

Lemma filter_Boolean_elem (ids : list (option string)) (X : string) :
  Some X ∈ ids → X ≠ "" → X ∈ filter_Boolean ids.
Proof.
  intros Hin Hne. unfold filter_Boolean. apply list_elem_of_omap.
  exists (Some X). split; [done|]. simpl.
  destruct (String.eqb X "") eqn:E; [|done].
  by apply String.eqb_eq in E.
Qed.

(** The inner loop ends: from [i], it makes the turns that are left up to
    the quantity rounded up, none when [i] has passed it. *)
Lemma loop_turns_ceiling (fuel : nat) (i : Z) (q : Q) :
  (Z.to_nat (Qceiling q - i) ≤ fuel)%nat →
  loop_turns fuel i q = Z.to_nat (Qceiling q - i).
Proof.
  revert i. induction fuel as [|fuel IH]; intros i Hfuel; [simpl; lia|].
  cbn [loop_turns]. destruct (Qle_bool q (inject_Z i)) eqn:Hle.
  - apply Qle_bool_iff, Qceiling_resp_le in Hle. rewrite Qceiling_Z in Hle. lia.
  - assert (Hlt : i < Qceiling q).
    { apply Z.nle_gt. intros Hge. apply not_true_iff_false in Hle. apply Hle.
      apply Qle_bool_iff. apply Qle_trans with (inject_Z (Qceiling q)).
      - apply Qle_ceiling.
      - by rewrite <- Zle_Qle. }
    rewrite IH by lia. lia.
Qed.

(** The rows an entry asks for: its quantity rounded up, 1 when it is
    absent or 0, none when it is negative. *)
Lemma requested_units_ceiling (item : ItemRequest) :
  requested_units item = Z.to_nat (Qceiling (quantity_or_1 (req_quantity item))).
Proof.
  unfold requested_units. cbv zeta. rewrite loop_turns_ceiling; [f_equal; lia|lia].
Qed.

Lemma requested_units_integer (item : ItemRequest) (q : Q) (N : Z) :
  req_quantity item = Some q → (q == inject_Z N)%Q → 1 ≤ N →
  requested_units item = Z.to_nat N.
Proof.
  intros Hq HN H1. rewrite requested_units_ceiling, Hq. unfold quantity_or_1.
  destruct (Qeq_bool q 0) eqn:Hz.
  - apply Qeq_bool_iff in Hz. rewrite HN in Hz.
    unfold Qeq in Hz. simpl in Hz. lia.
  - by rewrite HN, Qceiling_Z.
Qed.

Lemma length_unit_rows (orderId : string) (cm : gmap string A)
    (sm : gmap string (option string)) (mm : gmap string (gmap string string))
    (items : list ItemRequest) :
  length (items ≫= unit_rows orderId cm sm mm) = sum_list_with requested_units items.
Proof.
  induction items as [|x l IH]; [done|].
  rewrite bind_cons, length_app, IH. unfold unit_rows at 1.
  by rewrite length_replicate.
Qed.

Lemma imap_inserted_Forall (P : OrderItem → Prop) (f : nat → nat) (rows : list NewItem) :
  Forall (λ r, ∀ n, P (inserted_row n r)) rows →
  Forall P (imap (λ i r, inserted_row (f i) r) rows).
Proof.
  intros Hall. revert f. induction Hall as [|r rows Hr _ IH]; intros f.
  - constructor.
  - rewrite imap_cons. constructor; [apply Hr|]. apply (IH (f ∘ S)).
Qed.

(** What POST does once the body is well formed and the store takes the
    rows: the rows of [itemsToInsert] are appended, in their order. *)
Lemma POST_inserts (w : World) (orderId shopId : string) (items : list ItemRequest)
    (st : Store) :
  shopId ≠ "" → orderId ≠ "" → db_error w = None →
  let inserted :=
    imap (λ i r, inserted_row (next_id st + i) r) (itemsToInsert orderId shopId items st) in
  ∃ st', POST w orderId {| post_shopId := Some shopId; post_items := Some items |} st
         = (JsonItems inserted, st')
       ∧ supplier_order_items st' = supplier_order_items st ++ inserted.
Proof.
  intros Hs Ho Herr inserted. unfold POST. simpl.
  apply String.eqb_neq in Hs, Ho. rewrite Hs, Ho, Herr. simpl.
  eexists. split; reflexivity.
Qed.

(** The rows one entry of the request contributes sit, in the inserted
    list, after the rows of the entries before it. *)
Lemma POST_entry (w : World) (orderId shopId : string) (pre post : list ItemRequest)
    (item : ItemRequest) (st : Store) :
  shopId ≠ "" → orderId ≠ "" → db_error w = None →
  ∃ cm sm mm before after st' (f : nat → nat),
    cm = build_cost_map
           (select_variants (filter_Boolean (req_variant_id <$> pre ++ item :: post)) st)
    ∧ sm = build_shopify_id_map
           (select_variants (filter_Boolean (req_variant_id <$> pre ++ item :: post)) st)
    ∧ POST w orderId {| post_shopId := Some shopId;
                        post_items := Some (pre ++ item :: post) |} st
      = (JsonItems (before ++ imap (λ i r, inserted_row (f i) r)
                                   (unit_rows orderId cm sm mm item) ++ after), st')
    ∧ supplier_order_items st'
      = supplier_order_items st
        ++ before ++ imap (λ i r, inserted_row (f i) r) (unit_rows orderId cm sm mm item)
        ++ after
    ∧ length before = sum_list_with requested_units pre.
Proof.
  intros Hs Ho Herr.
  destruct (POST_inserts w orderId shopId (pre ++ item :: post) st Hs Ho Herr)
    as (st' & Hpost & Hitems).
  unfold itemsToInsert in Hpost, Hitems.
  rewrite bind_app, bind_cons, !imap_app in Hpost, Hitems.
  eexists _, _, _, _, _, st', _. split; [reflexivity|]. split; [reflexivity|].
  split; [exact Hpost|]. split; [exact Hitems|].
  rewrite length_imap. apply length_unit_rows.
Qed.


(** C10, where the code keeps to it. An entry whose variant has no row in
    product_variants, and whose variant_id is not the name of a property
    that every object inherits, is not refused: the request answers with
    the inserted rows, and the entry has its rows among them, one when no
    quantity is sent and N for a quantity N >= 1, each with unit_price
    0, line_total 0 and no metafields. *)
Theorem add_items_unknown_variant (w : World) (orderId shopId : string)
    (pre post : list ItemRequest) (item : ItemRequest) (st : Store) :
  shopId ≠ "" → orderId ≠ "" → db_error w = None →
  (∀ v, v ∈ product_variants st → Some (pv_id v) ≠ req_variant_id item) →
  (∀ X, req_variant_id item = Some X → inherited X = false) →
  ∃ before rows after st',
    POST w orderId {| post_shopId := Some shopId;
                      post_items := Some (pre ++ item :: post) |} st
    = (JsonItems (before ++ rows ++ after), st')
    ∧ supplier_order_items st' = supplier_order_items st ++ before ++ rows ++ after
    ∧ length before = sum_list_with requested_units pre
    ∧ (req_quantity item = None → length rows = 1%nat)
    ∧ (∀ q N, req_quantity item = Some q → (q == inject_Z N)%Q → 1 ≤ N →
              length rows = Z.to_nat N)
    ∧ Forall (λ r, order_id r = orderId ∧ variant_id r = req_variant_id item
                   ∧ quantity r = num_1 ∧ unit_price r = num_0 ∧ line_total r = num_0
                   ∧ metafields r = ∅) rows.
Proof.
  intros Hs Ho Herr Hno Hown.
  destruct (POST_entry w orderId shopId pre post item st Hs Ho Herr)
    as (cm & sm & mm & before & after & st' & f & Hcm & Hsm & Hpost & Hitems & Hlen).
  exists before, (imap (λ i r, inserted_row (f i) r) (unit_rows orderId cm sm mm item)),
         after, st'.
  split; [exact Hpost|]. split; [exact Hitems|]. split; [exact Hlen|].
  assert (Habsent : ∀ (V : Type) (g : ProductVariant → V) ids,
    js_index_sent (foldl (λ m v, <[pv_id v := g v]> m) ∅ (select_variants ids st))
                  (req_variant_id item) = Undefined).
  { intros V g ids. destruct (req_variant_id item) as [X|] eqn:HX; [|done].
    cbn [js_index_sent]. apply js_read_undefined; [|by apply Hown].
    rewrite cost_map_absent; [done|].
    intros v Hv Heq. apply list_elem_of_filter in Hv as [_ Hv].
    apply (Hno v Hv). by rewrite Heq. }
  split; [|split].
  - intros Hq. rewrite length_imap. unfold unit_rows. rewrite length_replicate.
    rewrite requested_units_ceiling, Hq. reflexivity.
  - intros q N Hq HN HN1. rewrite length_imap. unfold unit_rows.
    rewrite length_replicate. by apply (requested_units_integer item q N).
  - apply imap_inserted_Forall. unfold unit_rows.
    subst cm sm. unfold build_cost_map, build_shopify_id_map. rewrite !Habsent.
    apply Forall_replicate. intros n. simpl. done.
Qed.

(** *** Recalculating prices *)

(** What one turn of the loop of recalculate_prices does to one row. *)
Definition reprice_step (w : World) (costMap : gmap string A) (r item : OrderItem) : OrderItem :=
  if bool_decide (item_id r = item_id item)
  then with_price (current_cost costMap (variant_id item))
                  (num_mul (current_cost costMap (variant_id item)) (quantity item))
                  (now w) r
  else r.

(** What the whole loop does to one row. *)
Definition reprice (w : World) (costMap : gmap string A) (orderItems : list OrderItem)
    (r : OrderItem) : OrderItem :=
  foldl (reprice_step w costMap) r orderItems.

Definition item_prices (st : Store) : list (string * A * A) :=
  (λ it, (item_id it, unit_price it, line_total it)) <$> supplier_order_items st.

Lemma recalculate_loop_rows (w : World) (costMap : gmap string A)
    (orderItems : list OrderItem) (st : Store) :
  supplier_order_items (foldl (recalculate_item w costMap) st orderItems)
  = reprice w costMap orderItems <$> supplier_order_items st.
Proof.
  revert st. induction orderItems as [|item l IH]; intros st.
  - simpl. by rewrite list_fmap_id.
  - cbn [foldl]. rewrite IH. unfold recalculate_item, db_update_items. simpl.
    rewrite <- list_fmap_compose. apply list_fmap_ext. intros i r _. simpl.
    unfold reprice. cbn [foldl]. reflexivity.
Qed.

Lemma recalculate_loop_variants (w : World) (costMap : gmap string A)
    (orderItems : list OrderItem) (st : Store) :
  product_variants (foldl (recalculate_item w costMap) st orderItems) = product_variants st.
Proof.
  revert st. induction orderItems as [|item l IH]; intros st; simpl; [done|].
  by rewrite IH.
Qed.

(** The loop leaves a row alone, or leaves it with the price computed from
    the last row of the snapshot that carries its id. *)
Lemma reprice_last (w : World) (cm : gmap string A) (l : list OrderItem) (r : OrderItem) :
  reprice w cm l r
  = match last (filter (λ item, item_id item = item_id r) l) with
    | Some item =>
      with_price (current_cost cm (variant_id item))
                 (num_mul (current_cost cm (variant_id item)) (quantity item)) (now w) r
    | None => r
    end.
Proof.
  induction l as [|x l IH] using rev_ind; [done|].
  unfold reprice in *. rewrite foldl_snoc, filter_app, IH.
  set (m := last (filter _ l)).
  assert (Hid : item_id (match m with
                         | Some item =>
                           with_price (current_cost cm (variant_id item))
                             (num_mul (current_cost cm (variant_id item)) (quantity item))
                             (now w) r
                         | None => r
                         end) = item_id r) by (by destruct m).
  unfold reprice_step. rewrite Hid. rewrite filter_cons, filter_nil.
  case_bool_decide as Hx.
  - rewrite decide_True by done. rewrite last_snoc. by destruct m.
  - rewrite decide_False by done. by rewrite app_nil_r.
Qed.

Lemma reprice_keeps (w : World) (cm : gmap string A) (l : list OrderItem) (r : OrderItem) :
  item_id (reprice w cm l r) = item_id r
  ∧ order_id (reprice w cm l r) = order_id r
  ∧ variant_id (reprice w cm l r) = variant_id r
  ∧ quantity (reprice w cm l r) = quantity r.
Proof. rewrite reprice_last. by destruct (last _). Qed.

(** The loop reads only the id, the variant and the quantity of the rows
    of the snapshot. *)
Lemma reprice_snapshot (w : World) (cm : gmap string A) (g : OrderItem → OrderItem)
    (l : list OrderItem) (r : OrderItem) :
  (∀ x, item_id (g x) = item_id x ∧ variant_id (g x) = variant_id x
        ∧ quantity (g x) = quantity x) →
  reprice w cm (g <$> l) r = reprice w cm l r.
Proof.
  intros Hg. revert r. induction l as [|x l IH]; intros r; [done|].
  rewrite fmap_cons. unfold reprice in *. cbn [foldl]. rewrite IH. f_equal.
  unfold reprice_step. destruct (Hg x) as (-> & -> & ->). done.
Qed.

Lemma reprice_twice (w1 w2 : World) (cm : gmap string A) (l : list OrderItem) (r : OrderItem) :
  let r1 := reprice w1 cm l r in
  let r2 := reprice w2 cm l r1 in
  item_id r2 = item_id r1 ∧ unit_price r2 = unit_price r1 ∧ line_total r2 = line_total r1.
Proof.
  intros r1 r2. subst r2. rewrite reprice_last.
  replace (item_id r1) with (item_id r) by (symmetry; apply reprice_keeps).
  subst r1. rewrite reprice_last. by destruct (last _).
Qed.

Lemma filter_order_reprice (w : World) (cm : gmap string A) (l rows : list OrderItem)
    (orderId : string) :
  filter (λ item, order_id item = orderId) (reprice w cm l <$> rows)
  = reprice w cm l <$> filter (λ item, order_id item = orderId) rows.
Proof.
  induction rows as [|x rows IH]; [done|].
  rewrite fmap_cons, !filter_cons.
  replace (order_id (reprice w cm l x)) with (order_id x) by (symmetry; apply reprice_keeps).
  case_decide; [rewrite fmap_cons|]; by rewrite IH.
Qed.

(** What a successful recalculation is made of. *)
Lemma PUT_recalculate_prices_run (w : World) (orderId : string) (body : PutBody)
    (st st' : Store) (n : nat) :
  PUT_recalculate_prices w orderId body st = (JsonMessage (ArticlesUpdated n), st') →
  let l := select_order_items orderId st in
  let cm := build_cost_map (select_variants (filter_Boolean (variant_id <$> l)) st) in
  l ≠ [] ∧ supplier_order_items st' = reprice w cm l <$> supplier_order_items st
  ∧ product_variants st' = product_variants st.
Proof.
  intros Hrun l cm. unfold PUT_recalculate_prices in Hrun.
  destruct (put_shopId body) as [shopId|]; [|by simplify_eq].
  destruct (_ || _); [by simplify_eq|].
  case_bool_decide as Hlen; [by simplify_eq|].
  simplify_eq. rewrite updateOrderTotals_items, recalculate_loop_rows.
  split; [|split; [done|]].
  - intros Hnil. apply Hlen. fold l. by rewrite Hnil.
  - unfold updateOrderTotals. simpl. apply recalculate_loop_variants.
Qed.

(** A recalculation that does not report updated rows changes nothing. *)
Lemma PUT_recalculate_prices_skip (w : World) (orderId : string) (body : PutBody)
    (st st' : Store) (resp : Response) :
  PUT_recalculate_prices w orderId body st = (resp, st') →
  (∀ n, resp ≠ JsonMessage (ArticlesUpdated n)) →
  st' = st.
Proof.
  intros Hrun Hno. unfold PUT_recalculate_prices in Hrun.
  destruct (put_shopId body) as [shopId|]; [|by simplify_eq].
  destruct (_ || _); [by simplify_eq|].
  case_bool_decide as Hlen; [by simplify_eq|].
  simplify_eq. by destruct (Hno (length (select_order_items orderId st))).
Qed.

Lemma PUT_recalculate_prices_resp (w1 w2 : World) (orderId : string) (body : PutBody)
    (st1 st2 : Store) :
  length (select_order_items orderId st1) = length (select_order_items orderId st2) →
  (PUT_recalculate_prices w1 orderId body st1).1
  = (PUT_recalculate_prices w2 orderId body st2).1.
Proof.
  intros Hlen. unfold PUT_recalculate_prices.
  destruct (put_shopId body) as [shopId|]; [|done].
  destruct (_ || _); [done|]. rewrite Hlen.
  by case_bool_decide.
Qed.

Lemma filter_id_NoDup (rows : list OrderItem) (r : OrderItem) (P : OrderItem → Prop)
    `{∀ x, Decision (P x)} :
  NoDup (item_id <$> rows) → r ∈ rows → P r →
  filter (λ item, item_id item = item_id r) (filter P rows) = [r].
Proof.
  induction rows as [|x rows IH]; intros Hnd Hin HP.
  - by apply elem_of_nil in Hin.
  - rewrite fmap_cons in Hnd. apply NoDup_cons in Hnd as [Hx Hnd].
    apply elem_of_cons in Hin as [-> | Hin].
    + rewrite filter_cons_True by done. rewrite filter_cons_True by done. f_equal.
      apply filter_none. intros y Hy Heq. apply list_elem_of_filter in Hy as [_ Hy].
      apply Hx. rewrite <- Heq. by apply list_elem_of_fmap_2.
    + assert (item_id x ≠ item_id r) as Hne.
      { intros Heq. apply Hx. rewrite Heq. by apply list_elem_of_fmap_2. }
      rewrite (filter_cons P). case_decide; [|by apply IH].
      rewrite filter_cons_False by done. by apply IH.
Qed.


(** *** Updating one item *)

(** The price fields of the row after an update that the store accepts, in
    every case but one: both [quantity] and [unit_price] sent, [quantity]
    falsy. *)
Lemma update_item_line_total (w : World) (itemId : string) (body : PutBody) (st : Store)
    (item : OrderItem) :
  select_item itemId st = Some item →
  (is_Some (put_unit_price body) → ∀ q, put_quantity body = Some q → truthy q = true) →
  (put_quantity body = None → put_unit_price body = None →
   line_total item = num_mul (unit_price item) (quantity item)) →
  let item' := apply_update (build_updateData w itemId body st) item in
  line_total item' = num_mul (unit_price item') (quantity item').
Proof.
  intros Hsel Hq Hold. unfold build_updateData. rewrite Hsel. simpl.
  destruct (put_quantity body) as [q|], (put_unit_price body) as [p|]; simpl.
  - by rewrite (Hq (ltac:(eauto)) q eq_refl).
  - done.
  - done.
  - by apply Hold.
Qed.

(** *** The status after an add *)

Lemma updateOrderTotals_status (w : World) (orderId shopId : string) (st : Store)
    (o : SupplierOrder) :
  o ∈ supplier_orders st →
  ∃ o', o' ∈ supplier_orders (updateOrderTotals w orderId shopId st)
        ∧ so_id o' = so_id o ∧ status o' = status o.
Proof.
  intros Hin. eexists. split.
  - unfold updateOrderTotals, set_orders. cbn [supplier_orders].
    apply list_elem_of_fmap_2, Hin.
  - by case_bool_decide.
Qed.

Lemma mark_in_progress_draft (w : World) (orderId : string) (st : Store) (o : SupplierOrder) :
  o ∈ supplier_orders st → so_id o = orderId → status o = "draft" →
  ∃ o', o' ∈ supplier_orders (mark_in_progress w orderId st)
        ∧ so_id o' = orderId ∧ status o' = "in_progress".
Proof.
  intros Hin Hid Hst. eexists. split.
  - unfold mark_in_progress, set_orders. cbn [supplier_orders].
    apply list_elem_of_fmap_2, Hin.
  - by rewrite bool_decide_eq_true_2.
Qed.

Lemma POST_marks_in_progress (w : World) (orderId shopId : string)
    (items : list ItemRequest) (st : Store) (o : SupplierOrder) :
  shopId ≠ "" → orderId ≠ "" → db_error w = None →
  o ∈ supplier_orders st → so_id o = orderId → status o = "draft" →
  ∃ o', o' ∈ supplier_orders
              (POST w orderId {| post_shopId := Some shopId; post_items := Some items |} st).2
        ∧ so_id o' = orderId ∧ status o' = "in_progress".
Proof.
  intros Hs Ho Herr Hin Hid Hst. unfold POST. cbn [post_shopId post_items].
  apply String.eqb_neq in Hs, Ho. unfold js_string_truthy. rewrite Hs, Ho, Herr.
  cbn [negb orb db_insert snd].
  destruct (updateOrderTotals_status w orderId shopId
              (db_insert (itemsToInsert orderId shopId items st) st).2 o Hin)
    as (o1 & Hin1 & Hid1 & Hst1).
  apply (mark_in_progress_draft w orderId _ o1 Hin1); congruence.
Qed.

End Route.
End OrderItems.

(** * The order page (src/unnamed/part_002) *)

Module OrderPage.

(** The type of [SupplierOrder.status]:
    ['draft' | 'requested' | 'produced' | 'completed']. *)
Definition statuses : list string := ["draft"; "requested"; "produced"; "completed"].

(** The status buttons the page renders, as the [newStatus] each passes to
    [changeStatus]: three blocks, each guarded by [order.status === ..];
    the button to 'requested' is disabled while the order has no item. *)
Definition status_buttons (status : string) (itemCount : nat) : list string :=
  (if String.eqb status "draft"
   then (if Nat.eqb itemCount 0 then [] else ["requested"])
   else [])
  ++ (if String.eqb status "requested" then ["draft"; "produced"] else [])
  ++ (if String.eqb status "produced" then ["requested"; "completed"] else []).

(** The transitions of the specification. *)
Definition allowed (from to : string) : Prop :=
  (from = "draft" ∧ to = "requested")
  ∨ (from = "requested" ∧ to = "produced")
  ∨ (from = "produced" ∧ to = "completed")
  ∨ (from = "requested" ∧ to = "draft")
  ∨ (from = "produced" ∧ to = "requested").

(** The buttons offer allowed transitions only, between known statuses,
    and none once the order is completed. *)
Lemma status_buttons_allowed (status to : string) (itemCount : nat) :
  to ∈ status_buttons status itemCount →
  allowed status to ∧ status ∈ statuses ∧ to ∈ statuses.
Proof.
  intros Hin. unfold status_buttons in Hin. rewrite !elem_of_app in Hin.
  unfold allowed, statuses. rewrite !elem_of_cons.
  destruct Hin as [Hin | [Hin | Hin]].
  - destruct (String.eqb_spec status "draft") as [-> | _];
      [|by apply elem_of_nil in Hin].
    destruct (Nat.eqb itemCount 0); [by apply elem_of_nil in Hin|].
    apply list_elem_of_singleton in Hin as ->. tauto.
  - destruct (String.eqb_spec status "requested") as [-> | _];
      [|by apply elem_of_nil in Hin].
    rewrite !elem_of_cons in Hin. destruct Hin as [-> | [-> | Hin]];
      [tauto | tauto | by apply elem_of_nil in Hin].
  - destruct (String.eqb_spec status "produced") as [-> | _];
      [|by apply elem_of_nil in Hin].
    rewrite !elem_of_cons in Hin. destruct Hin as [-> | [-> | Hin]];
      [tauto | tauto | by apply elem_of_nil in Hin].
Qed.

Lemma status_buttons_completed (itemCount : nat) : status_buttons "completed" itemCount = [].
Proof. reflexivity. Qed.

End OrderPage.

(** ** The route on binary64 numbers: the scenarios of the specification *)

Module OrderItemsExamples.
Import OrderItems.

Local Open Scope float_scope.

(** No metafield is configured in the scenarios; new rows start
    unvalidated and unprinted, and a price that is not sent is stored as
    [null], which reads as 0. *)
Definition no_metafields (shopId : string) (ids : list (option string))
    (configs : list MetafieldConfig) : gmap string (gmap string string) := ∅.

Definition uuid (n : nat) : string := "row-" +:+ pretty n.

Definition handle_js (w : World) (orderId : string) (req : Request (A := float))
    (st : Store (A := float)) : Response * Store :=
  handle no_metafields uuid false false 0 0 w orderId req st.

Definition world : World := {| now := "2025-01-01T00:00:00.000Z"; db_error := None |}.

Definition an_item (itemId : string) (variantId : option string)
    (quantity' unitPrice lineTotal : float) (validated : bool) : OrderItem :=
  {| item_id := itemId; order_id := "o1"; variant_id := variantId;
     product_title := "T-shirt"; variant_title := Some "M"; sku := Some "TS-M";
     quantity := quantity'; unit_price := unitPrice; line_total := lineTotal;
     is_validated := validated; validated_at := None;
     is_printed := false; printed_at := None;
     metafields := ∅; item_updated_at := None |}.

Definition an_order (status' : string) (balance : float) : SupplierOrder :=
  {| so_id := "o1"; so_shop_id := "s1"; status := status';
     subtotal := 0; balance_adjustment := balance; total_ht := 0; total_ttc := 0;
     so_updated_at := None |}.

(** Three unit rows, one validated at 10.00, one about to be validated at
    15.00, one pending at 99.00; balance_adjustment = -5. *)
Definition scenario_store : Store :=
  {| supplier_order_items :=
       [ an_item "i1" (Some "v1") 1 10 10 true;
         an_item "i2" (Some "v1") 1 15 15 false;
         an_item "i3" (Some "v2") 1 99 99 false ];
     supplier_orders := [ an_order "requested" (-5) ];
     product_variants :=
       [ {| pv_id := "v1"; cost := Some 7.5; shopify_id := Some "111" |};
         {| pv_id := "v2"; cost := None; shopify_id := Some "222" |} ];
     metafield_config := [];
     next_id := 0 |}.

Definition validate_i2 : Request (A := float) :=
  ReqPUT {| put_shopId := Some "s1"; put_itemId := Some "i2";
            put_is_validated := Some true; put_is_printed := None;
            put_quantity := None; put_unit_price := None; put_action := None |}.

Definition scenario_after : Response * Store :=
  handle_js world "o1" validate_i2 scenario_store.

Definition order_after : SupplierOrder :=
  {| so_id := "o1"; so_shop_id := "s1"; status := "requested";
     subtotal := 25; balance_adjustment := -5; total_ht := 20; total_ttc := 24;
     so_updated_at := Some (now world) |}.

Example scenario_totals : supplier_orders scenario_after.2 = [order_after].
Proof. vm_compute. reflexivity. Qed.

(** The same order beside the order o2 of the same shop, which has one
    validated item at 40.00 and its totals in step with it. *)
Definition other_item (itemId : string) (lineTotal : float) : OrderItem :=
  {| item_id := itemId; order_id := "o2"; variant_id := Some "v1";
     product_title := "T-shirt"; variant_title := Some "L"; sku := Some "TS-L";
     quantity := 1; unit_price := lineTotal; line_total := lineTotal;
     is_validated := true; validated_at := None;
     is_printed := false; printed_at := None;
     metafields := ∅; item_updated_at := None |}.

Definition other_order : SupplierOrder :=
  {| so_id := "o2"; so_shop_id := "s1"; status := "requested";
     subtotal := 40; balance_adjustment := 0; total_ht := 40; total_ttc := 48;
     so_updated_at := None |}.

Definition two_orders : Store :=
  {| supplier_order_items :=
       [ an_item "i1" (Some "v1") 1 10 10 true;
         other_item "j1" 40;
         an_item "i2" (Some "v1") 1 15 15 false;
         an_item "i3" (Some "v2") 1 99 99 false ];
     supplier_orders := [ an_order "requested" (-5); other_order ];
     product_variants := product_variants scenario_store;
     metafield_config := [];
     next_id := 0 |}.

Definition two_orders_after : Response * Store :=
  handle_js world "o1" validate_i2 two_orders.

Example two_orders_totals :
  supplier_orders two_orders_after.2 = [order_after; other_order].
Proof. vm_compute. reflexivity. Qed.

Lemma totals_after_mutation_witness :
  let validated :=
    filter (λ item, order_id item = so_id order_after ∧ is_validated item = true)
           (supplier_order_items two_orders_after.2) in
  subtotal order_after = sum_line_totals validated
  ∧ total_ht order_after = num_add (subtotal order_after) (balance_adjustment order_after)
  ∧ total_ttc order_after = num_mul (total_ht order_after) num_1_2.
Proof.
  apply (totals_after_mutation no_metafields uuid false false 0 0 world "o1" "s1"
           validate_i2 two_orders two_orders_after.2 two_orders_after.1 order_after).
  - vm_compute. reflexivity.
  - vm_compute. right. right. eexists. reflexivity.
  - reflexivity.
  - apply (bool_decide_unpack _). vm_compute. exact I.
  - vm_compute. left.
  - reflexivity.
  - reflexivity.
  - vm_compute. repeat constructor.
  - left. vm_compute. reflexivity.
  - left. vm_compute. reflexivity.
Defined.

(** *** Requests that name the item of another order, or another shop *)

Definition delete_j1 : Request (A := float) := ReqDELETE (Some "j1") (Some "s1").

Definition unvalidate_i1_as_s2 : Request (A := float) :=
  ReqPUT {| put_shopId := Some "s2"; put_itemId := Some "i1";
            put_is_validated := Some false; put_is_printed := None;
            put_quantity := None; put_unit_price := None; put_action := None |}.

(** The validated items of an order, as the claim counts them. *)
Definition validated_items (orderId : string) (st : Store (A := float)) : list OrderItem :=
  filter (λ item, order_id item = orderId ∧ is_validated item = true)
         (supplier_order_items st).

(** The two orders once the item i2 is validated: the totals of both are
    in step with their items. *)
Definition settled : Store := two_orders_after.2.

(** C1, where the code departs from it.  The totals of the two orders are
    in step with their validated items.  A delete sent on the path of the
    order o1 for the item j1 of the order o2 is answered with success: the
    item is gone, the totals of o1 are recomputed, and o2 keeps the
    subtotal 40 with no validated item left.  An update of the item i1
    sent with the id of another shop is answered with the updated item:
    i1 is no longer validated, and the order o1, which is not of that
    shop, keeps the subtotal 25 where its validated items add up to 15. *)
Lemma totals_left_stale :
  (∀ o, o ∈ supplier_orders settled →
        subtotal o = sum_line_totals (validated_items (so_id o) settled))
  ∧ (handle_js world "o1" delete_j1 settled).1 = JsonSuccess
  ∧ other_order ∈ supplier_orders (handle_js world "o1" delete_j1 settled).2
  ∧ subtotal other_order = 40
  ∧ sum_line_totals (validated_items "o2" (handle_js world "o1" delete_j1 settled).2) = 0
  ∧ subtotal other_order
    ≠ sum_line_totals (validated_items "o2" (handle_js world "o1" delete_j1 settled).2)
  ∧ (∃ item, (handle_js world "o1" unvalidate_i1_as_s2 settled).1 = JsonItem item
             ∧ item_id item = "i1" ∧ is_validated item = false)
  ∧ order_after ∈ supplier_orders (handle_js world "o1" unvalidate_i1_as_s2 settled).2
  ∧ subtotal order_after = 25
  ∧ sum_line_totals (validated_items "o1" (handle_js world "o1" unvalidate_i1_as_s2 settled).2)
    = 15
  ∧ subtotal order_after
    ≠ sum_line_totals
        (validated_items "o1" (handle_js world "o1" unvalidate_i1_as_s2 settled).2).
Proof.
  split.
  { intros o Ho. vm_compute in Ho.
    apply elem_of_cons in Ho as [-> | Ho]; [vm_compute; reflexivity|].
    apply elem_of_cons in Ho as [-> | Ho]; [vm_compute; reflexivity|].
    by apply elem_of_nil in Ho. }
  split; [vm_compute; reflexivity|].
  split; [vm_compute; right; left|].
  split; [reflexivity|].
  split; [vm_compute; reflexivity|].
  split; [vm_compute; intros Heq; discriminate Heq|].
  split; [eexists; vm_compute; repeat split; reflexivity|].
  split; [vm_compute; left|].
  split; [reflexivity|].
  split; [vm_compute; reflexivity|].
  vm_compute. intros Heq. discriminate Heq.
Qed.

(** *** Adding items: [{variant_id: "v1", quantity: 3}], the cost of v1 being 7.50 *)

Definition an_entry (variantId : string) (quantity' : Z) : ItemRequest :=
  {| req_variant_id := Some variantId; req_product_title := "T-shirt";
     req_variant_title := Some "M"; req_sku := Some "TS-M";
     req_quantity := Some (inject_Z quantity') |}.

Definition add_three : Request (A := float) :=
  ReqPOST {| post_shopId := Some "s1"; post_items := Some [an_entry "v1" 3] |}.

Example add_three_rows :
  ∃ inserted,
    (handle_js world "o1" add_three scenario_store).1 = JsonItems inserted
    ∧ (λ r, (quantity r, unit_price r, line_total r)) <$> inserted
      = [(1, 7.5, 7.5); (1, 7.5, 7.5); (1, 7.5, 7.5)]
    ∧ length (supplier_order_items (handle_js world "o1" add_three scenario_store).2) = 6%nat.
Proof. eexists. vm_compute. split; [reflexivity|]. split; reflexivity. Qed.


(** *** Adding an entry whose variant has no row *)

Example add_ghost_rows :
  ∃ inserted,
    (handle_js world "o1"
       (ReqPOST {| post_shopId := Some "s1"; post_items := Some [an_entry "ghost" 2] |})
       scenario_store).1 = JsonItems inserted
    ∧ (λ r, (quantity r, unit_price r, line_total r, metafields r)) <$> inserted
      = [(1, 0, 0, ∅); (1, 0, 0, ∅)].
Proof. eexists. vm_compute. split; reflexivity. Qed.

Lemma add_items_unknown_variant_witness :
  ∃ before rows after st',
    POST no_metafields uuid false false 0 0 world "o1"
      {| post_shopId := Some "s1"; post_items := Some ([] ++ an_entry "ghost" 2 :: []) |}
      scenario_store
    = (JsonItems (before ++ rows ++ after), st')
    ∧ supplier_order_items st' = supplier_order_items scenario_store ++ before ++ rows ++ after
    ∧ length before = sum_list_with requested_units []
    ∧ (req_quantity (an_entry "ghost" 2) = None → length rows = 1%nat)
    ∧ (∀ q N, req_quantity (an_entry "ghost" 2) = Some q → (q == inject_Z N)%Q → (1 ≤ N)%Z →
              length rows = Z.to_nat N)
    ∧ Forall (λ r, order_id r = "o1" ∧ variant_id r = req_variant_id (an_entry "ghost" 2)
                   ∧ quantity r = num_1 ∧ unit_price r = num_0 ∧ line_total r = num_0
                   ∧ metafields r = ∅) rows.
Proof.
  apply (add_items_unknown_variant no_metafields uuid false false 0 0 world "o1" "s1"
           [] [] (an_entry "ghost" 2) scenario_store).
  - discriminate.
  - discriminate.
  - reflexivity.
  - intros v Hv. vm_compute in Hv.
    apply elem_of_cons in Hv as [-> | Hv]; [discriminate|].
    apply elem_of_cons in Hv as [-> | Hv]; [discriminate|].
    by apply elem_of_nil in Hv.
  - intros X HX. injection HX as <-. reflexivity.
Defined.

(** The row the route sends for an entry: what it holds of the prices. *)
Definition sent_prices (r : NewItem (A := float)) : option float * option float :=
  (new_unit_price r, new_line_total r).

(** C10, where the code departs from it.  No variant has the id
    'constructor', and the entry {variant_id: 'constructor', quantity: 2}
    is expanded into two rows; but [variantCostMap['constructor']] is the
    function every object inherits under that name, [|| 0] keeps it, and
    the rows go to the store without unit_price and without line_total,
    where an entry for 'ghost' is sent with 0 and 0. *)
Theorem add_items_inherited_name :
  (∀ v, v ∈ product_variants scenario_store → pv_id v ≠ "constructor")
  ∧ sent_prices <$> itemsToInsert no_metafields "o1" "s1" [an_entry "constructor" 2]
                                  scenario_store
    = [(None, None); (None, None)]
  ∧ sent_prices <$> itemsToInsert no_metafields "o1" "s1" [an_entry "ghost" 2] scenario_store
    = [(Some 0, Some 0); (Some 0, Some 0)]
  ∧ new_metafields <$> itemsToInsert no_metafields "o1" "s1" [an_entry "constructor" 2]
                                     scenario_store
    = [∅; ∅].
Proof.
  split.
  - intros v Hv. vm_compute in Hv.
    apply elem_of_cons in Hv as [-> | Hv]; [discriminate|].
    apply elem_of_cons in Hv as [-> | Hv]; [discriminate|].
    by apply elem_of_nil in Hv.
  - split; [vm_compute; reflexivity|]. split; vm_compute; reflexivity.
Qed.

(** *** Recalculating prices twice *)

Definition recalculate : PutBody (A := float) :=
  {| put_shopId := Some "s1"; put_itemId := None;
     put_is_validated := None; put_is_printed := None;
     put_quantity := None; put_unit_price := None;
     put_action := Some recalculate_prices |}.

Definition PUT_js (w : World) (orderId : string) (body : PutBody (A := float))
    (st : Store (A := float)) : Response * Store :=
  PUT no_metafields w orderId body st.

Definition later : World := {| now := "2025-01-02T00:00:00.000Z"; db_error := None |}.

Definition once : Response * Store := PUT_js world "o1" recalculate scenario_store.
Definition twice : Response * Store := PUT_js later "o1" recalculate once.2.

Example recalculated_once :
  item_prices once.2 = [("i1", 7.5, 7.5); ("i2", 7.5, 7.5); ("i3", 0, 0)].
Proof. vm_compute. reflexivity. Qed.


(** *** Updating quantity and unit price together, the quantity being 0 *)

Definition zero_quantity : Request (A := float) :=
  ReqPUT {| put_shopId := Some "s1"; put_itemId := Some "i1";
            put_is_validated := None; put_is_printed := None;
            put_quantity := Some 0; put_unit_price := Some 5; put_action := None |}.

(** C2, where the code departs from it. The item i1 is stored with
    quantity 1, unit_price 10, line_total 10. An update sending quantity 0
    and unit_price 5 stores quantity 0 and unit_price 5 with line_total 5:
    [quantity || item.quantity] falls back to the stored quantity 1, so
    line_total is not unit_price * quantity = 0. *)
Theorem update_zero_quantity_line_total :
  ∃ item',
    (handle_js world "o1" zero_quantity scenario_store).1 = JsonItem item'
    ∧ item' ∈ supplier_order_items (handle_js world "o1" zero_quantity scenario_store).2
    ∧ quantity item' = 0 ∧ unit_price item' = 5 ∧ line_total item' = 5
    ∧ num_mul (unit_price item') (quantity item') = 0
    ∧ line_total item' ≠ num_mul (unit_price item') (quantity item').
Proof.
  eexists. vm_compute. split; [reflexivity|]. split; [left|].
  repeat (split; [reflexivity|]). intros Heq. discriminate Heq.
Qed.

(** *** Adding items to a draft order *)

Definition draft_store : Store (A := float) :=
  {| supplier_order_items := [];
     supplier_orders := [ an_order "draft" 0 ];
     product_variants := product_variants scenario_store;
     metafield_config := [];
     next_id := 0 |}.

(** C4, where the code departs from it. Adding items to a draft order
    leaves it with the status 'in_progress', which is none of draft,
    requested, produced, completed, and for which the order page has no
    status button. *)
Theorem add_items_status_in_progress :
  status <$> supplier_orders (handle_js world "o1" add_three draft_store).2 = ["in_progress"]
  ∧ ("in_progress" ∉ OrderPage.statuses)
  ∧ (¬ OrderPage.allowed "draft" "in_progress")
  ∧ ∀ itemCount, OrderPage.status_buttons "in_progress" itemCount = [].
Proof.
  split; [vm_compute; reflexivity|]. split; [|split].
  - unfold OrderPage.statuses. rewrite !elem_of_cons, elem_of_nil.
    intros [H | [H | [H | [H | []]]]]; discriminate H.
  - unfold OrderPage.allowed. intros H. repeat destruct H as [H | H]; destruct H; discriminate.
  - intros itemCount. reflexivity.
Qed.

End OrderItemsExamples.

(** * The inventory sync stream (src/unnamed/part_000) *)

Module Sync.

(** ** Events of the stream and of the clock *)

Inductive EventType := Info | Success | Warning | Error | Progress.

(** The messages of the two fetch phases, by what they report. *)
Inductive Message :=
(** [`  └─ Batch ${batchNum}/${totalBatches} (${batch.length} items)...`] *)
| BatchStarted (batchNum totalBatches size : nat)
(** [`    ⚠️ Reçu ${items.length}/${batch.length} items`] *)
| PartialBatch (received expected : nat)
(** [`    ⏳ Rate limit, retry ${retries}/${maxRetries}...`] *)
| RateLimitRetry (retries maxRetries : nat)
(** [`    ❌ Batch ${batchNum}: rate limit après ${maxRetries} retries`] *)
| RateLimitGiveUp (batchNum maxRetries : nat)
(** [`    ❌ Erreur batch ${batchNum}: ${response.status}`] *)
| BatchError (batchNum : nat) (http_status : Z)
(** [`  └─ Total: ${itemsWithCost} avec coût, ${itemsWithoutCost} sans coût`] *)
| CostTotals (withCost withoutCost : nat)
(** [`  └─ Sauvegarde de ${inventoryToUpsert.length} niveaux...`] *)
| SavingLevels (count : nat)
(** [`✓ ${inventoryToUpsert.length} niveaux d'inventaire mis à jour`] *)
| LevelsUpdated (count : nat).

Inductive Event :=
(** [send(message, type)] *)
| Send (message : Message) (type : EventType)
(** [await new Promise(resolve => setTimeout(resolve, delay))] *)
| Sleep (ms : Z).

Definition sleeps (events : list Event) : list Z :=
  omap (λ e, match e with Sleep ms => Some ms | Send _ _ => None end) events.

Definition batches_started (events : list Event) : list (nat * nat * nat) :=
  omap (λ e, match e with
             | Send (BatchStarted b t n) _ => Some (b, t, n)
             | _ => None
             end) events.

(** ** The batch loop and its retry loop

    The source has the loop twice, for inventory_items.json and for
    inventory_levels.json; the two copies differ in the request and in
    what they do with an ok response, the parameters [fetch] and [on_ok]
    here. *)

Record HttpResponse (Body : Type) := {
  http_status : Z;
  body : Body;
}.
Arguments http_status {Body} _.
Arguments body {Body} _.

(** [response.ok] *)
Definition ok {Body : Type} (response : HttpResponse Body) : bool :=
  Z.leb 200 (http_status response) && Z.leb (http_status response) 299.

Definition maxRetries : nat := 3.

(** [retries === 0 ? 500 : 1000 * Math.pow(2, retries)] *)
Definition delay (retries : nat) : Z :=
  if Nat.eqb retries 0 then 500 else 1000 * 2 ^ Z.of_nat retries.

Section BatchLoop.
Context {Body State : Type}.

(** The answer of the platform to the request number [n] of the phase,
    for the ids of [batch].  A request that throws ends the whole run in
    the [catch] of the stream; the loops are modelled on requests that are
    answered. *)
Variable fetch : nat → list Z → HttpResponse Body.

(** The branch [if (response.ok) { .. }], [success = true] left out. *)
Variable on_ok : list Z → Body → State → State * list (Message * EventType).

(** The variables of the while loop, the requests sent so far, what the
    phase accumulates, and the events emitted since the batch started. *)
Record Loop := {
  success : bool;
  retries : nat;
  requests : nat;
  acc : State;
  events : list Event;
}.

(** [while (!success && retries <= maxRetries) { .. }]; [None] when the
    fuel runs out before the loop ends. *)
Fixpoint retry_loop (fuel : nat) (batchNum : nat) (batch : list Z) (l : Loop) : option Loop :=
  if negb (success l) && Nat.leb (retries l) maxRetries then
    match fuel with
    | O => None
    | S fuel' =>
      let slept := events l ++ [Sleep (delay (retries l))] in
      let response := fetch (requests l) batch in
      if ok response then
        let '(acc', sent) := on_ok batch (body response) (acc l) in
        retry_loop fuel' batchNum batch
          {| success := true; retries := retries l; requests := S (requests l);
             acc := acc'; events := slept ++ ((λ m, Send m.1 m.2) <$> sent) |}
      else if Z.eqb (http_status response) 429 then
        let retries' := S (retries l) in
        let message :=
          if Nat.leb retries' maxRetries
          then Send (RateLimitRetry retries' maxRetries) Warning
          else Send (RateLimitGiveUp batchNum maxRetries) Error in
        retry_loop fuel' batchNum batch
          {| success := success l; retries := retries'; requests := S (requests l);
             acc := acc l; events := slept ++ [message] |}
      else
        Some {| success := success l; retries := retries l; requests := S (requests l);
                acc := acc l;
                events := slept ++ [Send (BatchError batchNum (http_status response)) Error] |}
    end
  else Some l.

(** One turn of [for (let i = 0; i < ids.length; i += 50)]. *)
Definition run_batch (i : nat) (ids : list Z) (n : nat) (st : State) : option Loop :=
  let totalBatches := ((length ids + 49) / 50)%nat in
  let batchNum := (i / 50 + 1)%nat in
  let batch := take 50 (drop i ids) in
  retry_loop (S maxRetries) batchNum batch
    {| success := false; retries := 0; requests := n; acc := st;
       events := [Send (BatchStarted batchNum totalBatches (length batch)) Progress] |}.

(** [for (let i = 0; i < ids.length; i += 50) { .. }], from [i]: the
    requests sent, the accumulated state and the events. *)
Fixpoint batch_loop (fuel : nat) (i : nat) (ids : list Z) (n : nat) (st : State)
    : option (nat * State * list Event) :=
  if Nat.ltb i (length ids) then
    match fuel with
    | O => None
    | S fuel' =>
      match run_batch i ids n st with
      | Some l =>
        match batch_loop fuel' (i + 50) ids (requests l) (acc l) with
        | Some (n', st', later) => Some (n', st', events l ++ later)
        | None => None
        end
      | None => None
      end
    end
  else Some (n, st, []).

End BatchLoop.

(** ** The cost phase: inventory_items.json *)

Section Costs.
Context {A : Type} `{JsNumber A}.

(** [parseFloat] of the engine, on the decimal strings of the platform. *)
Variable parseFloat : string → A.

(** An element of [inventoryData.inventory_items]. *)
Record InventoryItem := {
  ii_id : Z;
  ii_cost : option string;
}.

(** [inventoryItemToCost] (keyed by [item.id.toString()]) and the two counters. *)
Record Costs := {
  inventoryItemToCost : gmap Z A;
  itemsWithCost : nat;
  itemsWithoutCost : nat;
}.

(** [item.cost ? parseFloat(item.cost) : 0] *)
Definition item_cost (item : InventoryItem) : A :=
  match ii_cost item with
  | Some c => if String.eqb c "" then num_0 else parseFloat c
  | None => num_0
  end.

(** The body of [for (const item of items)]. *)
Definition record_cost (s : Costs) (item : InventoryItem) : Costs :=
  let cost := item_cost item in
  {| inventoryItemToCost := <[ii_id item := cost]> (inventoryItemToCost s);
     itemsWithCost := if num_ltb num_0 cost then S (itemsWithCost s) else itemsWithCost s;
     itemsWithoutCost :=
       if num_ltb num_0 cost then itemsWithoutCost s else S (itemsWithoutCost s) |}.

Definition costs_on_ok (batch : list Z) (inventory_items : option (list InventoryItem))
    (s : Costs) : Costs * list (Message * EventType) :=
  let items := default [] inventory_items in
  (foldl record_cost s items,
   if Nat.ltb (length items) (length batch)
   then [(PartialBatch (length items) (length batch), Warning)]
   else []).

Definition no_costs : Costs :=
  {| inventoryItemToCost := ∅; itemsWithCost := 0; itemsWithoutCost := 0 |}.

(** Step 2 of the sync: the costs of all inventory items, by batches of 50. *)
Definition fetchInventoryItemCosts
    (fetch : nat → list Z → HttpResponse (option (list InventoryItem)))
    (inventoryItemIds : list Z) : option (Costs * list Event) :=
  match batch_loop fetch costs_on_ok (length inventoryItemIds) 0 inventoryItemIds 0 no_costs with
  | Some (_, s, sent) =>
    Some (s, sent ++ [Send (CostTotals (itemsWithCost s) (itemsWithoutCost s)) Progress])
  | None => None
  end.

End Costs.

(** ** The level phase: inventory_levels.json *)

(** An element of [levelsData.inventory_levels]; ids are integers, read
    through [toString()]. *)
Record InventoryLevel := {
  il_inventory_item_id : Z;
  il_location_id : Z;
  available : option Z;
}.

(** A row of inventory_levels, as pushed on [inventoryToUpsert]. *)
Record LevelRow := {
  variant_id : string;
  location_id : Z;
  quantity : Z;
  synced_at : string;
}.

(** [level.available || 0] *)
Definition available_or_0 (level : InventoryLevel) : Z :=
  match available level with
  | Some q => if Z.eqb q 0 then 0 else q
  | None => 0
  end.

(** The body of [for (const level of levelsData.inventory_levels || [])]. *)
Definition push_level (inventoryItemToVariantUuid : gmap Z string) (now : string)
    (inventoryToUpsert : list LevelRow) (level : InventoryLevel) : list LevelRow :=
  match inventoryItemToVariantUuid !! il_inventory_item_id level with
  | Some variantUuid =>
    if String.eqb variantUuid "" then inventoryToUpsert
    else inventoryToUpsert
           ++ [{| variant_id := variantUuid;
                  location_id := il_location_id level;
                  quantity := available_or_0 level;
                  synced_at := now |}]
  | None => inventoryToUpsert
  end.

Definition levels_on_ok (inventoryItemToVariantUuid : gmap Z string) (now : string)
    (batch : list Z) (inventory_levels : option (list InventoryLevel))
    (inventoryToUpsert : list LevelRow) : list LevelRow * list (Message * EventType) :=
  (foldl (push_level inventoryItemToVariantUuid now) inventoryToUpsert
         (default [] inventory_levels),
   []).

(** The columns of the conflict target. *)
Definition level_key (row : LevelRow) : string * Z := (variant_id row, location_id row).

(** [.upsert(batch, { onConflict: 'variant_id,location_id' })]: one
    INSERT .. ON CONFLICT (variant_id, location_id) DO UPDATE for the
    whole batch.  The store cannot touch a row twice in one statement: it
    refuses a batch in which two rows carry the same key and writes none
    of its rows.  The route does not look at the answer. *)
Definition upsert (batch : list LevelRow) (table : gmap (string * Z) LevelRow)
    : gmap (string * Z) LevelRow :=
  if bool_decide (NoDup (level_key <$> batch))
  then foldl (λ t row, <[level_key row := row]> t) table batch
  else table.

(** [for (let i = 0; i < inventoryToUpsert.length; i += 500) { .. }] *)
Fixpoint upsert_loop (fuel i : nat) (rows : list LevelRow) (table : gmap (string * Z) LevelRow)
    : option (gmap (string * Z) LevelRow) :=
  if Nat.ltb i (length rows) then
    match fuel with
    | O => None
    | S fuel' => upsert_loop fuel' (i + 500) rows (upsert (take 500 (drop i rows)) table)
    end
  else Some table.

(** The last phase of the sync: the levels of all inventory items, by
    batches of 50, then their upsert by batches of 500.  The result is the
    table, the rows sent to it and the events. *)
Definition fetchInventoryLevels
    (fetch : nat → list Z → HttpResponse (option (list InventoryLevel)))
    (inventoryItemToVariantUuid : gmap Z string) (now : string)
    (inventoryItemIds : list Z) (inventory_levels : gmap (string * Z) LevelRow)
    : option (gmap (string * Z) LevelRow * list LevelRow * list Event) :=
  match batch_loop fetch (levels_on_ok inventoryItemToVariantUuid now)
                   (length inventoryItemIds) 0 inventoryItemIds 0 [] with
  | Some (_, inventoryToUpsert, sent) =>
    match upsert_loop (length inventoryToUpsert) 0 inventoryToUpsert inventory_levels with
    | Some table =>
      Some (table, inventoryToUpsert,
            sent ++ [Send (SavingLevels (length inventoryToUpsert)) Progress;
                     Send (LevelsUpdated (length inventoryToUpsert)) Success])
    | None => None
    end
  | None => None
  end.

(** A platform that answers the requests of a phase from a script, and
    with [otherwise] once the script is over. *)
Definition scripted {Body : Type} (script : list (HttpResponse Body))
    (otherwise : HttpResponse Body) (n : nat) (batch : list Z) : HttpResponse Body :=
  default otherwise (script !! n).

(** ** Properties of the loops *)

Section BatchLoopFacts.
Context {Body State : Type}.
Variable fetch : nat → list Z → HttpResponse Body.
Variable on_ok : list Z → Body → State → State * list (Message * EventType).

(** An ok response announces no batch. *)
Hypothesis on_ok_announces_nothing : ∀ batch response st,
  batches_started ((λ m, Send m.1 m.2) <$> (on_ok batch response st).2) = [].

Lemma sleeps_app (e1 e2 : list Event) : sleeps (e1 ++ e2) = sleeps e1 ++ sleeps e2.
Proof. apply omap_app. Qed.

Lemma sleeps_sent (sent : list (Message * EventType)) :
  sleeps ((λ m, Send m.1 m.2) <$> sent) = [].
Proof. induction sent as [|m sent IH]; [done|]. exact IH. Qed.

Lemma batches_started_app (e1 e2 : list Event) :
  batches_started (e1 ++ e2) = batches_started e1 ++ batches_started e2.
Proof. apply omap_app. Qed.

(** The loop ends: four turns are enough from [retries = 0]. *)
Lemma retry_loop_ends (fuel batchNum : nat) (batch : list Z) (l : Loop (State := State)) :
  success l = true ∨ (S maxRetries ≤ retries l + fuel)%nat →
  ∃ l', retry_loop fetch on_ok fuel batchNum batch l = Some l'.
Proof.
  revert l. induction fuel as [|fuel IH]; intros l Hl.
  - exists l. simpl. destruct Hl as [-> | Hl]; [done|].
    replace (Nat.leb (retries l) maxRetries) with false; [by rewrite andb_false_r|].
    symmetry. apply Nat.leb_gt. lia.
  - cbn [retry_loop]. destruct (success l) eqn:Hs; [by eexists|].
    destruct (Nat.leb (retries l) maxRetries); [|by eexists]. cbn [negb andb].
    destruct (ok _).
    + destruct (on_ok _ _ _) as [acc' sent]. apply IH. by left.
    + destruct (Z.eqb _ 429); [|by eexists]. apply IH. right. simpl.
      destruct Hl as [Hl | Hl]; [done|lia].
Qed.

(** A loop entered with [success] set returns at once. *)
Lemma retry_loop_done (fuel batchNum : nat) (batch : list Z) (l : Loop (State := State)) :
  success l = true → retry_loop fetch on_ok fuel batchNum batch l = Some l.
Proof. intros Hs. destruct fuel; simpl; by rewrite Hs. Qed.

Lemma retry_loop_over (fuel batchNum : nat) (batch : list Z) (l : Loop (State := State)) :
  (maxRetries < retries l)%nat → retry_loop fetch on_ok fuel batchNum batch l = Some l.
Proof.
  intros Hr. apply Nat.leb_gt in Hr. destruct fuel; simpl; by rewrite Hr, andb_false_r.
Qed.

(** What the retry loop has done when it ends: [k] requests, a sleep
    before each, every answer but the last a 429, and the last answer
    decides the outcome. *)
Definition retry_outcome (batch : list Z) (l l' : Loop (State := State)) (k : nat) : Prop :=
  let last_response := fetch (requests l + k - 1) batch in
  (ok last_response = true ∧ success l' = true
   ∧ acc l' = (on_ok batch (body last_response) (acc l)).1)
  ∨ (ok last_response = false ∧ http_status last_response ≠ 429
     ∧ success l' = false ∧ acc l' = acc l)
  ∨ (ok last_response = false ∧ http_status last_response = 429
     ∧ k = (S maxRetries - retries l)%nat ∧ success l' = false ∧ acc l' = acc l).

Lemma retry_loop_spec (fuel batchNum : nat) (batch : list Z) (l l' : Loop (State := State)) :
  retry_loop fetch on_ok fuel batchNum batch l = Some l' →
  success l = false → (retries l ≤ maxRetries)%nat →
  ∃ k, (1 ≤ k ≤ S maxRetries - retries l)%nat
    ∧ requests l' = (requests l + k)%nat
    ∧ retries l' = (retries l + (if success l' then k - 1 else
                                   if Z.eqb (http_status (fetch (requests l + k - 1) batch)) 429
                                   then k else k - 1))%nat
    ∧ sleeps (events l') = sleeps (events l) ++ (delay <$> seq (retries l) k)
    ∧ batches_started (events l') = batches_started (events l)
    ∧ (∀ j, (j + 1 < k)%nat →
            ok (fetch (requests l + j) batch) = false
            ∧ http_status (fetch (requests l + j) batch) = 429)
    ∧ retry_outcome batch l l' k.
Proof.
  pose proof (eq_refl : maxRetries = 3%nat) as Hmax.
  revert l. induction fuel as [|fuel IH]; intros l Hrun Hs Hr.
  - simpl in Hrun. rewrite Hs in Hrun. apply Nat.leb_le in Hr as Hr'.
    rewrite Hr' in Hrun. discriminate.
  - cbn [retry_loop] in Hrun. rewrite Hs in Hrun. apply Nat.leb_le in Hr as Hr'.
    rewrite Hr' in Hrun. cbn [negb andb] in Hrun.
    destruct (ok (fetch (requests l) batch)) eqn:Hok.
    + destruct (on_ok batch (body (fetch (requests l) batch)) (acc l)) as [acc' sent] eqn:Hon.
      rewrite retry_loop_done in Hrun by done. simplify_eq.
      exists 1%nat. cbn [success retries requests acc events].
      replace (requests l + 1 - 1)%nat with (requests l) by lia.
      split; [lia|]. split; [lia|]. split; [lia|].
      split; [by rewrite !sleeps_app, sleeps_sent, app_nil_r|].
      split.
      { rewrite !batches_started_app. simpl.
        pose proof (on_ok_announces_nothing batch (body (fetch (requests l) batch)) (acc l))
          as Hno.
        rewrite Hon in Hno. simpl in Hno. rewrite Hno. by rewrite !app_nil_r. }
      split; [intros j Hj; lia|].
      left. unfold retry_outcome.
      replace (requests l + 1 - 1)%nat with (requests l) by lia. by rewrite Hok, Hon.
    + destruct (Z.eqb_spec (http_status (fetch (requests l) batch)) 429) as [H429 | Hother].
      * destruct (decide (retries l = maxRetries)) as [Hlast | Hmore].
        -- rewrite retry_loop_over in Hrun by (simpl; lia). simplify_eq.
           exists 1%nat. cbn [success retries requests acc events].
           replace (requests l + 1 - 1)%nat with (requests l) by lia.
           rewrite H429. simpl Z.eqb. cbn match.
           split; [lia|]. split; [lia|]. split; [lia|].
           split; [rewrite !sleeps_app; destruct (Nat.leb _ _); simpl;
                   by rewrite app_nil_r|].
           split; [rewrite !batches_started_app; destruct (Nat.leb _ _); simpl;
                   by rewrite !app_nil_r|].
           split; [intros j Hj; lia|].
           right. right. unfold retry_outcome.
           replace (requests l + 1 - 1)%nat with (requests l) by lia.
           repeat split; try done. lia.
        -- apply IH in Hrun; [|done|simpl; lia].
           destruct Hrun as (k & Hk & Hreq & Hret & Hsl & Hbs & Hprev & Hout).
           cbn [success retries requests acc events] in *.
           exists (S k).
           replace (requests l + S k - 1)%nat with (S (requests l) + k - 1)%nat by lia.
           split; [lia|]. split; [lia|].
           split; [rewrite Hret; destruct (success l'); [lia|]; destruct (Z.eqb _ _); lia|].
           split.
           { rewrite Hsl, !sleeps_app. simpl.
             destruct (Nat.leb _ _); simpl; by rewrite app_nil_r, <- app_assoc. }
           split.
           { rewrite Hbs, !batches_started_app. simpl.
             destruct (Nat.leb _ _); simpl; by rewrite !app_nil_r. }
           split.
           { intros j Hj. destruct j as [|j].
             - replace (requests l + 0)%nat with (requests l) by lia. done.
             - replace (requests l + S j)%nat with (S (requests l) + j)%nat by lia.
               apply Hprev. lia. }
           unfold retry_outcome in *. cbn [success retries requests acc events] in *.
           replace (requests l + S k - 1)%nat with (S (requests l) + k - 1)%nat by lia.
           destruct Hout as [Hout | [Hout | Hout]]; [left | right; left | right; right];
             [done | done |].
           destruct Hout as (? & ? & ? & ? & ?). repeat split; try done. lia.
      * simplify_eq. exists 1%nat. cbn [success retries requests acc events].
        replace (requests l + 1 - 1)%nat with (requests l) by lia.
        apply Z.eqb_neq in Hother as Hother'. rewrite Hother'.
        split; [lia|]. split; [lia|]. split; [lia|].
        split; [by rewrite !sleeps_app; simpl; rewrite app_nil_r|].
        split; [by rewrite !batches_started_app; simpl; rewrite !app_nil_r|].
        split; [intros j Hj; lia|].
        right. left. unfold retry_outcome.
        replace (requests l + 1 - 1)%nat with (requests l) by lia. done.
Qed.


(** Every turn of the batch loop ends, after one to four requests. *)
Lemma run_batch_spec (i : nat) (ids : list Z) (n : nat) (st : State) :
  let batch := take 50 (drop i ids) in
  ∃ l k, run_batch fetch on_ok i ids n st = Some l
    ∧ (1 ≤ k ≤ S maxRetries)%nat
    ∧ requests l = (n + k)%nat
    ∧ retries l = (if success l then k - 1 else
                   if Z.eqb (http_status (fetch (n + k - 1) batch)) 429 then k else k - 1)%nat
    ∧ sleeps (events l) = delay <$> seq 0 k
    ∧ batches_started (events l)
      = [((i / 50 + 1)%nat, ((length ids + 49) / 50)%nat, length batch)]
    ∧ (∀ j, (j + 1 < k)%nat →
            ok (fetch (n + j) batch) = false ∧ http_status (fetch (n + j) batch) = 429)
    ∧ ((ok (fetch (n + k - 1) batch) = true ∧ success l = true
        ∧ acc l = (on_ok batch (body (fetch (n + k - 1) batch)) st).1)
       ∨ (ok (fetch (n + k - 1) batch) = false
          ∧ http_status (fetch (n + k - 1) batch) ≠ 429
          ∧ success l = false ∧ acc l = st)
       ∨ (ok (fetch (n + k - 1) batch) = false
          ∧ http_status (fetch (n + k - 1) batch) = 429
          ∧ k = S maxRetries ∧ success l = false ∧ acc l = st)).
Proof.
  intros batch. unfold run_batch. fold batch.
  set (l0 := {| success := false; retries := 0; requests := n; acc := st;
                events := [Send (BatchStarted (i / 50 + 1) ((length ids + 49) / 50)
                                   (length batch)) Progress] |}).
  destruct (retry_loop_ends (S maxRetries) (i / 50 + 1) batch l0) as [l Hl];
    [right; simpl; lia|].
  assert (Hr0 : (retries l0 ≤ maxRetries)%nat) by (simpl; lia).
  destruct (retry_loop_spec _ _ _ _ _ Hl eq_refl Hr0)
    as (k & Hk & Hreq & Hret & Hsl & Hbs & Hprev & Hout).
  exists l, k. split; [done|]. simpl in *.
  split; [lia|]. split; [done|]. split; [done|]. split; [done|]. split; [done|].
  split; [done|]. unfold retry_outcome in Hout. simpl in Hout.
  destruct Hout as [Hout | [Hout | Hout]]; [left | right; left | right; right]; done.
Qed.

(** The batch loop ends, whatever the platform answers, and has started
    every batch of fifty ids, in order. *)
Lemma batch_loop_spec (fuel j : nat) (ids : list Z) (n : nat) (st : State) :
  let total := ((length ids + 49) / 50)%nat in
  (length ids ≤ 50 * j + fuel)%nat →
  ∃ n' st' evs,
    batch_loop fetch on_ok fuel (50 * j) ids n st = Some (n', st', evs)
    ∧ batches_started evs
      = (λ b, (S b, total, length (take 50 (drop (50 * b) ids)))) <$> seq j (total - j).
Proof.
  intros total.
  assert (Htotal : ∀ b, (50 * b < length ids ↔ b < total)%nat).
  { intros b. unfold total.
    pose proof (Nat.div_mod_eq (length ids + 49) 50).
    pose proof (Nat.mod_upper_bound (length ids + 49) 50). lia. }
  revert j n st. induction fuel as [|fuel IH]; intros j n st Hfuel.
  - exists n, st, []. cbn [batch_loop].
    assert (Nat.ltb (50 * j) (length ids) = false) as -> by (apply Nat.ltb_ge; lia).
    split; [done|].
    assert (¬ (j < total)%nat) by (rewrite <- Htotal; lia).
    by replace (total - j)%nat with 0%nat by lia.
  - cbn [batch_loop]. destruct (Nat.ltb_spec (50 * j) (length ids)) as [Hlt | Hge].
    + destruct (run_batch_spec (50 * j) ids n st)
        as (l & k & -> & _ & _ & _ & _ & Hbs & _).
      replace (50 * j + 50)%nat with (50 * S j)%nat by lia.
      destruct (IH (S j) (requests l) (acc l)) as (n' & st' & evs & -> & Hevs); [lia|].
      eexists _, _, _. split; [reflexivity|].
      rewrite batches_started_app, Hbs, Hevs.
      apply Htotal in Hlt.
      replace (total - j)%nat with (S (total - S j)) by lia.
      cbn [seq]. rewrite fmap_cons. cbn [app].
      assert ((50 * j / 50)%nat = j) as -> by (rewrite Nat.mul_comm; by apply Nat.div_mul).
      by replace (j + 1)%nat with (S j) by lia.
    + exists n, st, []. split; [done|].
      assert (¬ (j < total)%nat) by (rewrite <- Htotal; lia).
      by replace (total - j)%nat with 0%nat by lia.
Qed.

(** What holds of the accumulated state and is kept by the handling of
    every ok response holds at the end. *)
Lemma retry_loop_invariant (P : State → Prop) (fuel batchNum : nat) (batch : list Z)
    (l l' : Loop (State := State)) :
  (∀ n st, P st → ok (fetch n batch) = true → P (on_ok batch (body (fetch n batch)) st).1) →
  P (acc l) → retry_loop fetch on_ok fuel batchNum batch l = Some l' → P (acc l').
Proof.
  intros Hstep. revert l. induction fuel as [|fuel IH]; intros l HP Hrun.
  - simpl in Hrun. destruct (negb _ && _); [discriminate|]. by simplify_eq.
  - cbn [retry_loop] in Hrun. destruct (negb _ && _); [|by simplify_eq].
    destruct (ok (fetch (requests l) batch)) eqn:Hok.
    + pose proof (Hstep (requests l) (acc l) HP Hok) as HP'.
      destruct (on_ok _ _ _) as [acc' sent]. apply IH in Hrun; done.
    + destruct (Z.eqb _ 429); [by apply IH in Hrun|]. by simplify_eq.
Qed.

Lemma batch_loop_invariant (P : State → Prop) (fuel i : nat) (ids : list Z) (n : nat)
    (st : State) (n' : nat) (st' : State) (evs : list Event) :
  (∀ n batch st, P st → ok (fetch n batch) = true →
                 P (on_ok batch (body (fetch n batch)) st).1) →
  P st → batch_loop fetch on_ok fuel i ids n st = Some (n', st', evs) → P st'.
Proof.
  intros Hstep. revert i n st evs. induction fuel as [|fuel IH]; intros i n st evs HP Hrun.
  - simpl in Hrun. destruct (Nat.ltb _ _); [discriminate|]. by simplify_eq.
  - cbn [batch_loop] in Hrun. destruct (Nat.ltb _ _); [|by simplify_eq].
    destruct (run_batch fetch on_ok i ids n st) as [l|] eqn:Hl; [|discriminate].
    destruct (batch_loop fetch on_ok fuel (i + 50) ids (requests l) (acc l))
      as [[[n1 st1] later]|] eqn:Hrest; [|discriminate].
    simplify_eq. unfold run_batch in Hl.
    apply (retry_loop_invariant P) in Hl; [|intros; by apply Hstep|done].
    by apply (IH _ _ _ _ Hl Hrest).
Qed.

End BatchLoopFacts.

(** What the phase has accumulated is never taken back: a state reached
    after a batch is contained in the final one. *)
Section BatchLoopGrowth.
Context {Body State : Type}.
Variable fetch : nat → list Z → HttpResponse Body.
Variable on_ok : list Z → Body → State → State * list (Message * EventType).
Variable grows : State → State → Prop.
Hypothesis grows_refl : ∀ st, grows st st.
Hypothesis grows_trans : ∀ st1 st2 st3, grows st1 st2 → grows st2 st3 → grows st1 st3.
Hypothesis on_ok_grows : ∀ batch response st, grows st (on_ok batch response st).1.

Lemma batch_loop_grows (fuel i : nat) (ids : list Z) (n : nat) (st : State)
    (n' : nat) (st' : State) (evs : list Event) :
  batch_loop fetch on_ok fuel i ids n st = Some (n', st', evs) → grows st st'.
Proof.
  intros Hrun.
  apply (batch_loop_invariant fetch on_ok (grows st) _ _ _ _ _ _ _ _) with (3 := Hrun);
    [|apply grows_refl].
  intros m batch st0 Hst0 _. eapply grows_trans; [exact Hst0|apply on_ok_grows].
Qed.

(** Every batch of fifty ids has had its turn, and what the phase held at
    the end of that turn is in the final state. *)
Lemma batch_loop_batches (fuel j : nat) (ids : list Z) (n : nat) (st : State)
    (n' : nat) (st' : State) (evs : list Event) :
  batch_loop fetch on_ok fuel (50 * j) ids n st = Some (n', st', evs) →
  ∀ b, (j ≤ b)%nat → (50 * b < length ids)%nat →
    ∃ m st_b l, run_batch fetch on_ok (50 * b) ids m st_b = Some l ∧ grows (acc l) st'.
Proof.
  revert j n st evs. induction fuel as [|fuel IH]; intros j n st evs Hrun b Hb Hlt.
  - cbn [batch_loop] in Hrun.
    destruct (Nat.ltb_spec (50 * j) (length ids)); [discriminate|lia].
  - cbn [batch_loop] in Hrun.
    destruct (Nat.ltb_spec (50 * j) (length ids)) as [Hj | Hj]; [|lia].
    destruct (run_batch fetch on_ok (50 * j) ids n st) as [l|] eqn:Hl; [|discriminate].
    replace (50 * j + 50)%nat with (50 * S j)%nat in Hrun by lia.
    destruct (batch_loop fetch on_ok fuel (50 * S j) ids (requests l) (acc l))
      as [[[n1 st1] later]|] eqn:Hrest; [|discriminate].
    simplify_eq. destruct (decide (b = j)) as [-> | Hne].
    + exists n, st, l. split; [done|]. by eapply batch_loop_grows.
    + apply (IH _ _ _ _ Hrest b); lia.
Qed.

End BatchLoopGrowth.

(** *** The cost phase *)

Section CostFacts.
Context {A : Type} `{JsNumber A}.
Variable parseFloat : string → A.

Lemma costs_on_ok_announces_nothing (batch : list Z)
    (response : option (list InventoryItem)) (st : Costs) :
  batches_started ((λ m, Send m.1 m.2) <$> (costs_on_ok parseFloat batch response st).2) = [].
Proof. unfold costs_on_ok. simpl. by destruct (Nat.ltb _ _). Qed.

Lemma record_costs_map (s : Costs) (items : list InventoryItem) :
  inventoryItemToCost (foldl (record_cost parseFloat) s items)
  = foldl (λ m item, <[ii_id item := item_cost parseFloat item]> m)
          (inventoryItemToCost s) items.
Proof.
  revert s. induction items as [|item items IH]; intros s; [done|].
  cbn [foldl]. by rewrite IH.
Qed.

Lemma delay_first : delay 0 = 500.
Proof. reflexivity. Qed.

Lemma delay_retry (r : nat) : (1 ≤ r)%nat → delay r = 1000 * 2 ^ Z.of_nat r.
Proof. intros Hr. unfold delay. destruct r; [lia|done]. Qed.


End CostFacts.

(** *** The level phase *)

Lemma upsert_lookup (batch : list LevelRow) (table : gmap (string * Z) LevelRow)
    (k : string * Z) (row : LevelRow) :
  upsert batch table !! k = Some row → table !! k = Some row ∨ row ∈ batch.
Proof.
  unfold upsert. case_bool_decide; [|by left]. clear.
  revert table. induction batch as [|x batch IH]; intros table Hl.
  - by left.
  - cbn [foldl] in Hl. apply IH in Hl as [Hl | Hl].
    + destruct (decide (level_key x = k)) as [<- | Hne].
      * rewrite lookup_insert_eq in Hl. simplify_eq. right. left.
      * rewrite lookup_insert_ne in Hl by done. by left.
    + right. by right.
Qed.

(** No row is ever removed. *)
Lemma upsert_keeps (batch : list LevelRow) (table : gmap (string * Z) LevelRow)
    (k : string * Z) :
  is_Some (table !! k) → is_Some (upsert batch table !! k).
Proof.
  unfold upsert. case_bool_decide; [|done]. clear.
  revert table. induction batch as [|x batch IH]; intros table Hk; [done|].
  cbn [foldl]. apply IH. destruct (decide (level_key x = k)) as [<- | Hne].
  - rewrite lookup_insert_eq. by eexists.
  - by rewrite lookup_insert_ne.
Qed.

(** A batch whose keys are distinct is written whole. *)
Lemma upsert_distinct (batch : list LevelRow) (table : gmap (string * Z) LevelRow) :
  NoDup (level_key <$> batch) →
  (∀ row, row ∈ batch → upsert batch table !! level_key row = Some row)
  ∧ (∀ k, k ∉ level_key <$> batch → upsert batch table !! k = table !! k).
Proof.
  intros Hnd. unfold upsert. rewrite bool_decide_eq_true_2 by done.
  revert table. induction batch as [|x batch IH]; intros table.
  - split; [intros row Hrow; by apply elem_of_nil in Hrow|done].
  - rewrite fmap_cons in Hnd. apply NoDup_cons in Hnd as [Hx Hnd].
    destruct (IH Hnd (<[level_key x := x]> table)) as [Hin Hout].
    cbn [foldl]. split.
    + intros row Hrow. apply elem_of_cons in Hrow as [-> | Hrow]; [|by apply Hin].
      rewrite Hout by done. apply lookup_insert_eq.
    + intros k Hk. rewrite fmap_cons, not_elem_of_cons in Hk. destruct Hk as [Hne Hk].
      rewrite Hout by done. by apply lookup_insert_ne.
Qed.

(** The loop of the upsert ends, batch after batch of 500 rows. *)
Lemma upsert_loop_ends (fuel i : nat) (rows : list LevelRow)
    (table : gmap (string * Z) LevelRow) :
  (length rows ≤ i + fuel)%nat →
  ∃ table', upsert_loop fuel i rows table = Some table'
    ∧ (∀ k row, table' !! k = Some row → table !! k = Some row ∨ row ∈ drop i rows)
    ∧ (∀ k, is_Some (table !! k) → is_Some (table' !! k))
    ∧ (NoDup (level_key <$> drop i rows) →
       (∀ row, row ∈ drop i rows → table' !! level_key row = Some row)
       ∧ (∀ k, k ∉ level_key <$> drop i rows → table' !! k = table !! k)).
Proof.
  revert i table. induction fuel as [|fuel IH]; intros i table Hfuel.
  - exists table. simpl.
    assert (Nat.ltb i (length rows) = false) as -> by (apply Nat.ltb_ge; lia).
    rewrite drop_ge by lia. split; [done|]. split; [by left|]. split; [done|].
    intros _. split; [intros row Hrow; by apply elem_of_nil in Hrow|done].
  - cbn [upsert_loop]. destruct (Nat.ltb_spec i (length rows)) as [Hlt | Hge].
    + destruct (IH (i + 500)%nat (upsert (take 500 (drop i rows)) table))
        as (table' & -> & Hfrom & Hkeep & Hdistinct); [lia|].
      assert (Hsplit : drop i rows = take 500 (drop i rows) ++ drop (i + 500) rows).
      { rewrite <- (take_drop 500 (drop i rows)) at 1. by rewrite drop_drop. }
      exists table'. split; [done|]. split; [|split].
      * intros k row Hl. rewrite Hsplit, elem_of_app.
        apply Hfrom in Hl as [Hl | Hl]; [|by right; right].
        apply upsert_lookup in Hl as [Hl | Hl]; [by left|by right; left].
      * intros k Hk. by apply Hkeep, upsert_keeps.
      * intros Hnd. rewrite Hsplit, fmap_app in Hnd.
        apply NoDup_app in Hnd as (Hnd1 & Hdisj & Hnd2).
        destruct (Hdistinct Hnd2) as [Hlater Hother].
        destruct (upsert_distinct _ table Hnd1) as [Hfirst Hrest].
        rewrite Hsplit. split.
        -- intros row Hrow. apply elem_of_app in Hrow as [Hrow | Hrow]; [|by apply Hlater].
           rewrite Hother; [by apply Hfirst|].
           apply Hdisj. by apply list_elem_of_fmap_2.
        -- intros k Hk. rewrite fmap_app, not_elem_of_app in Hk. destruct Hk as [Hk1 Hk2].
           rewrite Hother by done. by apply Hrest.
    + exists table. rewrite drop_ge by lia. split; [done|]. split; [by left|].
      split; [done|]. intros _. split; [intros row Hrow; by apply elem_of_nil in Hrow|done].
Qed.

Lemma upsert_loop_past (fuel i : nat) (rows : list LevelRow)
    (table : gmap (string * Z) LevelRow) :
  (length rows ≤ i)%nat → upsert_loop fuel i rows table = Some table.
Proof.
  intros Hi. apply Nat.ltb_ge in Hi. destruct fuel; cbn [upsert_loop]; by rewrite Hi.
Qed.

(** Up to 500 rows go in one statement. *)
Lemma upsert_loop_one_batch (rows : list LevelRow) (table : gmap (string * Z) LevelRow) :
  (length rows ≤ 500)%nat →
  upsert_loop (length rows) 0 rows table = Some (upsert rows table).
Proof.
  intros Hlen. destruct rows as [|row rows]; [done|].
  cbn [length upsert_loop]. change (Nat.ltb 0 (S (length rows))) with true. cbn match.
  rewrite upsert_loop_past by (simpl in *; lia).
  by rewrite drop_0, take_ge by (simpl in *; lia).
Qed.

(** A run that carries a key twice among its rows, 500 at most, writes
    none of them. *)
Lemma upsert_loop_refused (rows : list LevelRow) (table : gmap (string * Z) LevelRow) :
  (length rows ≤ 500)%nat → ¬ NoDup (level_key <$> rows) →
  upsert_loop (length rows) 0 rows table = Some table.
Proof.
  intros Hlen Hdup. rewrite upsert_loop_one_batch by done.
  unfold upsert. by rewrite bool_decide_eq_false_2.
Qed.

(** A row of [inventoryToUpsert] is a level of an ok response, its
    quantity as reported. *)
Definition reported (fetch : nat → list Z → HttpResponse (option (list InventoryLevel)))
    (inventoryItemToVariantUuid : gmap Z string) (row : LevelRow) : Prop :=
  ∃ n batch levels level,
    ok (fetch n batch) = true ∧ body (fetch n batch) = Some levels ∧ level ∈ levels
    ∧ inventoryItemToVariantUuid !! il_inventory_item_id level = Some (variant_id row)
    ∧ location_id row = il_location_id level
    ∧ quantity row = available_or_0 level.

(** The row the level loop pushes for a level. *)
Definition row_of_level (variantUuid now : string) (level : InventoryLevel) : LevelRow :=
  {| variant_id := variantUuid; location_id := il_location_id level;
     quantity := available_or_0 level; synced_at := now |}.

Lemma push_levels_elem (uuids : gmap Z string) (now : string) (levels : list InventoryLevel)
    (rows : list LevelRow) (row : LevelRow) :
  row ∈ foldl (push_level uuids now) rows levels →
  row ∈ rows
  ∨ ∃ level, level ∈ levels
      ∧ uuids !! il_inventory_item_id level = Some (variant_id row)
      ∧ location_id row = il_location_id level
      ∧ quantity row = available_or_0 level.
Proof.
  revert rows. induction levels as [|x levels IH]; intros rows Hin; [by left|].
  cbn [foldl] in Hin. apply IH in Hin as [Hin | (level & Hl & Hrest)].
  - unfold push_level in Hin.
    destruct (uuids !! il_inventory_item_id x) as [u|] eqn:Hu; [|by left].
    destruct (String.eqb u ""); [by left|].
    apply elem_of_app in Hin as [Hin | Hin]; [by left|].
    apply list_elem_of_singleton in Hin as ->. right. exists x. simpl.
    split; [left|done].
  - right. exists level. split; [by right|done].
Qed.

(** The sign of [available] is not looked at: a level whose inventory item
    has a variant gets its row. *)
Lemma push_level_any_sign (uuids : gmap Z string) (now : string) (rows : list LevelRow)
    (level : InventoryLevel) (u : string) :
  uuids !! il_inventory_item_id level = Some u → u ≠ "" →
  push_level uuids now rows level = rows ++ [row_of_level u now level].
Proof.
  intros Hu Hne. unfold push_level. rewrite Hu.
  apply String.eqb_neq in Hne. by rewrite Hne.
Qed.

Lemma push_level_grows (uuids : gmap Z string) (now : string) (rows : list LevelRow)
    (level : InventoryLevel) (row : LevelRow) :
  row ∈ rows → row ∈ push_level uuids now rows level.
Proof.
  intros Hin. unfold push_level. destruct (uuids !! _) as [u|]; [|done].
  destruct (String.eqb u ""); [done|]. apply elem_of_app. by left.
Qed.

Lemma push_levels_grow (uuids : gmap Z string) (now : string) (levels : list InventoryLevel)
    (rows : list LevelRow) (row : LevelRow) :
  row ∈ rows → row ∈ foldl (push_level uuids now) rows levels.
Proof.
  revert rows. induction levels as [|x levels IH]; intros rows Hin; [done|].
  cbn [foldl]. by apply IH, push_level_grows.
Qed.

(** Every level of an ok response whose inventory item has a variant gets
    its row. *)
Lemma push_levels_all (uuids : gmap Z string) (now : string) (levels : list InventoryLevel)
    (rows : list LevelRow) (level : InventoryLevel) (u : string) :
  level ∈ levels → uuids !! il_inventory_item_id level = Some u → u ≠ "" →
  row_of_level u now level ∈ foldl (push_level uuids now) rows levels.
Proof.
  revert rows. induction levels as [|x levels IH]; intros rows Hin Hu Hne.
  - by apply elem_of_nil in Hin.
  - cbn [foldl]. apply elem_of_cons in Hin as [<- | Hin]; [|by apply IH].
    apply push_levels_grow. rewrite (push_level_any_sign _ _ _ _ _ Hu Hne).
    apply elem_of_app. right. left.
Qed.

Lemma available_or_0_nonneg (level : InventoryLevel) :
  (∀ q, available level = Some q → 0 ≤ q) → 0 ≤ available_or_0 level.
Proof.
  intros Hq. unfold available_or_0. destruct (available level) as [q|]; [|done].
  destruct (Z.eqb q 0); [done|]. by apply Hq.
Qed.


End Sync.

(** ** The sync phases on concrete answers of the platform *)

Module SyncExamples.
Import Sync.

(** The platform reports -3 units of the inventory item 1 at location 7. *)
Definition negative_source (n : nat) (batch : list Z)
    : HttpResponse (option (list InventoryLevel)) :=
  {| http_status := 200;
     body := Some [ {| il_inventory_item_id := 1; il_location_id := 7;
                       available := Some (-3) |} ] |}.

Definition uuids : gmap Z string := {[ 1 := "variant-1" ]}.

Definition negative_row : LevelRow :=
  {| variant_id := "variant-1"; location_id := 7; quantity := -3;
     synced_at := "2025-01-01T00:00:00.000Z" |}.


(** A stand-in for [parseFloat] on the two decimal strings of the scenario. *)
Definition parseFloat (s : string) : float :=
  if String.eqb s "7.50" then 7.5%float
  else if String.eqb s "12.00" then 12%float
  else 0%float.

Definition too_many_requests : HttpResponse (option (list InventoryItem)) :=
  {| http_status := 429; body := None |}.

Definition two_costs : HttpResponse (option (list InventoryItem)) :=
  {| http_status := 200;
     body := Some [ {| ii_id := 11; ii_cost := Some "7.50" |};
                    {| ii_id := 12; ii_cost := None |} ] |}.

Definition simulated : nat → list Z → HttpResponse (option (list InventoryItem)) :=
  scripted [too_many_requests; too_many_requests; two_costs] too_many_requests.

(** The scenario of the specification: 429, 429, then 200. *)
Example costs_after_two_retries :
  ∃ costs sent,
    fetchInventoryItemCosts parseFloat simulated [11; 12] = Some (costs, sent)
    ∧ inventoryItemToCost costs !! 11 = Some 7.5%float
    ∧ inventoryItemToCost costs !! 12 = Some 0%float
    ∧ itemsWithCost costs = 1%nat ∧ itemsWithoutCost costs = 1%nat
    ∧ sent = [ Send (BatchStarted 1 1 2) Progress;
               Sleep 500; Send (RateLimitRetry 1 3) Warning;
               Sleep 2000; Send (RateLimitRetry 2 3) Warning;
               Sleep 4000;
               Send (CostTotals 1 1) Progress ].
Proof.
  eexists _, _. split; [vm_compute; reflexivity|].
  repeat split; vm_compute; reflexivity.
Qed.

(** A failure that is not a 429 ends the first batch after one request;
    the second batch is fetched all the same. *)
Definition failing_once (n : nat) (batch : list Z) : HttpResponse (option (list InventoryItem)) :=
  if Nat.eqb n 0 then {| http_status := 500; body := None |}
  else {| http_status := 200;
          body := Some ((λ i, {| ii_id := i; ii_cost := Some "12.00" |}) <$> batch) |}.

Example second_batch_after_failure :
  ∃ costs sent,
    fetchInventoryItemCosts parseFloat failing_once (Z.of_nat <$> seq 1 51) = Some (costs, sent)
    ∧ inventoryItemToCost costs !! 1 = None
    ∧ inventoryItemToCost costs !! 51 = Some 12%float
    ∧ sent = [ Send (BatchStarted 1 2 50) Progress;
               Sleep 500; Send (BatchError 1 500) Error;
               Send (BatchStarted 2 2 1) Progress;
               Sleep 500;
               Send (CostTotals 1 0) Progress ].
Proof.
  eexists _, _. split; [vm_compute; reflexivity|].
  repeat split; vm_compute; reflexivity.
Qed.

End SyncExamples.

(** * Stock statistics (src/src/app/api/inventory/stats/route.ts) *)

Module Stats.

(** ** Regular expressions, as far as [sizePattern] needs them *)

Inductive regex :=
| Void
| Eps
(** a literal character *)
| Chr (a : ascii)
(** [\d] *)
| Digit
| Seq (r1 r2 : regex)
| Alt (r1 r2 : regex)
| Star (r : regex).

(** [r+] *)
Definition Plus (r : regex) : regex := Seq r (Star r).

Fixpoint lit (w : list ascii) : regex :=
  match w with
  | [] => Eps
  | a :: w' => Seq (Chr a) (lit w')
  end.

Fixpoint alts (rs : list regex) : regex :=
  match rs with
  | [] => Void
  | r :: rs' => Alt r (alts rs')
  end.

(** [toUpperCase] on one character of the ASCII range; the others are
    left as they are. *)
Definition upper (c : ascii) : ascii :=
  let n := nat_of_ascii c in
  if Nat.leb 97 n && Nat.leb n 122 then ascii_of_nat (n - 32) else c.

Definition is_digit (c : ascii) : bool :=
  let n := nat_of_ascii c in Nat.leb 48 n && Nat.leb n 57.

(** A pattern character against an input character; under the flag [i]
    both are compared through their upper case. *)
Definition chr_eq (ignoreCase : bool) (a c : ascii) : bool :=
  if ignoreCase then Ascii.eqb (upper a) (upper c) else Ascii.eqb a c.

Fixpoint nullable (r : regex) : bool :=
  match r with
  | Void => false
  | Eps => true
  | Chr _ => false
  | Digit => false
  | Seq r1 r2 => nullable r1 && nullable r2
  | Alt r1 r2 => nullable r1 || nullable r2
  | Star _ => true
  end.

(** What is left of [r] once the character [c] has been read. *)
Fixpoint deriv (ignoreCase : bool) (c : ascii) (r : regex) : regex :=
  match r with
  | Void => Void
  | Eps => Void
  | Chr a => if chr_eq ignoreCase a c then Eps else Void
  | Digit => if is_digit c then Eps else Void
  | Seq r1 r2 =>
    if nullable r1
    then Alt (Seq (deriv ignoreCase c r1) r2) (deriv ignoreCase c r2)
    else Seq (deriv ignoreCase c r1) r2
  | Alt r1 r2 => Alt (deriv ignoreCase c r1) (deriv ignoreCase c r2)
  | Star r1 => Seq (deriv ignoreCase c r1) (Star r1)
  end.

Fixpoint matches_all (ignoreCase : bool) (r : regex) (s : list ascii) : bool :=
  match s with
  | [] => nullable r
  | c :: s' => matches_all ignoreCase (deriv ignoreCase c r) s'
  end.

(** A pattern [/^(r)$/] or [/^(r)$/i]: anchored at both ends. *)
Record RegExp := {
  source : regex;
  ignoreCase : bool;
}.

(** [pattern.test(s)] *)
Definition test (pattern : RegExp) (s : string) : bool :=
  matches_all (ignoreCase pattern) (source pattern) (String.list_ascii_of_string s).

(** [String.prototype.toUpperCase], on the ASCII range: the route calls it
    on values [sizePattern] has matched, which hold ASCII letters and
    digits only. *)
Fixpoint toUpperCase (s : string) : string :=
  match s with
  | EmptyString => EmptyString
  | String c s' => String (upper c) (toUpperCase s')
  end.

(** ** The route *)

Definition word (s : string) : regex := lit (String.list_ascii_of_string s).

(** [/^(XXXS|XXS|XS|S|M|L|XL|XXL|2XL|3XL|4XL|5XL|\d+)$/i] *)
Definition sizePattern : RegExp :=
  {| source := alts [ word "XXXS"; word "XXS"; word "XS"; word "S"; word "M"; word "L";
                      word "XL"; word "XXL"; word "2XL"; word "3XL"; word "4XL";
                      word "5XL"; Plus Digit ];
     ignoreCase := true |}.

(** An entry of [stats.bySize] or of [stats.byColor]. *)
Record Group := {
  count : nat;
  stock : Z;
}.

(** [if (!m[key]) { m[key] = { count: 0, stock: 0 }; } m[key].count++;
     m[key].stock += totalQuantity;]
    where [m] is an object literal.  Under a name that [m] has no entry
    for but inherits a property under, [m[key]] is that property, which
    is truthy: no entry is made, and the two counters are set on the
    inherited object, out of [m]. *)
Definition add_to_group (key : string) (totalQuantity : Z) (m : gmap string Group)
    : gmap string Group :=
  match js_read m key with
  | Own g => <[key := {| count := S (count g); stock := stock g + totalQuantity |}]> m
  | Inherited _ => m
  | Undefined => <[key := {| count := 1; stock := 0 + totalQuantity |}]> m
  end.

Record Groups := {
  bySize : gmap string Group;
  byColor : gmap string Group;
}.

(** The body of [for (const option of options)], for an option that has
    passed [filter(Boolean)]. *)
Definition count_option (totalQuantity : Z) (stats : Groups) (option : string) : Groups :=
  if test sizePattern option then
    let sizeKey := toUpperCase option in
    {| bySize := add_to_group sizeKey totalQuantity (bySize stats);
       byColor := byColor stats |}
  else
    let colorKey := option in
    {| bySize := bySize stats;
       byColor := add_to_group colorKey totalQuantity (byColor stats) |}.

(** [const options = [variant.option1, variant.option2, variant.option3].filter(Boolean);
     for (const option of options) { .. }] *)
Definition count_options (option1 option2 option3 : option string) (totalQuantity : Z)
    (stats : Groups) : Groups :=
  foldl (count_option totalQuantity) stats (filter_Boolean [option1; option2; option3]).

(** ** The classification, in the words of the specification *)

Inductive Class :=
| SizeOf (sizeKey : string)
| ColorOf (colorKey : string).

Definition size_names : list string :=
  ["XXXS"; "XXS"; "XS"; "S"; "M"; "L"; "XL"; "XXL"; "2XL"; "3XL"; "4XL"; "5XL"].

Definition all_digits (s : string) : bool := forallb is_digit (String.list_ascii_of_string s).

(** A size: one of the twelve names whatever the case, or a non-empty run
    of digits. *)
Definition is_size (s : string) : bool :=
  existsb (String.eqb (toUpperCase s)) size_names
  || (negb (String.eqb s "") && all_digits s).

(** Where [count_option] has counted [option]. *)
Definition counted_as (totalQuantity : Z) (stats : Groups) (option : string) (c : Class) : Prop :=
  match c with
  | SizeOf k =>
    count_option totalQuantity stats option
    = {| bySize := add_to_group k totalQuantity (bySize stats); byColor := byColor stats |}
  | ColorOf k =>
    count_option totalQuantity stats option
    = {| bySize := bySize stats; byColor := add_to_group k totalQuantity (byColor stats) |}
  end.

(** ** The words a pattern matches *)

Section Language.
Variable ignoreCase : bool.

Inductive matches : regex → list ascii → Prop :=
| MEps : matches Eps []
| MChr (a c : ascii) : chr_eq ignoreCase a c = true → matches (Chr a) [c]
| MDigit (c : ascii) : is_digit c = true → matches Digit [c]
| MSeq (r1 r2 : regex) (s1 s2 : list ascii) :
    matches r1 s1 → matches r2 s2 → matches (Seq r1 r2) (s1 ++ s2)
| MAltL (r1 r2 : regex) (s : list ascii) : matches r1 s → matches (Alt r1 r2) s
| MAltR (r1 r2 : regex) (s : list ascii) : matches r2 s → matches (Alt r1 r2) s
| MStarNil (r : regex) : matches (Star r) []
| MStarApp (r : regex) (s1 s2 : list ascii) :
    matches r s1 → matches (Star r) s2 → matches (Star r) (s1 ++ s2).

Lemma nullable_matches (r : regex) : nullable r = true ↔ matches r [].
Proof.
  induction r as [| | a | | r1 IH1 r2 IH2 | r1 IH1 r2 IH2 | r IH]; simpl.
  - split; [discriminate | inversion 1].
  - split; [constructor | done].
  - split; [discriminate | inversion 1].
  - split; [discriminate | inversion 1].
  - rewrite andb_true_iff, IH1, IH2. split.
    + intros [H1 H2]. change (@nil ascii) with (@nil ascii ++ []). by constructor.
    + inversion 1 as [| | |? ? s1 s2 H1 H2| | | |].
      match goal with E : _ ++ _ = [] |- _ => apply app_eq_nil in E as [-> ->] end.
      done.
  - rewrite orb_true_iff, IH1, IH2. split.
    + intros [H1 | H2]; [by apply MAltL | by apply MAltR].
    + inversion 1; subst; [by left | by right].
  - split; [constructor | done].
Qed.

(** A non-empty word of [r*] starts with a non-empty word of [r]. *)
Lemma matches_star_cons (r : regex) (c : ascii) (s : list ascii) :
  matches (Star r) (c :: s) →
  ∃ s1 s2, s = s1 ++ s2 ∧ matches r (c :: s1) ∧ matches (Star r) s2.
Proof.
  intros Hm. remember (Star r) as r' eqn:Hr. remember (c :: s) as w eqn:Hw.
  revert s Hw. induction Hm as [| | | | | | |r0 s1 s2 H1 _ H2 IH2];
    try discriminate Hr; [discriminate|].
  intros s Hw. injection Hr as ->. destruct s1 as [|c1 s1].
  - simpl in Hw. by apply IH2.
  - simpl in Hw. injection Hw as -> <-. by exists s1, s2.
Qed.

Lemma deriv_matches (c : ascii) (r : regex) (s : list ascii) :
  matches (deriv ignoreCase c r) s ↔ matches r (c :: s).
Proof.
  revert s. induction r as [| | a | | r1 IH1 r2 IH2 | r1 IH1 r2 IH2 | r IH]; intros s; simpl.
  - split; inversion 1.
  - split; inversion 1.
  - destruct (chr_eq ignoreCase a c) eqn:E; split.
    + inversion 1. by constructor.
    + inversion 1. constructor.
    + inversion 1.
    + inversion 1; congruence.
  - destruct (is_digit c) eqn:E; split.
    + inversion 1. by constructor.
    + inversion 1. constructor.
    + inversion 1.
    + inversion 1; congruence.
  - assert (Hseq : matches (Seq (deriv ignoreCase c r1) r2) s
                   ↔ ∃ s1 s2, s = s1 ++ s2 ∧ matches r1 (c :: s1) ∧ matches r2 s2).
    { split.
      - inversion 1 as [| | |? ? s1 s2 H1 H2| | | |]; subst.
        exists s1, s2. by rewrite <- IH1.
      - intros (s1 & s2 & -> & H1 & H2). constructor; [by apply IH1 | done]. }
    assert (Hfull : matches (Seq r1 r2) (c :: s)
                    ↔ (∃ s1 s2, s = s1 ++ s2 ∧ matches r1 (c :: s1) ∧ matches r2 s2)
                      ∨ (matches r1 [] ∧ matches r2 (c :: s))).
    { split.
      - inversion 1 as [| | |? ? s1 s2 H1 H2| | | |].
        match goal with E : _ ++ _ = _ :: _ |- _ => rename E into Heq end.
        destruct s1 as [|c1 s1]; simpl in Heq.
        + right. by subst.
        + injection Heq as -> <-. left. by exists s1, s2.
      - intros [(s1 & s2 & -> & H1 & H2) | [H1 H2]].
        + change (c :: s1 ++ s2) with ((c :: s1) ++ s2). by constructor.
        + change (c :: s) with ([] ++ c :: s). by constructor. }
    rewrite Hfull. destruct (nullable r1) eqn:En.
    + apply nullable_matches in En. split.
      * inversion 1; subst; [left; by apply Hseq | right; split; [done | by apply IH2]].
      * intros [Hl | [_ Hr]]; [apply MAltL; by apply Hseq | apply MAltR; by apply IH2].
    + rewrite Hseq. split; [by left|]. intros [Hl | [Hr _]]; [done|].
      apply nullable_matches in Hr. congruence.
  - split.
    + inversion 1; subst; [apply MAltL; by apply IH1 | apply MAltR; by apply IH2].
    + inversion 1; subst; [apply MAltL; by apply IH1 | apply MAltR; by apply IH2].
  - split.
    + inversion 1 as [| | |? ? s1 s2 H1 H2| | | |]; subst.
      change (c :: s1 ++ s2) with ((c :: s1) ++ s2). constructor; [by apply IH | done].
    + intros Hm. apply matches_star_cons in Hm as (s1 & s2 & -> & H1 & H2).
      constructor; [by apply IH | done].
Qed.

(** The matcher decides the language. *)
Lemma matches_all_spec (r : regex) (s : list ascii) :
  matches_all ignoreCase r s = true ↔ matches r s.
Proof.
  revert r. induction s as [|c s IH]; intros r; simpl.
  - apply nullable_matches.
  - rewrite IH. apply deriv_matches.
Qed.

Lemma matches_lit (w s : list ascii) :
  matches (lit w) s ↔ Forall2 (λ a c, chr_eq ignoreCase a c = true) w s.
Proof.
  revert s. induction w as [|a w IH]; intros s; simpl.
  - split.
    + inversion 1. constructor.
    + inversion 1. constructor.
  - split.
    + inversion 1 as [| | |? ? s1 s2 H1 H2| | | |]; subst.
      inversion H1; subst. simpl. constructor; [done | by apply IH].
    + inversion 1 as [|? c ? s' Hc Hs]; subst.
      change (c :: s') with ([c] ++ s'). constructor; [by constructor | by apply IH].
Qed.

Lemma matches_alts (rs : list regex) (s : list ascii) :
  matches (alts rs) s ↔ ∃ r, r ∈ rs ∧ matches r s.
Proof.
  induction rs as [|r rs IH]; simpl.
  - split; [inversion 1 | intros (r & Hr & _); by apply elem_of_nil in Hr].
  - split.
    + inversion 1 as [| | | |? ? ? Hl|? ? ? Hr| |]; subst.
      * exists r. split; [left | done].
      * apply IH in Hr as (r' & Hr' & Hm). exists r'. split; [by right | done].
    + intros (r' & Hr' & Hm). apply elem_of_cons in Hr' as [-> | Hr'].
      * by apply MAltL.
      * apply MAltR, IH. by exists r'.
Qed.

Lemma matches_star_digits (s : list ascii) :
  matches (Star Digit) s ↔ forallb is_digit s = true.
Proof.
  split.
  - intros Hm. remember (Star Digit) as r eqn:Hr.
    induction Hm as [| | | | | | |r0 s1 s2 H1 _ H2 IH2]; try discriminate; [done|].
    injection Hr as ->. inversion H1; subst. simpl.
    rewrite andb_true_iff. split; [done | by apply IH2].
  - induction s as [|c s IH]; simpl; [constructor|].
    rewrite andb_true_iff. intros [Hc Hs].
    change (c :: s) with ([c] ++ s). constructor; [by constructor | by apply IH].
Qed.

Lemma matches_plus_digits (s : list ascii) :
  matches (Plus Digit) s ↔ s ≠ [] ∧ forallb is_digit s = true.
Proof.
  unfold Plus. split.
  - inversion 1 as [| | |? ? s1 s2 H1 H2| | | |]; subst.
    inversion H1; subst. simpl. split; [done|].
    rewrite andb_true_iff. split; [done | by apply matches_star_digits].
  - intros [Hne Hall]. destruct s as [|c s]; [done|]. simpl in Hall.
    apply andb_true_iff in Hall as [Hc Hs].
    change (c :: s) with ([c] ++ s).
    constructor; [by constructor | by apply matches_star_digits].
Qed.

End Language.

(** ** The classification *)

Lemma list_of_toUpperCase (s : string) :
  String.list_ascii_of_string (toUpperCase s) = upper <$> String.list_ascii_of_string s.
Proof. induction s as [|c s IH]; [done|]. simpl. by rewrite IH. Qed.

Lemma list_ascii_of_string_inj (s1 s2 : string) :
  String.list_ascii_of_string s1 = String.list_ascii_of_string s2 → s1 = s2.
Proof.
  intros Heq. rewrite <- (String.string_of_list_ascii_of_string s1).
  rewrite <- (String.string_of_list_ascii_of_string s2). by rewrite Heq.
Qed.

Lemma Forall2_upper (w l : list ascii) :
  Forall2 (λ a c, chr_eq true a c = true) w l ↔ upper <$> w = upper <$> l.
Proof.
  split.
  - induction 1 as [|a c w l Hac _ IH]; [done|].
    rewrite !fmap_cons, IH. f_equal. by apply Ascii.eqb_eq.
  - revert l. induction w as [|a w IH]; intros [|c l] Heq; try discriminate.
    + constructor.
    + rewrite !fmap_cons in Heq. injection Heq as Hac Hwl.
      constructor; [by apply Ascii.eqb_eq | by apply IH].
Qed.

(** A name written in upper case is matched by the words that are it once
    put in upper case. *)
Lemma matches_name (w s : string) :
  upper <$> String.list_ascii_of_string w = String.list_ascii_of_string w →
  matches true (word w) (String.list_ascii_of_string s) ↔ toUpperCase s = w.
Proof.
  intros Hw. unfold word. rewrite matches_lit, Forall2_upper, Hw, <- list_of_toUpperCase.
  split.
  - intros Heq. symmetry. by apply list_ascii_of_string_inj.
  - by intros ->.
Qed.

Lemma size_names_upper :
  Forall (λ w, upper <$> String.list_ascii_of_string w = String.list_ascii_of_string w)
         size_names.
Proof. repeat constructor. Qed.

Lemma sizePattern_source : source sizePattern = alts ((word <$> size_names) ++ [Plus Digit]).
Proof. reflexivity. Qed.

(** The pattern accepts the sizes of the specification, and nothing else. *)
Lemma test_sizePattern (s : string) : test sizePattern s = is_size s.
Proof.
  apply eq_true_iff_eq. unfold test, is_size.
  rewrite matches_all_spec, sizePattern_source, matches_alts.
  rewrite orb_true_iff, existsb_exists, andb_true_iff, negb_true_iff.
  change (ignoreCase sizePattern) with true. split.
  - intros (r & Hr & Hm). apply elem_of_app in Hr as [Hr | Hr].
    + left. apply list_elem_of_fmap in Hr as (w & -> & Hw). exists w.
      split; [by apply list_elem_of_In|]. apply String.eqb_eq.
      pose proof size_names_upper as Hup. rewrite Forall_forall in Hup.
      by apply (matches_name w s (Hup w Hw)).
    + right. apply list_elem_of_singleton in Hr as ->.
      apply matches_plus_digits in Hm as [Hne Hall]. split; [|done].
      apply String.eqb_neq. intros ->. done.
  - intros [(w & Hw & Heq) | [Hne Hall]].
    + apply list_elem_of_In in Hw. apply String.eqb_eq in Heq.
      exists (word w). split; [apply elem_of_app; left; by apply list_elem_of_fmap_2|].
      pose proof size_names_upper as Hup. rewrite Forall_forall in Hup.
      by apply (matches_name w s (Hup w Hw)).
    + exists (Plus Digit). split; [apply elem_of_app; right; left|].
      apply matches_plus_digits. split; [|done].
      intros Hnil. apply String.eqb_neq in Hne. apply Hne.
      apply list_ascii_of_string_inj. by rewrite Hnil.
Qed.


End Stats.

(** * The price rule page (src/unnamed/part_003) *)

Module PriceRules.

Section Page.
Context {A : Type} `{JsNumber A}.

(** A metafield modifier as the page holds it: [amount] in the form,
    [modifier_amount] on what the API returns. *)
Record Modifier := {
  namespace : string;
  key : string;
  value : string;
  amount : option A;
  modifier_amount : option A;
}.

Record OptionModifier := {
  optionName : string;
  optionValue : string;
  om_amount : option A;
  om_modifier_amount : option A;
}.

Record PriceRule := {
  sku : string;
  base_price : A;
  product_type : option string;
  is_active : bool;
  modifiers : list Modifier;
  (** [null] or absent on old rows: [rule.option_modifiers || []] *)
  option_modifiers : option (list OptionModifier);
}.

(** [x || y || 0] *)
Definition js_or_or0 (x y : option A) : A :=
  js_or0 (match x with
          | Some v => if truthy v then Some v else y
          | None => y
          end).

Definition calculateTotalPrice (rule : PriceRule) : A :=
  let modifiersTotal :=
    foldl (λ sum m, let amount' := js_or_or0 (modifier_amount m) (amount m) in
                    num_add sum amount')
          num_0 (modifiers rule) in
  let optionModifiersTotal :=
    foldl (λ sum m, let amount' := js_or_or0 (om_modifier_amount m) (om_amount m) in
                    num_add sum amount')
          num_0 (default [] (option_modifiers rule)) in
  num_add (num_add (base_price rule) modifiersTotal) optionModifiersTotal.

End Page.

(** ** Amounts that are integers

    The amounts of a rule, given as integers and read by the page through
    [num_of_Z].  The page's additions give the exact total as long as they
    stay in the range where the carrier adds integers exactly (on binary64,
    up to 2^53 in absolute value). *)

Section Exact.
Context {A : Type} `{JsNumber A}.
Variable num_of_Z : Z → A.
Variable bound : Z.

(** The carrier holds the integers of the range as they are: [0] is its
    zero, only [0] is falsy, and a sum in the range is the exact one. *)
Hypothesis of_Z_0 : num_of_Z 0 = num_0.
Hypothesis of_Z_truthy : ∀ z, Z.abs z ≤ bound → truthy (num_of_Z z) = negb (Z.eqb z 0).
Hypothesis of_Z_add : ∀ a b,
  Z.abs a ≤ bound → Z.abs b ≤ bound → Z.abs (a + b) ≤ bound →
  num_add (num_of_Z a) (num_of_Z b) = num_of_Z (a + b).

Definition read_modifier (m : Modifier (A := Z)) : Modifier (A := A) :=
  {| namespace := namespace m; key := key m; value := value m;
     amount := num_of_Z <$> amount m; modifier_amount := num_of_Z <$> modifier_amount m |}.

Definition read_option_modifier (m : OptionModifier (A := Z)) : OptionModifier (A := A) :=
  {| optionName := optionName m; optionValue := optionValue m;
     om_amount := num_of_Z <$> om_amount m;
     om_modifier_amount := num_of_Z <$> om_modifier_amount m |}.

Definition read_rule (rule : PriceRule (A := Z)) : PriceRule (A := A) :=
  {| sku := sku rule; base_price := num_of_Z (base_price rule);
     product_type := product_type rule; is_active := is_active rule;
     modifiers := read_modifier <$> modifiers rule;
     option_modifiers := fmap (M := list) read_option_modifier <$> option_modifiers rule |}.

(** The sum of the integers [f] gives on a list. *)
Fixpoint sum_of {X : Type} (f : X → Z) (l : list X) : Z :=
  match l with
  | [] => 0
  | x :: l' => f x + sum_of f l'
  end.

(** The amount [modifier_amount || amount || 0] stands for, on integers. *)
Definition int_amount (modifier_amount' amount' : option Z) : Z :=
  match modifier_amount' with
  | Some v => if Z.eqb v 0 then default 0 amount' else v
  | None => default 0 amount'
  end.

(** The size of the two amounts a modifier carries. *)
Definition int_size (modifier_amount' amount' : option Z) : Z :=
  Z.abs (default 0 modifier_amount') + Z.abs (default 0 amount').

(** The total of the rule in exact arithmetic: the base price, plus the
    amounts of the metafield modifiers, plus the amounts of the option
    modifiers. *)
Definition exact_total (rule : PriceRule (A := Z)) : Z :=
  base_price rule
  + sum_of (λ m, int_amount (modifier_amount m) (amount m)) (modifiers rule)
  + sum_of (λ m, int_amount (om_modifier_amount m) (om_amount m))
                  (default [] (option_modifiers rule)).

(** The base price and all the amounts of the rule, in absolute value. *)
Definition magnitude (rule : PriceRule (A := Z)) : Z :=
  Z.abs (base_price rule)
  + sum_of (λ m, int_size (modifier_amount m) (amount m)) (modifiers rule)
  + sum_of (λ m, int_size (om_modifier_amount m) (om_amount m))
                  (default [] (option_modifiers rule)).

Lemma int_amount_size (x y : option Z) : Z.abs (int_amount x y) ≤ int_size x y.
Proof.
  unfold int_amount, int_size. destruct x as [v|], y as [u|]; simpl;
    try destruct (Z.eqb_spec v 0); simpl; lia.
Qed.

Lemma int_size_nonneg (x y : option Z) : 0 ≤ int_size x y.
Proof. unfold int_size. lia. Qed.

Lemma js_or_or0_read (x y : option Z) :
  int_size x y ≤ bound →
  js_or_or0 (num_of_Z <$> x) (num_of_Z <$> y) = num_of_Z (int_amount x y).
Proof.
  intros Hsize. unfold int_size in Hsize.
  assert (Hy : js_or0 (num_of_Z <$> y) = num_of_Z (default 0 y)).
  { destruct y as [u|]; simpl in *; [|by rewrite of_Z_0].
    unfold js_or0, js_or. rewrite of_Z_truthy by lia.
    destruct (Z.eqb_spec u 0) as [-> | _]; simpl; [by rewrite of_Z_0|done]. }
  unfold js_or_or0, int_amount. destruct x as [v|]; simpl in *; [|exact Hy].
  rewrite of_Z_truthy by lia. destruct (Z.eqb_spec v 0) as [-> | Hv]; simpl; [exact Hy|].
  unfold js_or0, js_or. rewrite of_Z_truthy by lia.
  destruct (Z.eqb_spec v 0); [done|]. reflexivity.
Qed.

(** Adding up the amounts read from integers, within the range. *)
Lemma foldl_exact {X Y : Type} (read : X → Y) (value' : Y → A) (int_value size : X → Z)
    (l : list X) (acc : Z) :
  (∀ x, 0 ≤ size x ∧ Z.abs (int_value x) ≤ size x) →
  (∀ x, size x ≤ bound → value' (read x) = num_of_Z (int_value x)) →
  Z.abs acc + sum_of size l ≤ bound →
  foldl (λ sum m, num_add sum (value' m)) (num_of_Z acc) (read <$> l)
  = num_of_Z (acc + sum_of int_value l).
Proof.
  intros Hsize Hread. revert acc. induction l as [|x l IH]; intros acc Hbound.
  - simpl. f_equal. lia.
  - cbn [sum_of] in Hbound |- *. rewrite fmap_cons. cbn [foldl].
    destruct (Hsize x) as [H0 Hx].
    assert (Hrest : 0 ≤ sum_of size l).
    { clear -Hsize. induction l as [|y l IH]; simpl; [lia|]. destruct (Hsize y). lia. }
    rewrite Hread by lia. rewrite of_Z_add by lia. rewrite IH by lia. f_equal. lia.
Qed.

Lemma sum_of_nonneg {X : Type} (size : X → Z) (l : list X) :
  (∀ x, 0 ≤ size x) → 0 ≤ sum_of size l.
Proof. intros Hsize. induction l as [|y l IH]; simpl; [lia|]. specialize (Hsize y). lia. Qed.

Lemma sum_of_abs {X : Type} (f size : X → Z) (l : list X) :
  (∀ x, Z.abs (f x) ≤ size x) → Z.abs (sum_of f l) ≤ sum_of size l.
Proof. intros Hf. induction l as [|y l IH]; simpl; [lia|]. specialize (Hf y). lia. Qed.

Lemma sum_of_perm {X : Type} (f : X → Z) (l l' : list X) :
  l ≡ₚ l' → sum_of f l = sum_of f l'.
Proof. induction 1; simpl; lia. Qed.

(** The page computes the exact total. *)
Lemma calculateTotalPrice_exact (rule : PriceRule (A := Z)) :
  magnitude rule ≤ bound →
  calculateTotalPrice (read_rule rule) = num_of_Z (exact_total rule).
Proof.
  unfold magnitude, exact_total, calculateTotalPrice. cbn [read_rule base_price modifiers
    option_modifiers].
  set (ms := modifiers rule). set (os := default [] (option_modifiers rule)).
  assert (Hos : default [] (fmap (M := list) read_option_modifier <$> option_modifiers rule)
                = read_option_modifier <$> os).
  { unfold os. by destruct (option_modifiers rule). }
  rewrite Hos. intros Hbound.
  pose proof (sum_of_nonneg (λ m, int_size (modifier_amount m) (amount m)) ms
                (λ m, int_size_nonneg _ _)) as Hms.
  pose proof (sum_of_nonneg (λ m, int_size (om_modifier_amount m) (om_amount m)) os
                (λ m, int_size_nonneg _ _)) as Hps.
  pose proof (sum_of_abs (λ m, int_amount (modifier_amount m) (amount m))
                (λ m, int_size (modifier_amount m) (amount m)) ms
                (λ m, int_amount_size _ _)) as Hma.
  pose proof (sum_of_abs (λ m, int_amount (om_modifier_amount m) (om_amount m))
                (λ m, int_size (om_modifier_amount m) (om_amount m)) os
                (λ m, int_amount_size _ _)) as Hoa.
  rewrite <- of_Z_0.
  rewrite (foldl_exact read_modifier
             (λ m, js_or_or0 (modifier_amount m) (amount m))
             (λ m, int_amount (modifier_amount m) (amount m))
             (λ m, int_size (modifier_amount m) (amount m)) ms 0);
    [|intros m; split; [apply int_size_nonneg|apply int_amount_size]
     |intros m Hm; by apply js_or_or0_read
     |simpl; lia].
  rewrite (foldl_exact read_option_modifier
             (λ m, js_or_or0 (om_modifier_amount m) (om_amount m))
             (λ m, int_amount (om_modifier_amount m) (om_amount m))
             (λ m, int_size (om_modifier_amount m) (om_amount m)) os 0);
    [|intros m; split; [apply int_size_nonneg|apply int_amount_size]
     |intros m Hm; by apply js_or_or0_read
     |simpl; lia].
  rewrite !Z.add_0_l. rewrite !of_Z_add by lia. reflexivity.
Qed.

(** C9, as amended. The total the page shows for a rule is its base price
    plus the amounts ([modifier_amount || amount || 0]) of all its
    metafield modifiers plus the amounts of all its option modifiers.
    When the amounts are integers and the additions stay in the range
    where the carrier adds integers exactly, the total is the exact sum,
    and a rule with the same base price and the same modifiers in another
    order has the same total. *)
Theorem total_price_order_independent (rule rule' : PriceRule (A := Z)) :
  magnitude rule ≤ bound →
  base_price rule' = base_price rule →
  modifiers rule' ≡ₚ modifiers rule →
  default [] (option_modifiers rule') ≡ₚ default [] (option_modifiers rule) →
  calculateTotalPrice (read_rule rule) = num_of_Z (exact_total rule)
  ∧ exact_total rule' = exact_total rule
  ∧ calculateTotalPrice (read_rule rule') = calculateTotalPrice (read_rule rule).
Proof.
  intros Hbound Hbase Hmods Hopts.
  assert (Htotal : exact_total rule' = exact_total rule).
  { unfold exact_total. rewrite Hbase.
    rewrite (sum_of_perm _ _ _ Hmods).
    by rewrite (sum_of_perm _ _ _ Hopts). }
  assert (Hbound' : magnitude rule' ≤ bound).
  { unfold magnitude in *. rewrite Hbase.
    rewrite (sum_of_perm _ _ _ Hmods).
    by rewrite (sum_of_perm _ _ _ Hopts). }
  split; [by apply calculateTotalPrice_exact|]. split; [exact Htotal|].
  by rewrite !calculateTotalPrice_exact, Htotal.
Qed.

End Exact.

(** ** On binary64 *)

(** The binary64 number an integer is read as. *)
Definition float_of_Z (z : Z) : float :=
  if Z.ltb z 0 then PrimFloat.opp (PrimFloat.of_uint63 (Uint63.of_Z (- z)))
  else PrimFloat.of_uint63 (Uint63.of_Z z).

Fixpoint upto (n : nat) (from : Z) : list Z :=
  match n with
  | O => []
  | S n' => from :: upto n' (from + 1)
  end.

(** The integers from [-bound] to [bound]. *)
Definition range (bound : Z) : list Z := upto (Z.to_nat (2 * bound + 1)) (- bound).

Lemma elem_of_upto (n : nat) (from z : Z) :
  from ≤ z < from + Z.of_nat n → z ∈ upto n from.
Proof.
  revert from. induction n as [|n IH]; intros from Hz; [lia|].
  cbn [upto]. destruct (decide (z = from)) as [-> | Hne]; [left|].
  right. apply IH. lia.
Qed.

Lemma elem_of_range (bound z : Z) : Z.abs z ≤ bound → z ∈ range bound.
Proof. intros Hz. apply elem_of_upto. lia. Qed.

(** The check, by running the additions, that binary64 adds the integers
    of the range as they are, and that only [0] is falsy among them. *)
Definition adds_exactly_upto (bound : Z) : bool :=
  let r := range bound in
  forallb (λ a,
    Bool.eqb (truthy (float_of_Z a)) (negb (Z.eqb a 0))
    && forallb (λ b,
         if Z.leb (Z.abs (a + b)) bound
         then PrimFloat.Leibniz.eqb (num_add (float_of_Z a) (float_of_Z b))
                                    (float_of_Z (a + b))
         else true) r) r.

Lemma adds_exactly_upto_spec (bound : Z) :
  adds_exactly_upto bound = true →
  (∀ z, Z.abs z ≤ bound → truthy (float_of_Z z) = negb (Z.eqb z 0))
  ∧ (∀ a b, Z.abs a ≤ bound → Z.abs b ≤ bound → Z.abs (a + b) ≤ bound →
            num_add (float_of_Z a) (float_of_Z b) = float_of_Z (a + b)).
Proof.
  unfold adds_exactly_upto. cbv zeta. intros Hall.
  rewrite forallb_forall in Hall. split.
  - intros z Hz. specialize (Hall z).
    rewrite <- list_elem_of_In in Hall. specialize (Hall (elem_of_range _ _ Hz)).
    apply andb_true_iff in Hall as [Ht _]. by apply Bool.eqb_prop in Ht.
  - intros a b Ha Hb Hab. specialize (Hall a).
    rewrite <- list_elem_of_In in Hall. specialize (Hall (elem_of_range _ _ Ha)).
    apply andb_true_iff in Hall as [_ Hadd]. rewrite forallb_forall in Hadd.
    specialize (Hadd b). rewrite <- list_elem_of_In in Hadd.
    specialize (Hadd (elem_of_range _ _ Hb)).
    apply Z.leb_le in Hab. rewrite Hab in Hadd.
    by apply FloatAxioms.Leibniz.eqb_spec.
Qed.

Lemma float_of_Z_0 : float_of_Z 0 = num_0.
Proof. vm_compute. reflexivity. Qed.

(** Binary64 adds the integers up to 500 as they are. *)
Lemma binary64_adds_exactly_upto_500 : adds_exactly_upto 500 = true.
Proof. vm_compute. reflexivity. Qed.

Definition a_modifier {A : Type} (value' : string) (x : A) : Modifier :=
  {| namespace := "custom"; key := "finish"; value := value';
     amount := None; modifier_amount := Some x |}.

Definition a_rule {A : Type} (base : A) (amounts : list A) : PriceRule :=
  {| sku := "TS"; base_price := base; product_type := Some "T-shirt"; is_active := true;
     modifiers := a_modifier "matte" <$> amounts; option_modifiers := Some [] |}.

Lemma total_price_order_independent_witness :
  calculateTotalPrice (read_rule float_of_Z (a_rule 10 [1; 2; 3]))
  = float_of_Z (exact_total (a_rule 10 [1; 2; 3]))
  ∧ exact_total (a_rule 10 [3; 2; 1]) = exact_total (a_rule 10 [1; 2; 3])
  ∧ calculateTotalPrice (read_rule float_of_Z (a_rule 10 [3; 2; 1]))
    = calculateTotalPrice (read_rule float_of_Z (a_rule 10 [1; 2; 3])).
Proof.
  apply (total_price_order_independent float_of_Z 500 float_of_Z_0
           (proj1 (adds_exactly_upto_spec 500 binary64_adds_exactly_upto_500))
           (proj2 (adds_exactly_upto_spec 500 binary64_adds_exactly_upto_500))
           (a_rule 10 [1; 2; 3]) (a_rule 10 [3; 2; 1])).
  - vm_compute. discriminate.
  - reflexivity.
  - apply (Permutation_rev [a_modifier "matte" 3; a_modifier "matte" 2;
                            a_modifier "matte" 1]).
  - reflexivity.
Defined.

Example total_of_16 :
  calculateTotalPrice (read_rule float_of_Z (a_rule 10 [1; 2; 3])) = 16%float.
Proof. vm_compute. reflexivity. Qed.

(** ** The modifiers that match a variant

    Modelled from the spec: the function that applies a rule to a variant
    is not among the sources.  The specification gives the price of a
    variant as the base price plus the amounts of the modifiers that match
    it: a metafield modifier matches when the variant carries that
    namespace and key with exactly that value, an option modifier when
    one of the variant's option slots, three at most, equals its value. *)

Record Variant := {
  variant_metafields : gmap (string * string) string;
  variant_options : list string;
}.

Definition matches_metafield {A : Type} (v : Variant) (m : Modifier (A := A)) : bool :=
  bool_decide (variant_metafields v !! (namespace m, key m) = Some (value m)).

Definition matches_option {A : Type} (v : Variant) (m : OptionModifier (A := A)) : bool :=
  bool_decide (optionValue m ∈ variant_options v).

(** [base_price + Σ matching metafield-modifier amounts
                + Σ matching option-modifier amounts], on binary64. *)
Definition matching_total (rule : PriceRule (A := float)) (v : Variant) : float :=
  calculateTotalPrice
    {| sku := sku rule; base_price := base_price rule; product_type := product_type rule;
       is_active := is_active rule;
       modifiers := filter (λ m, matches_metafield v m = true) (modifiers rule);
       option_modifiers :=
         Some (filter (λ m, matches_option v m = true)
                      (default [] (option_modifiers rule))) |}.

Local Open Scope float_scope.

(** The binary64 numbers that the literals 0.1, 0.2 and 0.3 denote. *)
Definition js_0_1 : float := 0x1.999999999999ap-4.
Definition js_0_2 : float := 0x1.999999999999ap-3.
Definition js_0_3 : float := 0x1.3333333333333p-2.

(** Two finishes of one metafield: no variant has both. *)
Definition two_finishes : PriceRule (A := float) :=
  {| sku := "TS"; base_price := 10; product_type := Some "T-shirt"; is_active := true;
     modifiers := [a_modifier "matte" 1; a_modifier "glossy" 2];
     option_modifiers := Some [] |}.

(** C9, where the code departs from it.  On binary64, the amounts 0.1, 0.2
    and 0.3 add up to 0.6000000000000001 and, in the reverse order, to 0.6:
    the total changes with the order of the modifiers.  And the page adds
    the amounts of all the modifiers of the rule, not of those that match
    a variant: with the two finishes at 1 and 2 on a base price of 10 it
    shows 13, which is the price of no variant. *)
Lemma total_price_depends_on_order :
  modifiers (a_rule 0 [js_0_3; js_0_2; js_0_1]) ≡ₚ modifiers (a_rule 0 [js_0_1; js_0_2; js_0_3])
  ∧ calculateTotalPrice (a_rule 0 [js_0_1; js_0_2; js_0_3]) = 0x1.3333333333334p-1
  ∧ calculateTotalPrice (a_rule 0 [js_0_3; js_0_2; js_0_1]) = 0x1.3333333333333p-1
  ∧ calculateTotalPrice (a_rule 0 [js_0_3; js_0_2; js_0_1])
    ≠ calculateTotalPrice (a_rule 0 [js_0_1; js_0_2; js_0_3])
  ∧ calculateTotalPrice two_finishes = 13
  ∧ ∀ v, matching_total two_finishes v = 10 ∨ matching_total two_finishes v = 11
         ∨ matching_total two_finishes v = 12.
Proof.
  split; [apply (Permutation_rev [a_modifier "matte" js_0_3; a_modifier "matte" js_0_2;
                                  a_modifier "matte" js_0_1])|].
  split; [vm_compute; reflexivity|]. split; [vm_compute; reflexivity|].
  split; [vm_compute; intros Heq; discriminate Heq|].
  split; [vm_compute; reflexivity|].
  intros v. unfold matching_total, two_finishes, matches_metafield.
  cbn [modifiers option_modifiers default namespace key value a_modifier].
  rewrite !filter_cons, !filter_nil.
  destruct (decide _) as [Hmatte | Hmatte], (decide _) as [Hglossy | Hglossy].
  - apply bool_decide_eq_true_1 in Hmatte, Hglossy. cbn in Hmatte, Hglossy. congruence.
  - right. left. vm_compute. reflexivity.
  - right. right. vm_compute. reflexivity.
  - left. vm_compute. reflexivity.
Qed.

End PriceRules.
(** * More on the order-items route (src/unnamed/part_001) *)

Module OrderItemsFacts.
Import OrderItems.

Section Facts.
Context {A : Type} `{JsNumber A}.
Variable fetchVariantMetafields :
  string → list (option string) → list MetafieldConfig → gmap string (gmap string string).
Variable gen_id : nat → string.
Variable default_is_validated : bool.
Variable default_is_printed : bool.
Variable absent_unit_price absent_line_total : A.

Local Abbreviation handle := (OrderItems.handle (A := A) fetchVariantMetafields gen_id
                           default_is_validated default_is_printed
                           absent_unit_price absent_line_total).

Lemma refresh_loop_keeps (w : World) (sm : gmap string (option string))
    (mm : gmap string (gmap string string)) (l : list (OrderItem (A := A)))
    (acc : Store * nat) :
  let out := foldl (refresh_item w sm mm) acc l in
  supplier_orders out.1 = supplier_orders acc.1
  ∧ product_variants out.1 = product_variants acc.1
  ∧ metafield_config out.1 = metafield_config acc.1
  ∧ (λ it, (item_id it, order_id it, variant_id it, quantity it, unit_price it,
            line_total it, is_validated it, is_printed it))
      <$> supplier_order_items out.1
    = (λ it, (item_id it, order_id it, variant_id it, quantity it, unit_price it,
              line_total it, is_validated it, is_printed it))
      <$> supplier_order_items acc.1.
Proof.
  revert acc. induction l as [|item l IH]; intros acc; [done|].
  cbn [foldl]. cbv zeta in IH. destruct (IH (refresh_item w sm mm acc item))
    as (-> & -> & -> & ->).
  unfold refresh_item. destruct (negb _); [done|]. simpl.
  split; [done|]. split; [done|]. split; [done|].
  rewrite <- list_fmap_compose. apply list_fmap_ext. intros i r _. simpl.
  by case_bool_decide.
Qed.

Lemma handle_error_store (w : World) (orderId : string) (req : Request) (st st' : Store)
    (http_status : Z) (error : string) :
  handle w orderId req st = (JsonError http_status error, st') → st' = st.
Proof.
  intros Hrun. destruct req as [body | body | itemId shopId]; simpl in Hrun.
  - unfold POST in Hrun.
    destruct (post_shopId body) as [shopId|]; [|by simplify_eq].
    destruct (post_items body) as [items|]; [|by simplify_eq].
    destruct (_ || _); [by simplify_eq|].
    destruct (db_error w); [by simplify_eq|]. simpl in Hrun. by simplify_eq.
  - unfold PUT in Hrun. destruct (put_action body) as [[]|].
    + unfold PUT_recalculate_prices in Hrun.
      destruct (put_shopId body) as [shopId|]; [|by simplify_eq].
      destruct (_ || _); [by simplify_eq|].
      case_bool_decide; by simplify_eq.
    + unfold PUT_refresh_metafields in Hrun.
      destruct (put_shopId body) as [shopId|]; [|by simplify_eq].
      destruct (_ || _); [by simplify_eq|].
      case_bool_decide; [by simplify_eq|].
      case_bool_decide; [by simplify_eq|].
      destruct (foldl _ _ _) as [st1 n]. by simplify_eq.
    + unfold PUT_update_item in Hrun.
      destruct (put_shopId body) as [shopId|]; [|by simplify_eq].
      destruct (put_itemId body) as [itemId|]; [|by simplify_eq].
      destruct (_ || _); [by simplify_eq|].
      destruct (db_error w); [by simplify_eq|].
      destruct (select_item itemId st); by simplify_eq.
  - unfold DELETE in Hrun.
    destruct shopId as [shopId|]; [|by simplify_eq].
    destruct itemId as [itemId|]; [|by simplify_eq].
    destruct (_ || _); [by simplify_eq|].
    destruct (db_error w); by simplify_eq.
Qed.


(** A request answered with an error, whatever the error (a missing
    field, a statement the store refuses, an item that does not exist),
    has written nothing. *)
Theorem error_leaves_store (w : World) (orderId : string) (req : Request) (st st' : Store)
    (http_status : Z) (error : string) :
  handle w orderId req st = (JsonError http_status error, st') → st' = st.
Proof. apply handle_error_store. Qed.

(** What a request may do to the rows of supplier_orders. *)
Definition order_row_kept (orderId : string) (req : Request (A := A))
    (o o' : SupplierOrder (A := A)) : Prop :=
  so_id o' = so_id o ∧ so_shop_id o' = so_shop_id o
  ∧ balance_adjustment o' = balance_adjustment o
  ∧ (so_id o ≠ orderId → o' = o)
  ∧ (request_shopId req ≠ Some (so_shop_id o) →
     subtotal o' = subtotal o ∧ total_ht o' = total_ht o ∧ total_ttc o' = total_ttc o)
  ∧ (status o' = status o
     ∨ (status o = "draft" ∧ status o' = "in_progress"
        ∧ ∃ body, req = ReqPOST body)).

Lemma updateOrderTotals_rows (w : World) (orderId shopId : string) (st : Store (A := A)) :
  Forall2 (λ o o', so_id o' = so_id o ∧ so_shop_id o' = so_shop_id o
                   ∧ balance_adjustment o' = balance_adjustment o
                   ∧ status o' = status o
                   ∧ (so_id o ≠ orderId → o' = o)
                   ∧ (so_shop_id o ≠ shopId → o' = o))
          (supplier_orders st) (supplier_orders (updateOrderTotals w orderId shopId st)).
Proof.
  unfold updateOrderTotals, set_orders. cbn [supplier_orders].
  apply Forall2_fmap_r, Forall_Forall2_diag, Forall_forall. intros o _. unfold compose; cbn beta.
  case_bool_decide as Hc; simpl; [|done].
  destruct Hc as [Hid Hshop]. repeat split; try done; intros Hne; by destruct Hne.
Qed.

Lemma mark_in_progress_rows (w : World) (orderId : string) (st : Store (A := A)) :
  Forall2 (λ o o', so_id o' = so_id o ∧ so_shop_id o' = so_shop_id o
                   ∧ balance_adjustment o' = balance_adjustment o
                   ∧ subtotal o' = subtotal o ∧ total_ht o' = total_ht o
                   ∧ total_ttc o' = total_ttc o
                   ∧ (so_id o ≠ orderId → o' = o)
                   ∧ (status o' = status o
                      ∨ (status o = "draft" ∧ status o' = "in_progress")))
          (supplier_orders st) (supplier_orders (mark_in_progress w orderId st)).
Proof.
  unfold mark_in_progress, set_orders. cbn [supplier_orders].
  apply Forall2_fmap_r, Forall_Forall2_diag, Forall_forall. intros o _. unfold compose; cbn beta.
  case_bool_decide as Hc; simpl.
  - destruct Hc as [Hid Hst]. repeat split; try done; try (by right); intros Hne; by destruct Hne.
  - repeat split; try done. by left.
Qed.

(** Whatever the request on the order [orderId], answered or refused, the
    rows of supplier_orders stay in place with their id, shop and
    balance_adjustment; the rows of other orders are not touched; the
    totals change only on rows of the shop the request names; and the
    status changes only when an add finds the order in draft. *)
Theorem requests_keep_orders (w : World) (orderId : string) (req : Request) (st : Store) :
  Forall2 (order_row_kept orderId req)
          (supplier_orders st) (supplier_orders (handle w orderId req st).2).
Proof.
  destruct (handle w orderId req st) as [resp st'] eqn:Hrun. cbn [snd].
  assert (Hsame : ∀ l : list (SupplierOrder (A := A)),
            Forall2 (order_row_kept orderId req) l l).
  { intros l. apply Forall_Forall2_diag, Forall_forall. intros o _.
    unfold order_row_kept. repeat split; try done. by left. }
  assert (Htot : ∀ shopId st1 st2,
            request_shopId req = Some shopId →
            supplier_orders st1 = supplier_orders st →
            st2 = updateOrderTotals w orderId shopId st1 →
            Forall2 (order_row_kept orderId req) (supplier_orders st) (supplier_orders st2)).
  { intros shopId st1 st2 Hshop Hord ->. rewrite <- Hord.
    eapply Forall2_impl; [apply updateOrderTotals_rows|].
    intros o o' (Hid & Hs & Hb & Hst & Hother & Hshopne). unfold order_row_kept.
    split; [done|]. split; [done|]. split; [done|]. split; [done|]. split; [|by left].
    intros Hne. rewrite Hshopne; [done|]. intros Heq. apply Hne. by rewrite Hshop, Heq. }
  destruct req as [body | body | itemId shopId]; simpl in Hrun.
  - unfold POST in Hrun.
    destruct (post_shopId body) as [shopId|] eqn:Hshop; [|simplify_eq; apply Hsame].
    destruct (post_items body) as [items|]; [|simplify_eq; apply Hsame].
    destruct (_ || _); [simplify_eq; apply Hsame|].
    destruct (db_error w); [simplify_eq; apply Hsame|].
    simpl in Hrun. simplify_eq.
    set (st1 := {| supplier_order_items := _ |}).
    pose proof (Htot shopId st1 _ Hshop eq_refl eq_refl) as H1.
    pose proof (mark_in_progress_rows w orderId (updateOrderTotals w orderId shopId st1)) as H2.
    eapply Forall2_trans; [|exact H1|exact H2]. clear H1 H2.
    intros o o1 o2 (Hid1 & Hs1 & Hb1 & Hother1 & Htot1 & Hst1)
      (Hid & Hs & Hb & Hsub & Hht & Httc & Hother & Hst).
    unfold order_row_kept. split; [congruence|]. split; [congruence|].
    split; [congruence|]. split.
    { intros Hne. rewrite <- (Hother1 Hne). apply Hother. by rewrite Hid1. }
    split.
    { intros Hne. destruct (Htot1 Hne) as (? & ? & ?). split; [congruence|].
      split; congruence. }
    destruct Hst1 as [Hst1 | (Hd1 & Hp1 & _)].
    + destruct Hst as [Hst | [Hd Hp]]; [left; congruence|].
      right. split; [congruence|]. split; [done|]. by exists body.
    + right. split; [done|]. split; [|by exists body].
      destruct Hst as [Hst | [Hd Hp]]; [congruence|done].
  - unfold PUT in Hrun. destruct (put_action body) as [[]|].
    + unfold PUT_recalculate_prices in Hrun.
      destruct (put_shopId body) as [shopId|] eqn:Hshop; [|simplify_eq; apply Hsame].
      destruct (_ || _); [simplify_eq; apply Hsame|].
      case_bool_decide; [simplify_eq; apply Hsame|]. simplify_eq.
      eapply Htot; [done| |done]. apply recalculate_loop_orders.
    + unfold PUT_refresh_metafields in Hrun.
      destruct (put_shopId body) as [shopId|] eqn:Hshop; [|simplify_eq; apply Hsame].
      destruct (_ || _); [simplify_eq; apply Hsame|].
      case_bool_decide; [simplify_eq; apply Hsame|].
      case_bool_decide; [simplify_eq; apply Hsame|].
      match type of Hrun with
      | context [foldl (refresh_item ?w ?sm ?mm) ?acc ?l] =>
        pose proof (refresh_loop_keeps w sm mm l acc) as Hk;
        destruct (foldl (refresh_item w sm mm) acc l) as [st1 n]
      end.
      simplify_eq. cbv zeta in Hk. simpl in Hk. destruct Hk as (-> & _). apply Hsame.
    + unfold PUT_update_item in Hrun.
      destruct (put_shopId body) as [shopId|] eqn:Hshop; [|simplify_eq; apply Hsame].
      destruct (put_itemId body) as [itemId|]; [|simplify_eq; apply Hsame].
      destruct (_ || _); [simplify_eq; apply Hsame|].
      destruct (db_error w); [simplify_eq; apply Hsame|].
      destruct (select_item itemId st); [|simplify_eq; apply Hsame].
      case_bool_decide; simplify_eq; [|apply Hsame].
      eapply Htot; [done| |done]. apply db_update_items_orders.
  - unfold DELETE in Hrun.
    destruct shopId as [shop|]; [|simplify_eq; apply Hsame].
    destruct itemId as [itemId|]; [|simplify_eq; apply Hsame].
    destruct (_ || _); [simplify_eq; apply Hsame|].
    destruct (db_error w); [simplify_eq; apply Hsame|]. simplify_eq.
    eapply Htot; [done| |done]. done.
Qed.


(** The requests that do not run updateOrderTotals leave supplier_orders
    as it was: a refused request, a bulk action on an order without items,
    a refresh of the metafields, an update that sets [is_printed] only. *)
Theorem orders_written_by_mutations_only (w : World) (orderId : string) (req : Request)
    (st st' : Store) (resp : Response) :
  handle w orderId req st = (resp, st') →
  ¬ recomputed req resp →
  supplier_orders st' = supplier_orders st.
Proof.
  intros Hrun Hnot. destruct req as [body | body | itemId shopId]; simpl in Hrun.
  - unfold POST in Hrun.
    destruct (post_shopId body) as [shopId|]; [|by simplify_eq].
    destruct (post_items body) as [items|]; [|by simplify_eq].
    destruct (_ || _); [by simplify_eq|].
    destruct (db_error w); [by simplify_eq|]. simpl in Hrun. by simplify_eq.
  - unfold PUT in Hrun. destruct (put_action body) as [[]|].
    + unfold PUT_recalculate_prices in Hrun.
      destruct (put_shopId body) as [shopId|]; [|by simplify_eq].
      destruct (_ || _); [by simplify_eq|].
      case_bool_decide; by simplify_eq.
    + unfold PUT_refresh_metafields in Hrun.
      destruct (put_shopId body) as [shopId|]; [|by simplify_eq].
      destruct (_ || _); [by simplify_eq|].
      case_bool_decide; [by simplify_eq|].
      case_bool_decide; [by simplify_eq|].
      match type of Hrun with
      | context [foldl (refresh_item ?w ?sm ?mm) ?acc ?l] =>
        pose proof (refresh_loop_keeps w sm mm l acc) as Hk;
        destruct (foldl (refresh_item w sm mm) acc l) as [st1 n]
      end.
      simplify_eq. cbv zeta in Hk. simpl in Hk. by destruct Hk as (-> & _).
    + unfold PUT_update_item in Hrun.
      destruct (put_shopId body) as [shopId|]; [|by simplify_eq].
      destruct (put_itemId body) as [itemId|]; [|by simplify_eq].
      destruct (_ || _); [by simplify_eq|].
      destruct (db_error w); [by simplify_eq|].
      destruct (select_item itemId st); [|by simplify_eq].
      case_bool_decide as Hset; by simplify_eq.
  - unfold DELETE in Hrun.
    destruct shopId as [shop|]; [|by simplify_eq].
    destruct itemId as [itemId|]; [|by simplify_eq].
    destruct (_ || _); [by simplify_eq|].
    destruct (db_error w); by simplify_eq.
Qed.

(** *** updateOrderTotals, run again *)

Lemma filter_order_fmap (g : SupplierOrder (A := A) → SupplierOrder (A := A))
    (orderId : string) (orders : list SupplierOrder) :
  (∀ o, so_id (g o) = so_id o) →
  filter (λ o, so_id o = orderId) (g <$> orders)
  = g <$> filter (λ o, so_id o = orderId) orders.
Proof.
  intros Hg. induction orders as [|o orders IH]; [done|].
  rewrite fmap_cons, !filter_cons, Hg. case_decide; [rewrite fmap_cons|]; by rewrite IH.
Qed.

Lemma single_fmap {X Y : Type} (g : X → Y) (l : list X) : single (g <$> l) = g <$> single l.
Proof. by destruct l as [|x [|y l]]. Qed.

(** The totals are a function of the items and of [balance_adjustment],
    which updateOrderTotals does not write: a second run at the same
    instant rewrites what the first one wrote. *)
Theorem updateOrderTotals_again (w : World) (orderId shopId : string) (st : Store) :
  updateOrderTotals w orderId shopId (updateOrderTotals w orderId shopId st)
  = updateOrderTotals w orderId shopId st.
Proof.
  set (sub := js_or0 (Some (validated_sum (select_order_items orderId st)))).
  set (bal := js_or0 (balance_adjustment <$>
                single (filter (λ o, so_id o = orderId) (supplier_orders st)))).
  set (g := λ o : SupplierOrder,
         if bool_decide (so_id o = orderId ∧ so_shop_id o = shopId)
         then with_totals sub (num_add sub bal) (num_mul (num_add sub bal) num_1_2) (now w) o
         else o).
  assert (Hst1 : updateOrderTotals w orderId shopId st
                 = set_orders (g <$> supplier_orders st) st) by reflexivity.
  rewrite Hst1. unfold updateOrderTotals, select_order_items, set_orders.
  cbn [supplier_orders supplier_order_items product_variants metafield_config next_id].
  fold (select_order_items orderId st). fold sub.
  rewrite filter_order_fmap by (intros o; unfold g; by case_bool_decide).
  rewrite single_fmap, <- option_fmap_compose.
  rewrite (option_fmap_ext (balance_adjustment ∘ g) balance_adjustment)
    by (intros o; unfold g; simpl; by case_bool_decide).
  fold bal. f_equal.
  rewrite <- list_fmap_compose. apply list_fmap_ext. intros i o _. simpl.
  unfold g. destruct (decide (so_id o = orderId ∧ so_shop_id o = shopId)) as [Hc | Hc].
  - rewrite (bool_decide_eq_true_2 _ Hc). simpl.
    by rewrite (bool_decide_eq_true_2 _ Hc).
  - by rewrite !(bool_decide_eq_false_2 _ Hc).
Qed.

(** *** Updating one item *)

(** The update of one item: the answer is the row as it now stands in the
    table, with the flags the request set and their dates ([now] when the
    flag is set, null when it is cleared), the flags the request did not
    mention left as they were; no other row of the table is written. *)
Theorem update_item_stamps (w : World) (orderId itemId : string) (body : PutBody)
    (st st' : Store) (item' : OrderItem) :
  put_action body = None → put_itemId body = Some itemId →
  handle w orderId (ReqPUT body) st = (JsonItem item', st') →
  ∃ item, select_item itemId st = Some item
    ∧ item_id item = itemId ∧ item_id item' = itemId ∧ order_id item' = order_id item
    ∧ item' ∈ supplier_order_items st'
    ∧ is_validated item' = default (is_validated item) (put_is_validated body)
    ∧ validated_at item'
      = match put_is_validated body with
        | Some true => Some (now w)
        | Some false => None
        | None => validated_at item
        end
    ∧ is_printed item' = default (is_printed item) (put_is_printed body)
    ∧ printed_at item'
      = match put_is_printed body with
        | Some true => Some (now w)
        | Some false => None
        | None => printed_at item
        end
    ∧ metafields item' = metafields item
    ∧ filter (λ it, item_id it ≠ itemId) (supplier_order_items st')
      = filter (λ it, item_id it ≠ itemId) (supplier_order_items st).
Proof.
  intros Hact Hitem Hrun. simpl in Hrun. unfold PUT in Hrun. rewrite Hact in Hrun.
  unfold PUT_update_item in Hrun. rewrite Hitem in Hrun.
  destruct (put_shopId body) as [shopId|]; [|by simplify_eq].
  destruct (_ || _); [by simplify_eq|].
  destruct (db_error w); [by simplify_eq|].
  destruct (select_item itemId st) as [item|] eqn:Hsel; [|by simplify_eq].
  assert (Hin : item ∈ supplier_order_items st ∧ item_id item = itemId).
  { unfold select_item in Hsel.
    destruct (filter _ _) as [|x [|y l]] eqn:Hf; simpl in Hsel; simplify_eq.
    assert (Hx : item ∈ filter (λ it, item_id it = itemId) (supplier_order_items st))
      by (rewrite Hf; left).
    by apply list_elem_of_filter in Hx as [? ?]. }
  destruct Hin as [Hin Hid]. subst itemId.
  assert (Hrows : supplier_order_items st'
                  = (λ it, if bool_decide (item_id it = item_id item)
                           then apply_update (build_updateData w (item_id item) body st) it
                           else it) <$> supplier_order_items st).
  { case_bool_decide; simplify_eq; [rewrite updateOrderTotals_items|]; done. }
  assert (item' = apply_update (build_updateData w (item_id item) body st) item) as ->.
  { case_bool_decide; by simplify_eq. }
  exists item. split; [done|]. split; [done|]. split; [done|]. split; [done|].
  split.
  { rewrite Hrows. apply list_elem_of_fmap. exists item. split; [|done].
    by rewrite bool_decide_eq_true_2. }
  unfold apply_update, build_updateData; simpl.
  split; [done|]. split; [by destruct (put_is_validated body) as [[]|]|].
  split; [done|]. split; [by destruct (put_is_printed body) as [[]|]|].
  split; [done|].
  rewrite Hrows. generalize (supplier_order_items st) as rows.
  induction rows as [|x rows IH]; [done|].
  rewrite fmap_cons, !filter_cons.
  destruct (decide (item_id x = item_id item)) as [Hx | Hx].
  - rewrite (bool_decide_eq_true_2 _ Hx). simpl.
    rewrite !decide_False by (intros Hne; by apply Hne). apply IH.
  - rewrite (bool_decide_eq_false_2 _ Hx).
    rewrite !decide_True by done. by rewrite IH.
Qed.

(** *** Adding and deleting *)

Local Abbreviation POST := (OrderItems.POST (A := A) fetchVariantMetafields gen_id
                             default_is_validated default_is_printed
                             absent_unit_price absent_line_total).

(** The rows an entry stands for, in the words of the property: one when
    the quantity is absent or 0, none when it is negative, the quantity
    otherwise, rounded up when it is not an integer. *)
Definition units_asked (item : ItemRequest) : nat :=
  match req_quantity item with
  | None => 1
  | Some q =>
    if Qeq_bool q 0 then 1
    else if Qle_bool q 0 then 0
    else Z.to_nat (Qceiling q)
  end.

Lemma requested_units_asked (item : ItemRequest) : requested_units item = units_asked item.
Proof.
  rewrite requested_units_ceiling. unfold units_asked, quantity_or_1.
  destruct (req_quantity item) as [q|]; [|done].
  destruct (Qeq_bool q 0); [done|].
  destruct (Qle_bool q 0) eqn:Hneg; [|done].
  apply Qle_bool_iff, Qceiling_resp_le in Hneg. change (Qceiling 0) with 0 in Hneg. lia.
Qed.

(** A variant id that is not a name every object inherits. *)
Definition own_name (variantId : option string) : Prop :=
  ∀ X, variantId = Some X → inherited X = false.

Lemma filter_all {X : Type} (P : X → Prop) `{∀ x, Decision (P x)} (l : list X) :
  Forall P l → filter P l = l.
Proof.
  induction 1 as [|x l Hx _ IH]; [done|]. by rewrite filter_cons_True, IH.
Qed.

Lemma POST_rows (w : World) (orderId shopId : string)
    (items : list ItemRequest) (st : Store) :
  shopId ≠ "" → orderId ≠ "" → db_error w = None →
  ∃ inserted st',
    POST w orderId {| post_shopId := Some shopId; post_items := Some items |} st
    = (JsonItems inserted, st')
    ∧ supplier_order_items st' = supplier_order_items st ++ inserted
    ∧ length inserted = sum_list_with requested_units items
    ∧ item_id <$> inserted = gen_id <$> seq (next_id st) (length inserted)
    ∧ Forall (λ r, order_id r = orderId ∧ quantity r = num_1
                   ∧ (own_name (variant_id r) →
                      line_total r = unit_price r ∧ plain (unit_price r))
                   ∧ is_validated r = default_is_validated ∧ validated_at r = None)
             inserted.
Proof.
  intros Hs Ho Herr.
  destruct (POST_inserts fetchVariantMetafields gen_id default_is_validated
              default_is_printed absent_unit_price absent_line_total
              w orderId shopId items st Hs Ho Herr)
    as (st' & Hpost & Hitems).
  eexists _, st'. split; [exact Hpost|]. split; [exact Hitems|].
  split; [rewrite length_imap; apply length_unit_rows|].
  split.
  - rewrite length_imap. generalize (itemsToInsert fetchVariantMetafields orderId shopId items st).
    generalize (next_id st). intros n rows. revert n.
    induction rows as [|r rows IH]; intros n; [done|].
    rewrite imap_cons, fmap_cons. cbn [length seq]. rewrite fmap_cons.
    rewrite Nat.add_0_r. f_equal. rewrite <- (IH (S n)). f_equal.
    apply imap_ext. intros i x _. simpl. f_equal. lia.
  - apply imap_inserted_Forall. unfold itemsToInsert.
    apply Forall_forall. intros r Hr n.
    apply list_elem_of_bind in Hr as (item & Hr & _).
    unfold unit_rows in Hr. apply elem_of_replicate in Hr as [-> _]. simpl.
    split; [done|]. split; [done|]. split; [|done].
    intros Hown. unfold cost_or_0, js_index_sent.
    destruct (req_variant_id item) as [X|]; [|simpl; split; [done|by right]].
    unfold js_read. rewrite (Hown X eq_refl).
    destruct (_ !! X) as [c|]; cbn [default]; (split; [done|]);
      [apply (js_or0_is_plain (Some c))|by right].
Qed.

(** The rows of an add, all entries together: one for an entry without
    quantity or with quantity 0, none for a negative quantity, as many as
    the quantity otherwise (3 for 2.5: the loop runs while the counter is
    below it); they are appended to the table under the ids the store
    generates next, each with quantity 1 and not yet dated as validated,
    and, when the variant id is not a name every object inherits, with
    [line_total] equal to [unit_price], an ordinary number. *)
Theorem add_items_row_count (w : World) (orderId shopId : string)
    (items : list ItemRequest) (st : Store) :
  shopId ≠ "" → orderId ≠ "" → db_error w = None →
  ∃ inserted st',
    POST w orderId {| post_shopId := Some shopId; post_items := Some items |} st
    = (JsonItems inserted, st')
    ∧ supplier_order_items st' = supplier_order_items st ++ inserted
    ∧ length inserted = sum_list_with units_asked items
    ∧ item_id <$> inserted = gen_id <$> seq (next_id st) (length inserted)
    ∧ Forall (λ r, order_id r = orderId ∧ quantity r = num_1
                   ∧ (own_name (variant_id r) →
                      line_total r = unit_price r ∧ plain (unit_price r))
                   ∧ is_validated r = default_is_validated ∧ validated_at r = None)
             inserted.
Proof.
  intros Hs Ho Herr.
  destruct (POST_rows w orderId shopId items st Hs Ho Herr)
    as (inserted & st' & Hpost & Hitems & Hlen & Hids & Hall).
  exists inserted, st'. split; [exact Hpost|]. split; [exact Hitems|].
  split; [|by split]. rewrite Hlen. clear.
  induction items as [|item items IH]; [done|].
  cbn [sum_list_with]. by rewrite IH, requested_units_asked.
Qed.

(** The status update of an add looks at the id of the order and not at
    the shop: with the id of a draft order of another shop, the rows are
    inserted under the order and the order goes to [in_progress], its
    totals left as they were. *)
Theorem add_items_ignores_shop (w : World) (orderId shopId : string)
    (items : list ItemRequest) (st : Store) (o : SupplierOrder) :
  shopId ≠ "" → orderId ≠ "" → db_error w = None →
  o ∈ supplier_orders st → so_id o = orderId → so_shop_id o ≠ shopId →
  status o = "draft" →
  let st' := (POST w orderId {| post_shopId := Some shopId; post_items := Some items |} st).2 in
  {| so_id := so_id o; so_shop_id := so_shop_id o; status := "in_progress";
     subtotal := subtotal o; balance_adjustment := balance_adjustment o;
     total_ht := total_ht o; total_ttc := total_ttc o;
     so_updated_at := Some (now w) |} ∈ supplier_orders st'
  ∧ length (select_order_items orderId st')
    = (length (select_order_items orderId st) + sum_list_with requested_units items)%nat.
Proof.
  intros Hs Ho Herr Hin Hid Hshop Hst st'.
  destruct (POST_rows w orderId shopId items st Hs Ho Herr)
    as (inserted & st1 & Hpost & Hitems & Hlen & _ & Hall).
  subst st'. unfold POST in *. rewrite Hpost. cbn [snd]. split.
  - clear Hitems Hlen Hall. unfold OrderItems.POST in Hpost. cbn [post_shopId post_items] in Hpost.
    apply String.eqb_neq in Hs as Hs', Ho as Ho'.
    unfold js_string_truthy in Hpost. rewrite Hs', Ho', Herr in Hpost.
    cbn [negb orb db_insert] in Hpost. simplify_eq.
    unfold mark_in_progress, updateOrderTotals, set_orders. cbn [supplier_orders].
    rewrite <- list_fmap_compose. apply list_elem_of_fmap. exists o. split; [|done].
    simpl. rewrite (bool_decide_eq_false_2 (so_id o = so_id o ∧ so_shop_id o = shopId))
      by (intros [_ ?]; done).
    by rewrite bool_decide_eq_true_2.
  - unfold select_order_items. rewrite Hitems, filter_app, length_app. f_equal.
    rewrite <- Hlen. f_equal. apply filter_all.
    eapply Forall_impl; [exact Hall|]. by intros r (? & _).
Qed.

Lemma filter_filter_neq (itemId : string) (rows : list (OrderItem (A := A))) :
  filter (λ it, item_id it = itemId) (filter (λ it, item_id it ≠ itemId) rows) = [].
Proof.
  apply filter_none. intros it Hit Heq.
  by apply list_elem_of_filter in Hit as [Hne _].
Qed.

(** A delete removes the rows that carry the id, whatever order they
    belong to, and answers success whether or not there was one; the
    other rows stay, in their order.  Once it has answered, an update of
    the same item is refused and writes nothing. *)
Theorem update_after_delete (w1 w2 : World) (orderId itemId shopId : string)
    (body : PutBody) (st : Store) :
  shopId ≠ "" → orderId ≠ "" → itemId ≠ "" → db_error w1 = None →
  put_action body = None → put_itemId body = Some itemId →
  ∃ st1,
    handle w1 orderId (ReqDELETE (Some itemId) (Some shopId)) st = (JsonSuccess, st1)
    ∧ supplier_order_items st1
      = filter (λ it, item_id it ≠ itemId) (supplier_order_items st)
    ∧ ((∀ it, it ∈ supplier_order_items st → item_id it ≠ itemId) →
       supplier_order_items st1 = supplier_order_items st)
    ∧ ∃ http_status error,
        handle w2 orderId (ReqPUT body) st1 = (JsonError http_status error, st1).
Proof.
  intros Hs Ho Hi Herr Hact Hitem. simpl. unfold DELETE. simpl.
  apply String.eqb_neq in Hs as Hs', Ho as Ho', Hi as Hi'.
  rewrite Hs', Ho', Hi', Herr. cbn [negb orb].
  eexists. split; [reflexivity|]. rewrite updateOrderTotals_items.
  cbn [set_items supplier_order_items]. split; [done|]. split.
  { intros Hno. apply filter_all, Forall_forall. exact Hno. }
  unfold PUT. rewrite Hact. unfold PUT_update_item. rewrite Hitem.
  destruct (put_shopId body) as [shop|]; [|by eexists _, _].
  destruct (_ || _); [by eexists _, _|].
  destruct (db_error w2); [by eexists _, _|].
  unfold select_item. rewrite updateOrderTotals_items.
  cbn [set_items supplier_order_items]. rewrite filter_filter_neq. simpl.
  by eexists _, _.
Qed.

(** Adding and then deleting one of the rows just added leaves every row
    the table had before the add, in place, and the other rows of the
    add; when the add was of one unit, the table is back as it was. *)
Theorem add_then_delete (w1 w2 : World) (orderId shopId : string)
    (items : list ItemRequest) (st st1 : Store) (inserted : list OrderItem) (r : OrderItem) :
  POST w1 orderId {| post_shopId := Some shopId; post_items := Some items |} st
  = (JsonItems inserted, st1) →
  r ∈ inserted → item_id r ≠ "" → db_error w2 = None →
  (∀ it, it ∈ supplier_order_items st → item_id it ≠ item_id r) →
  ∃ st2,
    handle w2 orderId (ReqDELETE (Some (item_id r)) (Some shopId)) st1 = (JsonSuccess, st2)
    ∧ supplier_order_items st2
      = supplier_order_items st ++ filter (λ it, item_id it ≠ item_id r) inserted
    ∧ (inserted = [r] → supplier_order_items st2 = supplier_order_items st).
Proof.
  intros Hpost Hr Hid Herr Hfresh.
  unfold POST, OrderItems.POST in Hpost. cbn [post_shopId post_items] in Hpost.
  destruct (negb (js_string_truthy (Some shopId)) || negb (js_string_truthy (Some orderId)))
    eqn:Hfields; [by simplify_eq|].
  destruct (db_error w1); [by simplify_eq|].
  cbn [db_insert] in Hpost. simplify_eq.
  apply orb_false_elim in Hfields as [Hs Ho].
  simpl. unfold DELETE. cbn [js_string_truthy] in *.
  apply String.eqb_neq in Hid as Hid'. rewrite Hs, Ho, Hid', Herr. cbn [negb orb].
  eexists. split; [reflexivity|].
  rewrite updateOrderTotals_items. cbn [set_items supplier_order_items].
  rewrite filter_app. rewrite (filter_all _ (supplier_order_items st))
    by (by apply Forall_forall).
  split; [done|]. intros Hone. rewrite Hone. rewrite filter_cons_False by (intros Hne; done).
  by rewrite app_nil_r.
Qed.

(** *** Refreshing the metafields *)

Definition priced_columns (it : OrderItem (A := A)) :=
  (item_id it, order_id it, variant_id it, product_title it, variant_title it, sku it,
   quantity it, unit_price it, line_total it,
   is_validated it, validated_at it, is_printed it, printed_at it).

Lemma refresh_loop_columns (w : World) (sm : gmap string (option string))
    (mm : gmap string (gmap string string)) (l : list (OrderItem (A := A)))
    (acc : Store * nat) :
  let out := foldl (refresh_item w sm mm) acc l in
  priced_columns <$> supplier_order_items out.1 = priced_columns <$> supplier_order_items acc.1
  ∧ out.2 = (acc.2 + length (filter (λ it, js_string_truthy (variant_id it) = true) l))%nat.
Proof.
  revert acc. induction l as [|item l IH]; intros acc; [by rewrite Nat.add_0_r|].
  cbn [foldl]. cbv zeta in IH.
  destruct (IH (refresh_item w sm mm acc item)) as (-> & ->).
  unfold refresh_item. rewrite filter_cons.
  destruct (js_string_truthy (variant_id item)) eqn:Hv; simpl.
  - split; [|simpl; lia].
    rewrite <- list_fmap_compose. apply list_fmap_ext. intros i r _. simpl.
    by case_bool_decide.
  - done.
Qed.

(** A refresh of the metafields writes [metafields] and [updated_at] and
    nothing else: the orders and their totals, and on every item the
    order, the variant, the titles, the quantity, the prices and the
    validation and print flags with their dates, are as before.  The count
    it reports is the number of items of the order that have a variant,
    whether or not the platform returned metafields for it. *)
Theorem refresh_keeps_prices (w : World) (orderId : string) (body : PutBody)
    (st st' : Store) (resp : Response) :
  put_action body = Some refresh_metafields →
  handle w orderId (ReqPUT body) st = (resp, st') →
  supplier_orders st' = supplier_orders st
  ∧ priced_columns <$> supplier_order_items st' = priced_columns <$> supplier_order_items st
  ∧ ∀ updatedCount withMetafields,
      resp = JsonMessage (ArticlesProcessed updatedCount withMetafields) →
      updatedCount
      = length (filter (λ it, js_string_truthy (variant_id it) = true)
                       (select_order_items orderId st)).
Proof.
  intros Hact Hrun. simpl in Hrun. unfold PUT in Hrun. rewrite Hact in Hrun.
  unfold PUT_refresh_metafields in Hrun.
  destruct (put_shopId body) as [shopId|]; [|by simplify_eq].
  destruct (_ || _); [by simplify_eq|].
  case_bool_decide; [by simplify_eq|].
  case_bool_decide; [by simplify_eq|].
  match type of Hrun with
  | context [foldl (refresh_item ?w ?sm ?mm) ?acc ?l] =>
    pose proof (refresh_loop_keeps w sm mm l acc) as Hk;
    pose proof (refresh_loop_columns w sm mm l acc) as Hc;
    destruct (foldl (refresh_item w sm mm) acc l) as [st1 n]
  end.
  cbv zeta in Hk, Hc. simpl in Hk, Hc. destruct Hk as (Hord & _). destruct Hc as (Hcols & Hn).
  simplify_eq. split; [done|]. split; [done|].
  intros updatedCount withMetafields Hresp. by simplify_eq.
Qed.

(** What the loop of the refresh leaves of one row when the platform
    returned nothing. *)
Definition cleared (w : World) (r item : OrderItem (A := A)) : OrderItem :=
  if bool_decide (item_id r = item_id item) then with_metafields ∅ (now w) r else r.

Lemma metafields_of_empty (shopifyId : option string) : metafields_of ∅ shopifyId = ∅.
Proof.
  unfold metafields_of. destruct (js_string_truthy shopifyId); [|done].
  destruct shopifyId as [k|]; [|done]. simpl. by rewrite lookup_empty.
Qed.

Lemma refresh_loop_rows (w : World) (sm : gmap string (option string))
    (l : list (OrderItem (A := A))) (acc : Store * nat) :
  supplier_order_items (foldl (refresh_item w sm ∅) acc l).1
  = (λ r, foldl (cleared w) r (filter (λ it, js_string_truthy (variant_id it) = true) l))
    <$> supplier_order_items acc.1.
Proof.
  revert acc. induction l as [|item l IH]; intros acc.
  - simpl. by rewrite list_fmap_id.
  - cbn [foldl]. rewrite IH. unfold refresh_item. rewrite filter_cons.
    destruct (js_string_truthy (variant_id item)) eqn:Hv; simpl.
    + rewrite <- list_fmap_compose.
      apply list_fmap_ext. intros i r _. simpl. f_equal.
      by rewrite metafields_of_empty.
    + done.
Qed.

Lemma cleared_loop (w : World) (l : list (OrderItem (A := A))) (r : OrderItem) :
  let r' := foldl (cleared w) r l in
  item_id r' = item_id r ∧ order_id r' = order_id r ∧ variant_id r' = variant_id r
  ∧ (metafields r = ∅ ∨ (∃ item, item ∈ l ∧ item_id item = item_id r) → metafields r' = ∅).
Proof.
  revert r. induction l as [|x l IH]; intros r; cbv zeta.
  - simpl. repeat split; try done. intros [Hm | (item & Hin & _)]; [done|].
    by apply elem_of_nil in Hin.
  - cbn [foldl]. destruct (IH (cleared w r x)) as (-> & -> & -> & Hmeta).
    unfold cleared at 1 2 3. split; [by case_bool_decide|]. split; [by case_bool_decide|].
    split; [by case_bool_decide|].
    intros Hr. apply Hmeta. unfold cleared.
    destruct (decide (item_id r = item_id x)) as [Hx | Hx].
    + rewrite (bool_decide_eq_true_2 _ Hx). by left.
    + rewrite (bool_decide_eq_false_2 _ Hx).
      destruct Hr as [Hm | (item & Hin & Hid)]; [by left|]. right.
      apply elem_of_cons in Hin as [-> | Hin]; [by destruct Hx|]. by exists item.
Qed.

(** When the read of the metafields returns nothing (it does so on every
    failure), a refresh does not keep what the items had: every item of
    the order that has a variant is left without metafields, and the
    response counts it as processed. *)
Theorem refresh_after_failed_read (w : World) (orderId shopId : string) (body : PutBody)
    (st st' : Store) (updatedCount withMetafields : nat) :
  put_action body = Some refresh_metafields → put_shopId body = Some shopId →
  (let orderItems := select_order_items orderId st in
   let variantIds := remove_dups (filter_Boolean (variant_id <$> orderItems)) in
   let variantShopifyIdMap := build_shopify_id_map (select_variants variantIds st) in
   fetchVariantMetafields shopId (map_to_list variantShopifyIdMap).*2
                          (select_metafield_configs shopId st) = ∅) →
  handle w orderId (ReqPUT body) st
  = (JsonMessage (ArticlesProcessed updatedCount withMetafields), st') →
  withMetafields = 0%nat
  ∧ ∀ it, it ∈ supplier_order_items st' → order_id it = orderId →
          js_string_truthy (variant_id it) = true → metafields it = ∅.
Proof.
  intros Hact Hshop Hfetch Hrun. simpl in Hrun. unfold PUT in Hrun. rewrite Hact in Hrun.
  unfold PUT_refresh_metafields in Hrun. rewrite Hshop in Hrun.
  destruct (_ || _); [by simplify_eq|].
  case_bool_decide; [by simplify_eq|].
  case_bool_decide; [by simplify_eq|].
  cbv zeta in Hfetch. rewrite Hfetch in Hrun.
  match type of Hrun with
  | context [foldl (refresh_item ?w ?sm ∅) ?acc ?l] =>
    pose proof (refresh_loop_rows w sm l acc) as Hrows;
    destruct (foldl (refresh_item w sm ∅) acc l) as [st1 n]
  end.
  simpl in Hrows. simplify_eq. split; [by rewrite map_to_list_empty|].
  intros it Hin Hord Hv. rewrite Hrows in Hin.
  apply list_elem_of_fmap in Hin as (r & -> & Hr).
  match goal with
  | |- context [foldl (cleared w) r ?l] => destruct (cleared_loop w l r) as (Hid & Ho & Hvar & Hm)
  end.
  apply Hm. right. exists r. split; [|done].
  apply list_elem_of_filter. split; [by rewrite <- Hvar|].
  apply list_elem_of_filter. split; [by rewrite <- Ho|done].
Qed.

End Facts.
End OrderItemsFacts.

(** ** The route on the scenario of the order o1 *)

Module OrderItemsFactsExamples.
Import OrderItems OrderItemsExamples OrderItemsFacts.

Local Open Scope float_scope.

(** A store that refuses the statement. *)
Definition refusing : World :=
  {| now := "2025-01-01T00:00:00.000Z"; db_error := Some "connection refused" |}.

Lemma error_leaves_store_witness :
  (handle_js refusing "o1" add_three scenario_store).2 = scenario_store.
Proof.
  apply (error_leaves_store no_metafields uuid false false 0 0 refusing "o1" add_three
           scenario_store _ 500 "connection refused").
  vm_compute. reflexivity.
Defined.

Definition print_i1_body : PutBody (A := float) :=
  {| put_shopId := Some "s1"; put_itemId := Some "i1";
     put_is_validated := None; put_is_printed := Some true;
     put_quantity := None; put_unit_price := None; put_action := None |}.

Lemma orders_written_by_mutations_only_witness :
  supplier_orders (handle_js world "o1" (ReqPUT print_i1_body) scenario_store).2
  = supplier_orders scenario_store.
Proof.
  apply (orders_written_by_mutations_only no_metafields uuid false false 0 0 world "o1"
           (ReqPUT print_i1_body) scenario_store _
           (handle_js world "o1" (ReqPUT print_i1_body) scenario_store).1).
  - vm_compute. reflexivity.
  - vm_compute. intros [Hq | [Hp | Hv]]; [destruct Hq | destruct Hp | destruct Hv]; discriminate.
Defined.

Lemma update_item_stamps_witness :
  let item' := an_item "i1" (Some "v1") 1 10 10 true in
  let printed :=
    {| item_id := "i1"; order_id := "o1"; variant_id := Some "v1";
       product_title := "T-shirt"; variant_title := Some "M"; sku := Some "TS-M";
       quantity := 1; unit_price := 10; line_total := 10;
       is_validated := true; validated_at := None;
       is_printed := true; printed_at := Some (now world);
       metafields := ∅; item_updated_at := Some (now world) |} in
  let st' := (handle_js world "o1" (ReqPUT print_i1_body) scenario_store).2 in
  ∃ item, select_item "i1" scenario_store = Some item
    ∧ item_id item = "i1" ∧ item_id printed = "i1" ∧ order_id printed = order_id item
    ∧ printed ∈ supplier_order_items st'
    ∧ is_validated printed = default (is_validated item) (put_is_validated print_i1_body)
    ∧ validated_at printed
      = match put_is_validated print_i1_body with
        | Some true => Some (now world)
        | Some false => None
        | None => validated_at item
        end
    ∧ is_printed printed = default (is_printed item) (put_is_printed print_i1_body)
    ∧ printed_at printed
      = match put_is_printed print_i1_body with
        | Some true => Some (now world)
        | Some false => None
        | None => printed_at item
        end
    ∧ metafields printed = metafields item
    ∧ filter (λ it, item_id it ≠ "i1") (supplier_order_items st')
      = filter (λ it, item_id it ≠ "i1") (supplier_order_items scenario_store).
Proof.
  intros item' printed st'.
  apply (update_item_stamps no_metafields uuid false false 0 0 world "o1" "i1" print_i1_body
           scenario_store st' printed).
  - reflexivity.
  - reflexivity.
  - vm_compute. reflexivity.
Defined.

(** An entry without a quantity, and one for two units and a half. *)
Definition an_entry_of (variantId : string) (quantity' : option Q) : ItemRequest :=
  {| req_variant_id := Some variantId; req_product_title := "T-shirt";
     req_variant_title := Some "M"; req_sku := Some "TS-M";
     req_quantity := quantity' |}.

Definition units_entries : list ItemRequest :=
  [ an_entry "v1" 2; an_entry "v2" 0; an_entry "v1" (-4);
    an_entry_of "v1" (Some (5 # 2)%Q); an_entry_of "v2" None ].

Definition add_units : PostBody :=
  {| post_shopId := Some "s1"; post_items := Some units_entries |}.

Lemma add_items_row_count_witness :
  ∃ inserted st',
    POST no_metafields uuid false false 0 0 world "o1"
      {| post_shopId := Some "s1"; post_items := Some units_entries |}
      scenario_store
    = (JsonItems inserted, st')
    ∧ supplier_order_items st' = supplier_order_items scenario_store ++ inserted
    ∧ length inserted = sum_list_with units_asked units_entries
    ∧ item_id <$> inserted = uuid <$> seq (next_id scenario_store) (length inserted)
    ∧ Forall (λ r, order_id r = "o1" ∧ quantity r = num_1
                   ∧ (own_name (variant_id r) →
                      line_total r = unit_price r ∧ plain (unit_price r))
                   ∧ is_validated r = false ∧ validated_at r = None)
             inserted.
Proof.
  apply (add_items_row_count no_metafields uuid false false 0 0 world "o1" "s1"
           units_entries scenario_store).
  - discriminate.
  - discriminate.
  - reflexivity.
Defined.

(** Two units of v1, one of v2 asked with quantity 0, none for the
    negative quantity, three for two and a half, one for the entry
    without a quantity. *)
Example add_units_rows :
  sum_list_with units_asked units_entries = 7%nat
  ∧ ∃ inserted,
    (handle_js world "o1" (ReqPOST add_units) scenario_store).1 = JsonItems inserted
    ∧ (λ r, (item_id r, variant_id r, unit_price r)) <$> inserted
      = [("row-0", Some "v1", 7.5); ("row-1", Some "v1", 7.5); ("row-2", Some "v2", 0);
         ("row-3", Some "v1", 7.5); ("row-4", Some "v1", 7.5); ("row-5", Some "v1", 7.5);
         ("row-6", Some "v2", 0)].
Proof. split; [vm_compute; reflexivity|]. eexists. vm_compute. split; reflexivity. Qed.

Lemma add_items_ignores_shop_witness :
  let st' := (POST no_metafields uuid false false 0 0 world "o1"
                {| post_shopId := Some "another-shop"; post_items := Some [an_entry "v1" 3] |}
                draft_store).2 in
  {| so_id := "o1"; so_shop_id := "s1"; status := "in_progress";
     subtotal := 0; balance_adjustment := 0; total_ht := 0; total_ttc := 0;
     so_updated_at := Some (now world) |} ∈ supplier_orders st'
  ∧ length (select_order_items "o1" st')
    = (length (select_order_items "o1" draft_store)
       + sum_list_with requested_units [an_entry "v1" 3])%nat.
Proof.
  apply (add_items_ignores_shop no_metafields uuid false false 0 0 world "o1" "another-shop"
           [an_entry "v1" 3] draft_store (an_order "draft" 0)).
  - discriminate.
  - discriminate.
  - reflexivity.
  - vm_compute. left.
  - reflexivity.
  - discriminate.
  - reflexivity.
Defined.

Lemma update_after_delete_witness :
  ∃ st1,
    handle_js world "o1" (ReqDELETE (Some "i1") (Some "s1")) scenario_store = (JsonSuccess, st1)
    ∧ supplier_order_items st1
      = filter (λ it, item_id it ≠ "i1") (supplier_order_items scenario_store)
    ∧ ((∀ it, it ∈ supplier_order_items scenario_store → item_id it ≠ "i1") →
       supplier_order_items st1 = supplier_order_items scenario_store)
    ∧ ∃ http_status error,
        handle_js later "o1" (ReqPUT print_i1_body) st1 = (JsonError http_status error, st1).
Proof.
  apply (update_after_delete no_metafields uuid false false 0 0 world later "o1" "i1" "s1"
           print_i1_body scenario_store).
  - discriminate.
  - discriminate.
  - discriminate.
  - reflexivity.
  - reflexivity.
  - reflexivity.
Defined.

Definition add_one : PostBody :=
  {| post_shopId := Some "s1"; post_items := Some [an_entry "v1" 1] |}.

Definition added : OrderItem := an_item "row-0" (Some "v1") 1 7.5 7.5 false.

Lemma add_then_delete_witness :
  ∃ st2,
    handle_js later "o1" (ReqDELETE (Some (item_id added)) (Some "s1"))
              (handle_js world "o1" (ReqPOST add_one) scenario_store).2
    = (JsonSuccess, st2)
    ∧ supplier_order_items st2
      = supplier_order_items scenario_store
        ++ filter (λ it, item_id it ≠ item_id added) [added]
    ∧ ([added] = [added] → supplier_order_items st2 = supplier_order_items scenario_store).
Proof.
  apply (add_then_delete no_metafields uuid false false 0 0 world later "o1" "s1"
           [an_entry "v1" 1] scenario_store
           (handle_js world "o1" (ReqPOST add_one) scenario_store).2 [added] added).
  - vm_compute. reflexivity.
  - left.
  - discriminate.
  - reflexivity.
  - intros it Hit. vm_compute in Hit.
    apply elem_of_cons in Hit as [-> | Hit]; [discriminate|].
    apply elem_of_cons in Hit as [-> | Hit]; [discriminate|].
    apply elem_of_cons in Hit as [-> | Hit]; [discriminate|].
    by apply elem_of_nil in Hit.
Defined.

(** One metafield is configured for the shop s1; the platform knows the
    material of the variant 111. *)
Definition configured_store : Store (A := float) :=
  {| supplier_order_items := supplier_order_items scenario_store;
     supplier_orders := supplier_orders scenario_store;
     product_variants := product_variants scenario_store;
     metafield_config :=
       [ {| mc_shop_id := "s1"; mc_is_active := true; namespace := "custom";
            key := "material"; display_name := "Material" |} ];
     next_id := 0 |}.

Definition material_of_111 (shopId : string) (ids : list (option string))
    (configs : list MetafieldConfig) : gmap string (gmap string string) :=
  {[ "111" := {[ "Material" := "Cotton" ]} ]}.

Definition refresh : PutBody (A := float) :=
  {| put_shopId := Some "s1"; put_itemId := None;
     put_is_validated := None; put_is_printed := None;
     put_quantity := None; put_unit_price := None;
     put_action := Some refresh_metafields |}.

Definition refreshed : Response * Store :=
  handle material_of_111 uuid false false 0 0 world "o1" (ReqPUT refresh) configured_store.

Example refreshed_metafields :
  refreshed.1 = JsonMessage (ArticlesProcessed 3 1)
  ∧ metafields <$> supplier_order_items refreshed.2
    = [ {[ "Material" := "Cotton" ]}; {[ "Material" := "Cotton" ]}; ∅ ].
Proof. vm_compute. split; reflexivity. Qed.

Lemma refresh_keeps_prices_witness :
  supplier_orders refreshed.2 = supplier_orders configured_store
  ∧ priced_columns <$> supplier_order_items refreshed.2
    = priced_columns <$> supplier_order_items configured_store
  ∧ ∀ updatedCount withMetafields,
      refreshed.1 = JsonMessage (ArticlesProcessed updatedCount withMetafields) →
      updatedCount
      = length (filter (λ it, js_string_truthy (variant_id it) = true)
                       (select_order_items "o1" configured_store)).
Proof.
  apply (refresh_keeps_prices material_of_111 uuid false false 0 0 world "o1" refresh
           configured_store refreshed.2 refreshed.1).
  - reflexivity.
  - vm_compute. reflexivity.
Defined.

(** The same refresh once more, the read of the metafields failing. *)
Definition refreshed_blind : Response * Store :=
  handle no_metafields uuid false false 0 0 later "o1" (ReqPUT refresh) refreshed.2.

Lemma refresh_after_failed_read_witness :
  0%nat = 0%nat
  ∧ ∀ it, it ∈ supplier_order_items refreshed_blind.2 → order_id it = "o1" →
          js_string_truthy (variant_id it) = true → metafields it = ∅.
Proof.
  apply (refresh_after_failed_read no_metafields uuid false false 0 0 later "o1" "s1" refresh
           refreshed.2 refreshed_blind.2 3 0).
  - reflexivity.
  - reflexivity.
  - reflexivity.
  - vm_compute. reflexivity.
Defined.

Example metafields_lost :
  metafields <$> supplier_order_items refreshed_blind.2 = [∅; ∅; ∅].
Proof. vm_compute. reflexivity. Qed.

End OrderItemsFactsExamples.

(** * The read of the variants' metafields (src/unnamed/part_001, fetchVariantMetafields) *)

Module VariantMetafields.
Import OrderItems.

(** [s.replace(pattern, replacement)] for a string [pattern] and a
    [replacement] without [$]: the first occurrence is replaced. *)
Fixpoint replace (pattern replacement s : string) : string :=
  if String.prefix pattern s
  then replacement +:+ String.substring (String.length pattern)
                                        (String.length s - String.length pattern) s
  else match s with
       | EmptyString => EmptyString
       | String c s' => String c (replace pattern replacement s')
       end.

(** A row of shops, the columns the function selects. *)
Record Shop := {
  shopify_url : string;
  shopify_token : string;
}.

(** [edge.node] of [metafields.edges]. *)
Record Metafield := {
  mf_namespace : string;
  mf_key : string;
  mf_value : option string;
}.

(** An element of [data.data.nodes]; [node_edges] is
    [node.metafields?.edges], each edge given by its [node], which may be
    null. *)
Record Node := {
  node_id : option string;
  node_edges : option (list (option Metafield));
}.

(** The answer to the GraphQL request, once read as JSON. *)
Record GraphQL := {
  response_ok : bool;
  (** [data.errors] is truthy *)
  errors : bool;
  (** [data.data?.nodes] *)
  nodes : option (list (option Node));
}.

Section Fetch.

(** [String.prototype.toLowerCase] of the engine. *)
Variable toLowerCase : string → string.

(** [.from('shops').select(..).eq('id', shopId).single()] *)
Variable shops : string → option Shop.

(** The request to the platform for the given GIDs; [None] when [fetch]
    or [response.json()] throws. *)
Variable graphql : Shop → list string → option GraphQL.

(** [`${namespace}.${key}`] *)
Definition fullKey (namespace key : string) : string := namespace +:+ "." +:+ key.

(** [for (const c of metafieldConfigs)
       configuredKeysMap.set(`${c.namespace}.${c.key}`.toLowerCase(), c)] *)
Definition configuredKeysMap (metafieldConfigs : list MetafieldConfig)
    : gmap string MetafieldConfig :=
  foldl (λ m c, <[toLowerCase (fullKey (namespace c) (key c)) := c]> m) ∅ metafieldConfigs.

(** [config.display_name || `${mf.namespace}.${mf.key}`] *)
Definition displayName (config : MetafieldConfig) (mf : Metafield) : string :=
  if js_string_truthy (Some (display_name config)) then display_name config
  else fullKey (mf_namespace mf) (mf_key mf).

(** The body of [for (const edge of node.metafields?.edges || [])]. *)
Definition keep_metafield (configured : gmap string MetafieldConfig)
    (kept : gmap string string) (edge : option Metafield) : gmap string string :=
  match edge with
  | Some mf =>
    match mf_value mf with
    | Some value =>
      if js_string_truthy (Some value) then
        match configured !! toLowerCase (fullKey (mf_namespace mf) (mf_key mf)) with
        | Some config => <[displayName config mf := value]> kept
        | None => kept
        end
      else kept
    | None => kept
    end
  | None => kept
  end.

Definition gid_prefix : string := "gid://shopify/ProductVariant/".

(** The body of [for (const node of data.data?.nodes || [])]. *)
Definition read_node (configured : gmap string MetafieldConfig)
    (result : gmap string (gmap string string)) (node : option Node)
    : gmap string (gmap string string) :=
  match node with
  | Some node' =>
    match node_id node' with
    | Some id =>
      if js_string_truthy (Some id) then
        let shopifyId := replace gid_prefix "" id in
        <[shopifyId := foldl (keep_metafield configured) ∅ (default [] (node_edges node'))]>
          result
      else result
    | None => result
    end
  | None => result
  end.

(** [`gid://shopify/ProductVariant/${id}`], [null] printed as the template
    literal prints it. *)
Definition gid (id : option string) : string := gid_prefix +:+ default "null" id.

Definition fetchVariantMetafields (shopId : string) (variantShopifyIds : list (option string))
    (metafieldConfigs : list MetafieldConfig) : gmap string (gmap string string) :=
  match shops shopId with
  | None => ∅
  | Some shop =>
    let variantGids := gid <$> variantShopifyIds in
    match graphql shop variantGids with
    | None => ∅
    | Some data =>
      if negb (response_ok data) then ∅
      else if errors data then ∅
      else foldl (read_node (configuredKeysMap metafieldConfigs)) ∅ (default [] (nodes data))
    end
  end.

(** ** What the function returns *)

Lemma configuredKeysMap_lookup (metafieldConfigs : list MetafieldConfig) (k : string)
    (config : MetafieldConfig) :
  configuredKeysMap metafieldConfigs !! k = Some config →
  config ∈ metafieldConfigs ∧ k = toLowerCase (fullKey (namespace config) (key config)).
Proof.
  unfold configuredKeysMap.
  assert (Hgen : ∀ m : gmap string MetafieldConfig,
            foldl (λ m c, <[toLowerCase (fullKey (namespace c) (key c)) := c]> m) m
                  metafieldConfigs !! k = Some config →
            m !! k = Some config
            ∨ (config ∈ metafieldConfigs
               ∧ k = toLowerCase (fullKey (namespace config) (key config)))).
  { induction metafieldConfigs as [|c l IH]; intros m Hl; [by left|].
    cbn [foldl] in Hl. apply IH in Hl as [Hl | [Hin Hk]].
    - destruct (decide (toLowerCase (fullKey (namespace c) (key c)) = k)) as [Heq | Hne].
      + rewrite <- Heq, lookup_insert_eq in Hl. simplify_eq. right. split; [left|done].
      + rewrite lookup_insert_ne in Hl by done. by left.
    - right. split; [by right|done]. }
  intros Hl. apply Hgen in Hl as [Hl | Hl]; [|done]. by rewrite lookup_empty in Hl.
Qed.

(** A metafield of the answer that the function keeps: it has a value, and
    its full key is, up to case, the full key of a configuration, whose
    display name (the full key of the metafield when it has none) is the
    name it is kept under. *)
Definition kept_from (metafieldConfigs : list MetafieldConfig)
    (edges : list (option Metafield)) (name value : string) : Prop :=
  ∃ mf config,
    Some mf ∈ edges ∧ mf_value mf = Some value ∧ value ≠ ""
    ∧ config ∈ metafieldConfigs
    ∧ toLowerCase (fullKey (mf_namespace mf) (mf_key mf))
      = toLowerCase (fullKey (namespace config) (key config))
    ∧ name = displayName config mf.

Lemma keep_metafields_lookup (metafieldConfigs : list MetafieldConfig)
    (edges : list (option Metafield)) (kept : gmap string string) (name value : string) :
  foldl (keep_metafield (configuredKeysMap metafieldConfigs)) kept edges !! name = Some value →
  kept !! name = Some value ∨ kept_from metafieldConfigs edges name value.
Proof.
  revert kept. induction edges as [|edge edges IH]; intros kept Hl; [by left|].
  cbn [foldl] in Hl. apply IH in Hl as [Hl | (mf & config & Hin & Hrest)].
  - unfold keep_metafield in Hl.
    destruct edge as [mf|]; [|by left].
    destruct (mf_value mf) as [v|] eqn:Hv; [|by left].
    destruct (js_string_truthy (Some v)) eqn:Ht; [|by left].
    destruct (configuredKeysMap metafieldConfigs
                !! toLowerCase (fullKey (mf_namespace mf) (mf_key mf)))
      as [config|] eqn:Hc; [|by left].
    destruct (decide (displayName config mf = name)) as [Heq | Hne].
    + rewrite <- Heq, lookup_insert_eq in Hl. simplify_eq. right.
      apply configuredKeysMap_lookup in Hc as [Hin Hk].
      exists mf, config. split; [left|]. split; [done|]. split; [|done].
      intros ->. discriminate Ht.
    + rewrite lookup_insert_ne in Hl by done. by left.
  - right. exists mf, config. split; [by right|done].
Qed.

Lemma read_nodes_lookup (metafieldConfigs : list MetafieldConfig)
    (l : list (option Node)) (result : gmap string (gmap string string))
    (shopifyId : string) (kept : gmap string string) :
  foldl (read_node (configuredKeysMap metafieldConfigs)) result l !! shopifyId = Some kept →
  result !! shopifyId = Some kept
  ∨ ∃ node id, Some node ∈ l ∧ node_id node = Some id ∧ id ≠ ""
      ∧ shopifyId = replace gid_prefix "" id
      ∧ kept = foldl (keep_metafield (configuredKeysMap metafieldConfigs)) ∅
                     (default [] (node_edges node)).
Proof.
  revert result. induction l as [|node l IH]; intros result Hl; [by left|].
  cbn [foldl] in Hl. apply IH in Hl as [Hl | (n & id & Hin & Hrest)].
  - unfold read_node in Hl. destruct node as [n|]; [|by left].
    destruct (node_id n) as [id|] eqn:Hid; [|by left].
    destruct (js_string_truthy (Some id)) eqn:Ht; [|by left]. cbv zeta in Hl.
    destruct (decide (replace gid_prefix "" id = shopifyId)) as [Heq | Hne].
    + rewrite <- Heq, lookup_insert_eq in Hl. simplify_eq. right.
      exists n, id. split; [left|]. split; [done|]. split; [|done].
      intros ->. discriminate Ht.
    + rewrite lookup_insert_ne in Hl by done. by left.
  - right. exists n, id. split; [by right|done].
Qed.

(** Whatever the platform answers, the function returns configured
    metafields only: every name and value it returns for a variant is a
    metafield with a non-empty value of a node of the answer, whose
    namespace and key are, up to case, those of one of the
    configurations passed, kept under the display name of that
    configuration. *)
Theorem only_configured_metafields (shopId : string) (variantShopifyIds : list (option string))
    (metafieldConfigs : list MetafieldConfig) (shopifyId name value : string)
    (kept : gmap string string) :
  fetchVariantMetafields shopId variantShopifyIds metafieldConfigs !! shopifyId = Some kept →
  kept !! name = Some value →
  ∃ shop data node id,
    shops shopId = Some shop
    ∧ graphql shop (gid <$> variantShopifyIds) = Some data
    ∧ response_ok data = true ∧ errors data = false
    ∧ Some node ∈ default [] (nodes data)
    ∧ node_id node = Some id ∧ shopifyId = replace gid_prefix "" id
    ∧ kept_from metafieldConfigs (default [] (node_edges node)) name value.
Proof.
  unfold fetchVariantMetafields. intros Hres Hkept.
  destruct (shops shopId) as [shop|]; [|by rewrite lookup_empty in Hres].
  destruct (graphql shop (gid <$> variantShopifyIds)) as [data|] eqn:Hdata;
    [|by rewrite lookup_empty in Hres].
  destruct (response_ok data) eqn:Hok;
    [|cbn [negb] in Hres; by rewrite lookup_empty in Hres].
  cbn [negb] in Hres.
  destruct (errors data) eqn:Herr; [by rewrite lookup_empty in Hres|].
  apply read_nodes_lookup in Hres as [Hres | (node & id & Hin & Hid & _ & Hsid & ->)];
    [by rewrite lookup_empty in Hres|].
  apply keep_metafields_lookup in Hkept as [Hkept | Hkept];
    [by rewrite lookup_empty in Hkept|].
  exists shop, data, node, id. split_and!; done.
Qed.

(** ** The ids, sent as GIDs and read back *)

Lemma prefix_append (p s : string) : String.prefix p (p +:+ s) = true.
Proof.
  induction p as [|a p IH]; simpl; [by destruct s|].
  destruct (Ascii.ascii_dec a a); [exact IH|done].
Qed.

Lemma substring_all (s : string) : String.substring 0 (String.length s) s = s.
Proof. induction s as [|c s IH]; [done|]. simpl. by rewrite IH. Qed.

Lemma substring_append (p s : string) :
  String.substring (String.length p) (String.length (p +:+ s) - String.length p) (p +:+ s) = s.
Proof.
  induction p as [|a p IH]; simpl.
  - rewrite Nat.sub_0_r. apply substring_all.
  - exact IH.
Qed.

Lemma replace_unfold (pattern replacement s : string) :
  replace pattern replacement s
  = if String.prefix pattern s
    then replacement +:+ String.substring (String.length pattern)
                                          (String.length s - String.length pattern) s
    else match s with
         | EmptyString => EmptyString
         | String c s' => String c (replace pattern replacement s')
         end.
Proof. by destruct s. Qed.

Lemma replace_prefix (p s : string) : replace p "" (p +:+ s) = s.
Proof. by rewrite replace_unfold, prefix_append, substring_append. Qed.

Lemma gid_truthy (id : option string) : js_string_truthy (Some (gid id)) = true.
Proof. reflexivity. Qed.

(** The nodes whose id does not read back to [shopifyId] leave its entry
    as it is. *)
Lemma read_nodes_others (configured : gmap string MetafieldConfig)
    (l : list (option Node)) (result : gmap string (gmap string string))
    (shopifyId : string) :
  (∀ n i, Some n ∈ l → node_id n = Some i → i ≠ "" →
          replace gid_prefix "" i ≠ shopifyId) →
  foldl (read_node configured) result l !! shopifyId = result !! shopifyId.
Proof.
  revert result. induction l as [|x l IH]; intros result Hothers; [done|].
  cbn [foldl]. rewrite IH by (intros n i Hn; apply Hothers; by right).
  unfold read_node. destruct x as [n|]; [|done].
  destruct (node_id n) as [i|] eqn:Hi; [|done].
  destruct (js_string_truthy (Some i)) eqn:Hti; [|done]. cbv zeta.
  apply lookup_insert_ne. apply (Hothers n i); [left|done|].
  intros ->. discriminate Hti.
Qed.

(** The ids go out as GIDs and come back as ids: when the platform
    answers, for an id that was sent, with a node that carries the GID
    sent, the result has an entry under the id, and the entry is made of
    the metafields kept from that node when it is the last one, in the
    order of the answer, whose id reads back to the id: a later node with
    the same GID replaces what an earlier one has left. *)
Theorem requested_id_read_back (shopId : string) (variantShopifyIds : list (option string))
    (metafieldConfigs : list MetafieldConfig) (shop : Shop) (data : GraphQL)
    (shopifyId : string) (before after : list (option Node)) (node : Node) :
  shops shopId = Some shop →
  graphql shop (gid <$> variantShopifyIds) = Some data →
  response_ok data = true → errors data = false →
  default [] (nodes data) = before ++ Some node :: after →
  node_id node = Some (gid (Some shopifyId)) →
  (∀ n i, Some n ∈ after → node_id n = Some i → i ≠ "" →
          replace gid_prefix "" i ≠ shopifyId) →
  fetchVariantMetafields shopId variantShopifyIds metafieldConfigs !! shopifyId
  = Some (foldl (keep_metafield (configuredKeysMap metafieldConfigs)) ∅
                (default [] (node_edges node))).
Proof.
  intros Hshop Hdata Hok Herr Hnodes Hid Hafter.
  unfold fetchVariantMetafields. rewrite Hshop, Hdata, Hok, Herr. cbn [negb].
  rewrite Hnodes, foldl_app. cbn [foldl].
  rewrite read_nodes_others by exact Hafter.
  unfold read_node. rewrite Hid, gid_truthy. cbv zeta.
  change (gid (Some shopifyId)) with (gid_prefix +:+ shopifyId).
  rewrite replace_prefix. apply lookup_insert_eq.
Qed.

End Fetch.

(** ** An answer of the platform *)

(** A stand-in for [toLowerCase], on the ASCII range. *)
Definition lower (c : ascii) : ascii :=
  let n := nat_of_ascii c in
  if Nat.leb 65 n && Nat.leb n 90 then ascii_of_nat (n + 32) else c.

Fixpoint ascii_toLowerCase (s : string) : string :=
  match s with
  | EmptyString => EmptyString
  | String c s' => String (lower c) (ascii_toLowerCase s')
  end.

Definition the_shop (shopId : string) : option Shop :=
  Some {| shopify_url := "ivy.example"; shopify_token := "token" |}.

Definition material : MetafieldConfig :=
  {| mc_shop_id := "s1"; mc_is_active := true; namespace := "custom"; key := "material";
     display_name := "Material" |}.

(** The variant 111 with its material under another case, a weight that is
    not configured, and a metafield without value. *)
Definition the_answer : GraphQL :=
       {| response_ok := true; errors := false;
          nodes := Some [ Some {| node_id := Some "gid://shopify/ProductVariant/111";
                                  node_edges :=
                                    Some [ Some {| mf_namespace := "Custom";
                                                   mf_key := "Material";
                                                   mf_value := Some "Cotton" |};
                                           Some {| mf_namespace := "custom";
                                                   mf_key := "weight";
                                                   mf_value := Some "180" |};
                                           Some {| mf_namespace := "custom";
                                                   mf_key := "material";
                                                   mf_value := Some "" |};
                                           None ] |};
                          None ] |}.

Definition answer (shop : Shop) (variantGids : list string) : option GraphQL :=
  Some the_answer.

Example answer_read :
  fetchVariantMetafields ascii_toLowerCase the_shop answer "s1" [Some "111"] [material]
  = {[ "111" := {[ "Material" := "Cotton" ]} ]}.
Proof. vm_compute. reflexivity. Qed.

Lemma only_configured_metafields_witness :
  ∃ shop data node id,
    the_shop "s1" = Some shop
    ∧ answer shop (gid <$> [Some "111"]) = Some data
    ∧ response_ok data = true ∧ errors data = false
    ∧ Some node ∈ default [] (nodes data)
    ∧ node_id node = Some id ∧ "111" = replace gid_prefix "" id
    ∧ kept_from ascii_toLowerCase [material] (default [] (node_edges node)) "Material" "Cotton".
Proof.
  apply (only_configured_metafields ascii_toLowerCase the_shop answer "s1" [Some "111"]
           [material] "111" "Material" "Cotton" {[ "Material" := "Cotton" ]}).
  - vm_compute. reflexivity.
  - vm_compute. reflexivity.
Defined.

(** The platform answers twice for the variant 111: what the second node
    carries is what is kept. *)
Definition first_node : Node :=
  {| node_id := Some "gid://shopify/ProductVariant/111";
     node_edges := Some [ Some {| mf_namespace := "custom"; mf_key := "material";
                                  mf_value := Some "Cotton" |} ] |}.

Definition last_node : Node :=
  {| node_id := Some "gid://shopify/ProductVariant/111";
     node_edges := Some [ Some {| mf_namespace := "custom"; mf_key := "material";
                                  mf_value := Some "Linen" |} ] |}.

Definition other_node : Node :=
  {| node_id := Some "gid://shopify/ProductVariant/222"; node_edges := Some [] |}.

Definition answered_twice : GraphQL :=
  {| response_ok := true; errors := false;
     nodes := Some [ Some first_node; Some last_node; Some other_node; None ] |}.

Definition answer_twice (shop : Shop) (variantGids : list string) : option GraphQL :=
  Some answered_twice.

Lemma requested_id_read_back_witness :
  fetchVariantMetafields ascii_toLowerCase the_shop answer_twice "s1" [Some "111"] [material]
    !! "111"
  = Some (foldl (keep_metafield ascii_toLowerCase
                   (configuredKeysMap ascii_toLowerCase [material])) ∅
                (default [] (node_edges last_node))).
Proof.
  apply (requested_id_read_back ascii_toLowerCase the_shop answer_twice "s1" [Some "111"]
           [material] {| shopify_url := "ivy.example"; shopify_token := "token" |}
           answered_twice "111" [Some first_node] [Some other_node; None] last_node).
  - reflexivity.
  - reflexivity.
  - reflexivity.
  - reflexivity.
  - reflexivity.
  - reflexivity.
  - intros n i Hn Hi _ Hback.
    apply elem_of_cons in Hn as [Hn | Hn]; [|by apply list_elem_of_singleton in Hn].
    injection Hn as ->. injection Hi as <-. vm_compute in Hback. discriminate Hback.
Defined.

Example answered_twice_read :
  fetchVariantMetafields ascii_toLowerCase the_shop answer_twice "s1" [Some "111"] [material]
  = {[ "111" := {[ "Material" := "Linen" ]}; "222" := ∅ ]}.
Proof. vm_compute. reflexivity. Qed.

End VariantMetafields.

(** * The state of the order page (src/unnamed/part_002) *)

Module OrderPageState.
Import OrderItems.

Section Page.
Context {A : Type} `{JsNumber A}.
Variable fetchVariantMetafields :
  string → list (option string) → list MetafieldConfig → gmap string (gmap string string).
Variable gen_id : nat → string.
Variable default_is_validated : bool.
Variable default_is_printed : bool.
Variable absent_unit_price absent_line_total : A.

(** Division and the number an array length is, for [progress]. *)
Variable num_div : A → A → A.
Variable num_of_nat : nat → A.

Local Abbreviation handle := (OrderItems.handle (A := A) fetchVariantMetafields gen_id
                                default_is_validated default_is_printed
                                absent_unit_price absent_line_total).

(** ** The totals the page shows *)

Record Totals := {
  totals_subtotal : A;
  totalHt : A;
  totalTtc : A;
  validatedCount : nat;
  progress : A;
  totalItems : nat;
}.

(** The [useMemo] of [totals]: the items are those of the state of the
    page, rows of supplier_order_items as the order route returned them. *)
Definition totals (items : list OrderItem) (balanceAdjustment : A) : Totals :=
  let validatedItems := filter (λ i, is_validated i) items in
  let subtotal' := foldl (λ sum item, num_add sum (line_total item)) num_0 validatedItems in
  let totalHt' := num_add subtotal' balanceAdjustment in
  let totalTtc' := num_mul totalHt' num_1_2 in
  let validatedCount' := length validatedItems in
  let progress' :=
    if Nat.ltb 0 (length items)
    then num_mul (num_div (num_of_nat validatedCount') (num_of_nat (length items)))
                 (num_of_nat 100)
    else num_0 in
  {| totals_subtotal := subtotal'; totalHt := totalHt'; totalTtc := totalTtc';
     validatedCount := validatedCount'; progress := progress';
     totalItems := length items |}.

(** [setBalanceAdjustment(data.order.balance_adjustment || 0)] of [fetchOrder] *)
Definition loaded_balance (order : SupplierOrder) : A :=
  js_or0 (Some (balance_adjustment order)).

Lemma page_subtotal (items : list OrderItem) (acc : A) :
  Forall (λ item, plain (line_total item)) items →
  foldl (λ sum item, num_add sum (line_total item)) acc items
  = foldl (λ sum item, num_add sum (js_or0 (Some (line_total item)))) acc items.
Proof.
  intros Hall. revert acc. induction Hall as [|item items Hp _ IH]; intros acc; [done|].
  cbn [foldl]. rewrite (js_or0_plain _ Hp). apply IH.
Qed.

(** The page and the route compute the totals each on its side.  After a
    request that makes the route recompute them, the page, once it has
    reloaded the items and the balance of the order, shows the totals the
    route has stored: the same subtotal, total_ht and total_ttc.  The
    line totals of the validated items and their sum are ordinary
    numbers (no NaN, no negative zero), on which [x || 0] is [x]. *)
Theorem page_shows_stored_totals (w : World) (orderId shopId : string) (req : Request)
    (st st' : Store) (resp : Response) (o : SupplierOrder) :
  handle w orderId req st = (resp, st') →
  recomputed req resp →
  request_shopId req = Some shopId →
  NoDup (so_id <$> supplier_orders st) →
  o ∈ supplier_orders st' → so_id o = orderId → so_shop_id o = shopId →
  let items := select_order_items orderId st' in
  let shown := totals items (loaded_balance o) in
  Forall (λ item, plain (line_total item)) (filter (λ i, is_validated i) items) →
  plain (totals_subtotal shown) →
  totals_subtotal shown = subtotal o ∧ totalHt shown = total_ht o
  ∧ totalTtc shown = total_ttc o.
Proof.
  intros Hrun Hrec Hshop Hnd Hin Hid Hsid items shown Hall Hsum.
  destruct (handle_ends_in_totals _ _ _ _ _ _ _ _ _ _ _ _ _ Hrun Hrec Hshop)
    as (st1 & Hord & Hst').
  rewrite <- Hord in Hnd.
  assert (Hitems : select_order_items orderId st' = select_order_items orderId st1).
  { destruct Hst' as [-> | ->]; reflexivity. }
  assert (Hrow : subtotal o = js_or0 (Some (validated_sum (select_order_items orderId st1)))
                 ∧ total_ht o = num_add (subtotal o) (js_or0 (Some (balance_adjustment o)))
                 ∧ total_ttc o = num_mul (total_ht o) num_1_2).
  { destruct Hst' as [-> | ->].
    - by apply (updateOrderTotals_row w orderId shopId st1).
    - apply mark_in_progress_row in Hin
        as (o0 & Hin0 & Hid0 & Hsid0 & Hsub & Hb & Hht & Httc).
      rewrite Hid0 in Hid. rewrite Hsid0 in Hsid. rewrite Hsub, Hb, Hht, Httc.
      by apply (updateOrderTotals_row w orderId shopId st1). }
  destruct Hrow as (Hs & Hh & Ht).
  assert (Hsub : totals_subtotal shown = subtotal o).
  { rewrite Hs. unfold shown, totals, validated_sum. cbn [totals_subtotal].
    subst items. rewrite <- Hitems, <- page_subtotal by done.
    symmetry. apply js_or0_plain. exact Hsum. }
  split; [exact Hsub|].
  assert (Hht : totalHt shown = total_ht o).
  { rewrite Hh, <- Hsub. reflexivity. }
  split; [exact Hht|]. rewrite Ht, <- Hht. reflexivity.
Qed.

(** ** The local updates of the page *)

(** [response.ok] *)
Definition response_ok (resp : Response (A := A)) : bool :=
  match resp with
  | JsonError _ _ => false
  | _ => true
  end.

(** The page, the store it talks to, and the requests it has sent to the
    route so far, in their order. *)
Record Screen := {
  items : list (OrderItem (A := A));
  store : Store (A := A);
  page_requests : list (Request (A := A));
}.

(** [{ ...i, is_validated: isValidated,
       validated_at: isValidated ? new Date().toISOString() : null }] *)
Definition with_validation (isValidated : bool) (clock : string) (i : OrderItem (A := A))
    : OrderItem (A := A) :=
  {| item_id := item_id i;
     order_id := order_id i;
     variant_id := variant_id i;
     product_title := product_title i;
     variant_title := variant_title i;
     sku := sku i;
     quantity := quantity i;
     unit_price := unit_price i;
     line_total := line_total i;
     is_validated := isValidated;
     validated_at := if isValidated then Some clock else None;
     is_printed := is_printed i;
     printed_at := printed_at i;
     metafields := metafields i;
     item_updated_at := item_updated_at i |}.

(** [toggleValidation(itemId, isValidated)], [currentShop] being set;
    [clock] is the clock of the browser. *)
Definition toggleValidation (w : World) (clock : string) (orderId shopId itemId : string)
    (isValidated : bool) (s : Screen) : Screen :=
  let request :=
    ReqPUT {| put_shopId := Some shopId; put_itemId := Some itemId;
              put_is_validated := Some isValidated; put_is_printed := None;
              put_quantity := None; put_unit_price := None; put_action := None |} in
  let '(response, st') := handle w orderId request (store s) in
  {| items :=
       if response_ok response
       then (λ i, if bool_decide (item_id i = itemId)
                  then with_validation isValidated clock i else i) <$> items s
       else items s;
     store := st';
     page_requests := page_requests s ++ [request] |}.

(** [deleteItem(itemId)], [currentShop] being set. *)
Definition deleteItem (w : World) (orderId shopId itemId : string) (s : Screen) : Screen :=
  let '(response, st') :=
    handle w orderId (ReqDELETE (Some itemId) (Some shopId)) (store s) in
  {| items :=
       if response_ok response
       then filter (λ i, item_id i ≠ itemId) (items s)
       else items s;
     store := st';
     page_requests := page_requests s ++ [ReqDELETE (Some itemId) (Some shopId)] |}.

(** What the page shows of an item, the dates left out: the page and the
    route each read their own clock. *)
Definition shown (i : OrderItem (A := A)) :=
  (item_id i, variant_id i, product_title i, variant_title i, sku i,
   quantity i, unit_price i, line_total i, is_validated i, is_printed i, metafields i).

(** The page shows the items the store holds for the order. *)
Definition in_sync (orderId : string) (s : Screen) : Prop :=
  shown <$> items s = shown <$> select_order_items orderId (store s).

Lemma filter_order_update (orderId : string) (g : OrderItem (A := A) → OrderItem (A := A))
    (rows : list OrderItem) :
  (∀ r, order_id (g r) = order_id r) →
  filter (λ item, order_id item = orderId) (g <$> rows)
  = g <$> filter (λ item, order_id item = orderId) rows.
Proof.
  intros Hg. induction rows as [|x rows IH]; [done|].
  rewrite fmap_cons, !filter_cons, Hg. case_decide; [rewrite fmap_cons|]; by rewrite IH.
Qed.

Lemma filter_shown_id (itemId : string) (l : list (OrderItem (A := A))) :
  shown <$> filter (λ i, item_id i ≠ itemId) l
  = filter (λ c, c.1.1.1.1.1.1.1.1.1.1 ≠ itemId) (shown <$> l).
Proof.
  induction l as [|x l IH]; [done|].
  rewrite fmap_cons, !filter_cons. simpl.
  case_decide; [rewrite fmap_cons|]; by rewrite IH.
Qed.

Lemma toggleValidation_in_sync (w : World) (clock : string) (orderId shopId itemId : string)
    (isValidated : bool) (s : Screen) :
  in_sync orderId s →
  in_sync orderId (toggleValidation w clock orderId shopId itemId isValidated s).
Proof.
  unfold in_sync, toggleValidation. intros Hsync. cbv zeta.
  destruct (handle w orderId _ (store s)) as [response st'] eqn:Hrun. cbn [items store].
  destruct response as [l | item' | m | | c e]; cbn [response_ok];
    try (simpl in Hrun; unfold PUT, PUT_update_item in Hrun; cbn in Hrun; exfalso;
         destruct (_ || _); [discriminate|];
         destruct (db_error w); [discriminate|];
         destruct (select_item itemId (store s)); [|discriminate];
         discriminate).
  - simpl in Hrun. unfold PUT, PUT_update_item in Hrun.
    cbn [put_action put_shopId put_itemId put_quantity put_unit_price put_is_validated] in Hrun.
    destruct (_ || _); [discriminate|].
    destruct (db_error w); [discriminate|].
    destruct (select_item itemId (store s)) as [item|]; [|discriminate].
    rewrite bool_decide_eq_true_2 in Hrun by (right; right; by eexists).
    injection Hrun as _ <-. unfold select_order_items.
    rewrite updateOrderTotals_items. unfold db_update_items. cbn [set_items supplier_order_items].
    rewrite filter_order_update by (intros r; by case_bool_decide).
    fold (select_order_items orderId (store s)).
    rewrite <- !list_fmap_compose.
    assert (Hcols : ∀ l1 l2 : list OrderItem, shown <$> l1 = shown <$> l2 →
              (shown ∘ (λ i, if bool_decide (item_id i = itemId)
                             then with_validation isValidated clock i else i)) <$> l1
              = (shown ∘ (λ it, if bool_decide (item_id it = itemId)
                                then apply_update
                                       (build_updateData w itemId
                                          {| put_shopId := Some shopId;
                                             put_itemId := Some itemId;
                                             put_is_validated := Some isValidated;
                                             put_is_printed := None;
                                             put_quantity := None;
                                             put_unit_price := None;
                                             put_action := None |} (store s)) it
                                else it)) <$> l2).
    { induction l1 as [|x l1 IH]; intros [|y l2] Heq; try done.
      rewrite !fmap_cons in *. injection Heq as Hxy Hrest. f_equal; [|by apply IH].
      unfold shown in Hxy. simplify_eq. simpl.
      destruct (decide (item_id x = itemId)) as [Hx | Hx].
      - assert (item_id y = itemId) as Hy by congruence.
        rewrite (bool_decide_eq_true_2 _ Hx), (bool_decide_eq_true_2 _ Hy).
        unfold shown, with_validation, apply_update, build_updateData. simpl. congruence.
      - assert (item_id y ≠ itemId) as Hy by congruence.
        rewrite (bool_decide_eq_false_2 _ Hx), (bool_decide_eq_false_2 _ Hy).
        unfold shown. congruence. }
    by apply Hcols.
  - apply OrderItemsFacts.handle_error_store in Hrun as ->. done.
Qed.

Lemma deleteItem_in_sync (w : World) (orderId shopId itemId : string) (s : Screen) :
  in_sync orderId s → in_sync orderId (deleteItem w orderId shopId itemId s).
Proof.
  unfold in_sync, deleteItem. intros Hsync.
  destruct (handle w orderId _ (store s)) as [response st'] eqn:Hrun. cbn [items store].
  simpl in Hrun. unfold DELETE in Hrun.
  destruct (_ || _); [by simplify_eq|].
  destruct (db_error w); [by simplify_eq|].
  simplify_eq. cbn [response_ok]. unfold select_order_items.
  rewrite updateOrderTotals_items. cbn [set_items supplier_order_items].
  assert (Hrows : filter (λ item, order_id item = orderId)
                     (filter (λ it, item_id it ≠ itemId) (supplier_order_items (store s)))
                   = filter (λ it, item_id it ≠ itemId)
                       (filter (λ item, order_id item = orderId)
                          (supplier_order_items (store s)))).
  { rewrite !list_filter_filter. apply list_filter_iff. intros x; split; intros [? ?]; done. }
  rewrite Hrows. fold (select_order_items orderId (store s)).
  by rewrite !filter_shown_id, Hsync.
Qed.

(** What the user does on an item of the page. *)
Inductive Gesture :=
| Validate (itemId : string) (isValidated : bool)
| Remove (itemId : string).

(** A gesture, with the instant of the store and of the browser. *)
Definition perform (orderId shopId : string) (s : Screen) (g : World * string * Gesture)
    : Screen :=
  match g with
  | (w, clock, Validate itemId isValidated) =>
    toggleValidation w clock orderId shopId itemId isValidated s
  | (w, clock, Remove itemId) => deleteItem w orderId shopId itemId s
  end.

(** The page updates its items itself after a validation or a delete,
    without reading them back.  Starting from the items of the order as
    the store holds them, and whatever the sequence of validations and
    deletes, accepted or refused by the route, the page goes on showing
    the items the store holds for the order: the same rows in the same
    order, with the same variant, titles, quantity, prices, validation
    and print flags and metafields. *)
Theorem page_follows_store (orderId shopId : string) (s : Screen)
    (gestures : list (World * string * Gesture)) :
  in_sync orderId s →
  in_sync orderId (foldl (perform orderId shopId) s gestures).
Proof.
  revert s. induction gestures as [|[[w clock] g] gestures IH]; intros s Hsync; [done|].
  cbn [foldl]. apply IH. destruct g as [itemId isValidated | itemId]; simpl.
  - by apply toggleValidation_in_sync.
  - by apply deleteItem_in_sync.
Qed.

(** ** Adding the selected variants *)

(** A variant of a product card, the fields the page reads. *)
Record CardVariant := {
  card_id : string;
  supabaseId : option string;
  card_title : option string;
  card_sku : option string;
}.

Record ProductData := {
  card_product_title : string;
  variants : list CardVariant;
}.

(** [for (const product of products) {
       const variant = product.variants.find(v => v.id === variantId);
       if (variant) return { .. };
     }
     return null;] *)
Fixpoint find_entry (products : list ProductData) (variantId : string) (quantity' : Z)
    : option ItemRequest :=
  match products with
  | [] => None
  | product :: rest =>
    match list_find (λ v, card_id v = variantId) (variants product) with
    | Some (_, variant) =>
      Some {| req_variant_id := supabaseId variant;
              req_product_title := card_product_title product;
              req_variant_title := card_title variant;
              req_sku := card_sku variant;
              req_quantity := Some (inject_Z quantity') |}
    | None => find_entry rest variantId quantity'
    end
  end.

(** [Object.entries(selectedVariants).filter(([_, qty]) => qty > 0)
       .map(..).filter(Boolean)]; the entries come in the order of
    [Object.entries]. *)
Definition variantsToAdd (selectedVariants : list (string * Z)) (products : list ProductData)
    : list ItemRequest :=
  omap (λ e : string * Z, find_entry products e.1 e.2)
       (filter (λ e : string * Z, 0 < e.2) selectedVariants).

(** What [addSelectedVariants] notifies. *)
Inductive Notification :=
| SelectAtLeastOne
| ItemsAdded (count : nat).

(** [addSelectedVariants()], [currentShop] being set:
    [if (!currentShop || !orderId) return;], then the entries, then the
    request when there is one to make. *)
Definition addSelectedVariants (w : World) (orderId shopId : string)
    (selectedVariants : list (string * Z)) (products : list ProductData)
    (st : Store (A := A)) : option Notification * Store :=
  let toAdd := variantsToAdd selectedVariants products in
  if negb (js_string_truthy (Some orderId)) then (None, st)
  else if bool_decide (length toAdd = 0%nat) then (Some SelectAtLeastOne, st)
  else
    let '(response, st') :=
      handle w orderId
        (ReqPOST {| post_shopId := Some shopId; post_items := Some toAdd |}) st in
    (if response_ok response then Some (ItemsAdded (length toAdd)) else None, st').

Lemma variantsToAdd_positive (selectedVariants : list (string * Z))
    (products : list ProductData) :
  Forall (λ item, ∃ q, req_quantity item = Some (inject_Z q) ∧ 0 < q)
         (variantsToAdd selectedVariants products).
Proof.
  unfold variantsToAdd. apply Forall_forall. intros item Hin.
  apply list_elem_of_omap in Hin as ([variantId q] & Hin & Hfind).
  apply list_elem_of_filter in Hin as [Hq _]. simpl in *.
  exists q. split; [|done]. clear Hq.
  induction products as [|product rest IH]; [done|]. simpl in Hfind.
  destruct (list_find _ _) as [[i variant]|]; [by simplify_eq|]. by apply IH.
Qed.

(** The page sends the selected variants whose quantity is positive and
    that it finds among the product cards; the route then inserts one row
    per unit: as many rows as the sum of these quantities, all under the
    order, while the page announces the number of variants.  With nothing
    to send, no request is made. *)
Theorem selected_units_added (w : World) (orderId shopId : string)
    (selectedVariants : list (string * Z)) (products : list ProductData) (st : Store) :
  shopId ≠ "" → orderId ≠ "" → db_error w = None →
  let toAdd := variantsToAdd selectedVariants products in
  let out := addSelectedVariants w orderId shopId selectedVariants products st in
  (toAdd = [] → out = (Some SelectAtLeastOne, st))
  ∧ (toAdd ≠ [] →
     out.1 = Some (ItemsAdded (length toAdd))
     ∧ ∃ inserted,
         supplier_order_items out.2 = supplier_order_items st ++ inserted
         ∧ (inject_Z (Z.of_nat (length inserted))
            == foldr Qplus 0 ((λ item, default 0 (req_quantity item)) <$> toAdd))%Q
         ∧ Forall (λ r, order_id r = orderId ∧ quantity r = num_1) inserted).
Proof.
  intros Hs Ho Herr toAdd out.
  assert (Horder : negb (js_string_truthy (Some orderId)) = false).
  { apply String.eqb_neq in Ho. simpl. by rewrite Ho. }
  split.
  - intros Hnil. unfold out, addSelectedVariants. fold toAdd. by rewrite Horder, Hnil.
  - intros Hne. unfold out, addSelectedVariants. fold toAdd. rewrite Horder.
    rewrite bool_decide_eq_false_2 by (by destruct toAdd).
    destruct (OrderItemsFacts.POST_rows fetchVariantMetafields gen_id default_is_validated
                default_is_printed absent_unit_price absent_line_total
                w orderId shopId toAdd st Hs Ho Herr)
      as (inserted & st' & Hpost & Hitems & Hlen & _ & Hall).
    cbn [OrderItems.handle]. rewrite Hpost. cbn [fst snd response_ok].
    split; [done|]. exists inserted. split; [done|]. split.
    + rewrite Hlen. pose proof (variantsToAdd_positive selectedVariants products) as Hpos.
      fold toAdd in Hpos. clear -Hpos.
      induction Hpos as [|item l (q & Hq & Hq0) _ IH]; [done|].
      rewrite fmap_cons. cbn [sum_list_with foldr].
      rewrite Nat2Z.inj_add, inject_Z_plus, IH, Hq. cbn [default].
      rewrite (requested_units_integer item (inject_Z q) q Hq) by (reflexivity || lia).
      rewrite Z2Nat.id by lia. reflexivity.
    + eapply Forall_impl; [exact Hall|]. by intros r (? & ? & _).
Qed.

(** ** The print sheet (src/src/app/ivy/commandes/stock/[orderId]/impression/page.tsx) *)

(** [{ ...item, is_printed: printed,
       printed_at: printed ? new Date().toISOString() : null }] *)
Definition with_print (printed : bool) (clock : string) (i : OrderItem (A := A))
    : OrderItem (A := A) :=
  {| item_id := item_id i;
     order_id := order_id i;
     variant_id := variant_id i;
     product_title := product_title i;
     variant_title := variant_title i;
     sku := sku i;
     quantity := quantity i;
     unit_price := unit_price i;
     line_total := line_total i;
     is_validated := is_validated i;
     validated_at := validated_at i;
     is_printed := printed;
     printed_at := if printed then Some clock else None;
     metafields := metafields i;
     item_updated_at := item_updated_at i |}.

Definition print_body (shopId itemId : string) (printed : bool) : PutBody (A := A) :=
  {| put_shopId := Some shopId; put_itemId := Some itemId;
     put_is_validated := None; put_is_printed := Some printed;
     put_quantity := None; put_unit_price := None; put_action := None |}.

(** The request of [togglePrinted] and what the page does with the answer. *)
Definition send_printed (w : World) (clock : string) (orderId shopId itemId : string)
    (printed : bool) (s : Screen) : Screen :=
  let '(response, st') :=
    handle w orderId (ReqPUT (print_body shopId itemId printed)) (store s) in
  {| items :=
       if response_ok response
       then (λ i, if bool_decide (item_id i = itemId) then with_print printed clock i else i)
              <$> items s
       else items s;
     store := st';
     page_requests := page_requests s ++ [ReqPUT (print_body shopId itemId printed)] |}.

(** [togglePrinted(itemId, printed)], [currentShop] being set:
    [if (!currentShop || !orderId) return;] and then the request. *)
Definition togglePrinted (w : World) (clock : string) (orderId shopId itemId : string)
    (printed : bool) (s : Screen) : Screen :=
  if negb (js_string_truthy (Some orderId)) then s
  else send_printed w clock orderId shopId itemId printed s.

(** [for (const item of groupItems)
       if (item.is_printed !== printed) await togglePrinted(item.id, printed);]
    [groupItems] are items of the render the gesture was made on;
    [instants n] gives the instant of the store and of the browser at the
    turn [n] of the loop. *)
Fixpoint toggleGroupPrinted (instants : nat → World * string) (n : nat)
    (orderId shopId : string) (groupItems : list (OrderItem (A := A))) (printed : bool)
    (s : Screen) : Screen :=
  match groupItems with
  | [] => s
  | item :: rest =>
    let s' :=
      if bool_decide (is_printed item ≠ printed)
      then togglePrinted (instants n).1 (instants n).2 orderId shopId (item_id item) printed s
      else s in
    toggleGroupPrinted instants (S n) orderId shopId rest printed s'
  end.

Lemma select_item_unique (st : Store (A := A)) (r : OrderItem) :
  NoDup (item_id <$> supplier_order_items st) → r ∈ supplier_order_items st →
  select_item (item_id r) st = Some r.
Proof.
  intros Hnd Hr. unfold select_item.
  pose proof (filter_id_NoDup _ r (λ _, True) Hnd Hr I) as Hf.
  rewrite (OrderItemsFacts.filter_all (λ _, True)) in Hf by (by apply Forall_forall).
  by rewrite Hf.
Qed.

(** What one [togglePrinted] does, whatever the route answers. *)
Lemma togglePrinted_step (w : World) (clock : string) (orderId shopId itemId : string)
    (printed : bool) (s : Screen) :
  let s' := togglePrinted w clock orderId shopId itemId printed s in
  supplier_orders (store s') = supplier_orders (store s)
  ∧ item_id <$> supplier_order_items (store s') = item_id <$> supplier_order_items (store s)
  ∧ (in_sync orderId s → in_sync orderId s')
  ∧ (items s' = items s
     ∨ items s' = (λ i, if bool_decide (item_id i = itemId)
                        then with_print printed clock i else i) <$> items s)
  ∧ (shopId ≠ "" → orderId ≠ "" → itemId ≠ "" → db_error w = None →
     NoDup (item_id <$> supplier_order_items (store s)) →
     itemId ∈ item_id <$> supplier_order_items (store s) →
     items s' = (λ i, if bool_decide (item_id i = itemId)
                      then with_print printed clock i else i) <$> items s).
Proof.
  cbv zeta. unfold togglePrinted.
  destruct (negb (js_string_truthy (Some orderId))) eqn:Horder.
  { split_and!; try done; [by left|]. intros _ Ho. apply String.eqb_neq in Ho.
    cbn [js_string_truthy] in Horder. by rewrite Ho in Horder. }
  unfold send_printed.
  destruct (handle w orderId (ReqPUT (print_body shopId itemId printed)) (store s))
    as [response st'] eqn:Hrun. cbn [items store].
  simpl in Hrun. unfold PUT, PUT_update_item in Hrun.
  cbn [print_body put_action put_shopId put_itemId put_quantity put_unit_price
       put_is_validated] in Hrun.
  destruct (negb (js_string_truthy (Some shopId)) || negb (js_string_truthy (Some orderId))
            || negb (js_string_truthy (Some itemId))) eqn:Hfields.
  { simplify_eq. cbn [response_ok]. split_and!; try done; [by left|].
    intros Hs Ho Hi. apply String.eqb_neq in Hs, Ho, Hi.
    cbn [js_string_truthy] in Hfields. by rewrite Hs, Ho, Hi in Hfields. }
  destruct (db_error w) as [message|] eqn:Herr.
  { simplify_eq. cbn [response_ok]. split_and!; try done. by left. }
  destruct (select_item itemId (store s)) as [item|] eqn:Hsel.
  - rewrite bool_decide_eq_false_2 in Hrun.
    2:{ intros [[? ?] | [[? ?] | [? ?]]]; discriminate. }
    simplify_eq. cbn [response_ok].
    split; [done|]. split.
    { unfold db_update_items. cbn [set_items supplier_order_items].
      rewrite <- list_fmap_compose. apply list_fmap_ext. intros i r _. simpl.
      by case_bool_decide. }
    split; [|split; [by right|done]].
    unfold in_sync. cbn [items store]. intros Hsync.
    unfold select_order_items, db_update_items. cbn [set_items supplier_order_items].
    rewrite filter_order_update by (intros r; by case_bool_decide).
    fold (select_order_items orderId (store s)).
    rewrite <- !list_fmap_compose. revert Hsync.
    generalize (select_order_items orderId (store s)) as l2.
    generalize (items s) as l1.
    induction l1 as [|x l1 IH]; intros [|y l2] Heq; try done.
    rewrite !fmap_cons in *. injection Heq as Hxy Hrest. f_equal; [|by apply IH].
    unfold shown in Hxy. simplify_eq. simpl.
    destruct (decide (item_id x = itemId)) as [Hx | Hx].
    + assert (item_id y = itemId) as Hy by congruence.
      rewrite (bool_decide_eq_true_2 _ Hx), (bool_decide_eq_true_2 _ Hy).
      unfold shown, with_print, apply_update, build_updateData. simpl. congruence.
    + assert (item_id y ≠ itemId) as Hy by congruence.
      rewrite (bool_decide_eq_false_2 _ Hx), (bool_decide_eq_false_2 _ Hy).
      unfold shown. congruence.
  - simplify_eq. cbn [response_ok]. split_and!; try done; [by left|].
    intros _ _ _ _ Hnd Hin. exfalso.
    apply list_elem_of_fmap in Hin as (r & -> & Hr).
    by rewrite (select_item_unique _ r Hnd Hr) in Hsel.
Qed.

Lemma Forall2_both {X Y : Type} (P Q : X → Y → Prop) (l : list X) (l' : list Y) :
  Forall2 P l l' → Forall2 Q l l' → Forall2 (λ x y, P x y ∧ Q x y) l l'.
Proof.
  intros HP. induction HP as [|x y l l' Hxy _ IH]; intros HQ; [constructor|].
  inversion HQ; subst. constructor; [done|by apply IH].
Qed.

(** The request of every [togglePrinted] is sent. *)
Lemma togglePrinted_request (w : World) (clock : string) (orderId shopId itemId : string)
    (printed : bool) (s : Screen) :
  orderId ≠ "" →
  page_requests (togglePrinted w clock orderId shopId itemId printed s)
  = page_requests s ++ [ReqPUT (print_body shopId itemId printed)].
Proof.
  intros Ho. apply String.eqb_neq in Ho. unfold togglePrinted.
  cbn [js_string_truthy]. rewrite Ho. cbn [negb]. unfold send_printed.
  by destruct (handle w orderId _ (store s)).
Qed.

(** An item of the page before and after the gesture on a group: the
    same item, its validation untouched; its print flag as asked when the
    item is of the group; the item as it was when it is not. *)
Definition marked (printed : bool) (group : list string) (i i' : OrderItem (A := A)) : Prop :=
  item_id i' = item_id i ∧ is_validated i' = is_validated i
  ∧ (item_id i ∈ group → is_printed i' = printed)
  ∧ (item_id i ∉ group → i' = i).

(** The updates the gesture sends: one for each item of the group whose
    flag differs, in the order of the group. *)
Definition updates_sent (shopId : string) (groupItems : list (OrderItem (A := A)))
    (printed : bool) : list (Request (A := A)) :=
  (λ item, ReqPUT (print_body shopId (item_id item) printed))
    <$> filter (λ item, is_printed item ≠ printed) groupItems.

Lemma toggleGroupPrinted_marks (instants : nat → World * string) (n : nat)
    (orderId shopId : string) (groupItems : list OrderItem) (printed : bool) (s : Screen) :
  shopId ≠ "" → orderId ≠ "" → (∀ n, db_error (instants n).1 = None) →
  NoDup (item_id <$> supplier_order_items (store s)) →
  in_sync orderId s →
  (∀ g, g ∈ groupItems →
        item_id g ≠ "" ∧ item_id g ∈ item_id <$> supplier_order_items (store s)
        ∧ ∀ i, i ∈ items s → item_id i = item_id g →
               is_printed i = is_printed g ∨ is_printed i = printed) →
  let s' := toggleGroupPrinted instants n orderId shopId groupItems printed s in
  in_sync orderId s'
  ∧ supplier_orders (store s') = supplier_orders (store s)
  ∧ Forall2 (marked printed (item_id <$> groupItems)) (items s) (items s')
  ∧ Forall2 (λ i i', is_printed i' = is_printed i ∨ is_printed i' = printed)
            (items s) (items s')
  ∧ page_requests s' = page_requests s ++ updates_sent shopId groupItems printed.
Proof.
  intros Hs Ho Herr. revert n s.
  induction groupItems as [|g rest IH]; intros n s Hnd Hsync Hgroup; cbv zeta.
  - simpl. split; [done|]. split; [done|]. split.
    { apply Forall_Forall2_diag, Forall_forall. intros i _. unfold marked.
      split_and!; try done. intros Hin. by apply elem_of_nil in Hin. }
    split; [|by rewrite app_nil_r].
    apply Forall_Forall2_diag, Forall_forall. intros i _. by left.
  - cbn [toggleGroupPrinted].
    destruct (Hgroup g) as (Hgid & Hgrow & Hgflag); [left|].
    set (s1 := if bool_decide (is_printed g ≠ printed)
               then togglePrinted (instants n).1 (instants n).2 orderId shopId
                                  (item_id g) printed s
               else s).
    assert (Hstep : supplier_orders (store s1) = supplier_orders (store s)
                    ∧ item_id <$> supplier_order_items (store s1)
                      = item_id <$> supplier_order_items (store s)
                    ∧ in_sync orderId s1
                    ∧ Forall2 (λ i i1, item_id i1 = item_id i
                                 ∧ is_validated i1 = is_validated i
                                 ∧ (is_printed i1 = is_printed i ∨ is_printed i1 = printed)
                                 ∧ (item_id i = item_id g → is_printed i1 = printed)
                                 ∧ (item_id i ≠ item_id g → i1 = i))
                              (items s) (items s1)
                    ∧ page_requests s1
                      = page_requests s ++ updates_sent shopId [g] printed).
    { unfold s1, updates_sent. rewrite filter_cons, filter_nil. case_bool_decide as Hflag.
      - destruct (togglePrinted_step (instants n).1 (instants n).2 orderId shopId
                    (item_id g) printed s) as (Hord & Hids & Hin_sync & _ & Hok).
        split; [done|]. split; [done|]. split; [by apply Hin_sync|].
        rewrite decide_True by done. split; [|by apply togglePrinted_request].
        rewrite Hok by done. apply Forall2_fmap_r, Forall_Forall2_diag, Forall_forall.
        intros i _. unfold compose.
        destruct (decide (item_id i = item_id g)) as [Hi | Hi].
        + rewrite (bool_decide_eq_true_2 _ Hi). simpl. split_and!; try done. by right.
        + rewrite (bool_decide_eq_false_2 _ Hi). split_and!; try done. by left.
      - split; [done|]. split; [done|]. split; [done|].
        rewrite decide_False by (intros Hne; by apply Hne). split; [|by rewrite app_nil_r].
        apply Forall_Forall2_diag, Forall_forall. intros i Hi.
        split_and!; try done; [by left|]. intros Hid.
        destruct (Hgflag i Hi Hid) as [Hsame | Hp]; [|done].
        rewrite Hsame. destruct (decide (is_printed g = printed)); [done|].
        by destruct Hflag. }
    destruct Hstep as (Hord1 & Hids1 & Hsync1 & Hitems1 & Hreq1).
    destruct (IH (S n) s1) as (Hsync' & Hord' & Hitems' & Hflags' & Hreq').
    { by rewrite Hids1. }
    { done. }
    { intros g' Hg'. destruct (Hgroup g') as (Hid' & Hrow' & Hflag'); [by right|].
      split; [done|]. split; [by rewrite Hids1|].
      intros i1 Hi1 Hid1.
      apply list_elem_of_lookup in Hi1 as [k Hk].
      rewrite Forall2_lookup in Hitems1. specialize (Hitems1 k). rewrite Hk in Hitems1.
      inversion Hitems1 as [i ? (Hi_id & _ & Hi_flag & _) Hki|]; subst.
      assert (Hi : i ∈ items s) by (apply list_elem_of_lookup; by exists k).
      destruct (Hflag' i Hi) as [Hsame | Hp]; [congruence| |].
      - destruct Hi_flag as [-> | ->]; [by left|by right].
      - destruct Hi_flag as [-> | ->]; by right. }
    cbv zeta in Hsync', Hord', Hitems', Hflags', Hreq'.
    split; [done|]. split; [congruence|]. split; [|split].
    + pose proof (Forall2_both _ _ _ _ Hitems' Hflags') as Hboth.
      eapply Forall2_trans; [|exact Hitems1|exact Hboth].
      intros i i1 i' (Hid1 & Hv1 & Hf1 & Hg1 & Hother1)
        ((Hid' & Hv' & Hrest' & Hother') & Hf').
      unfold marked. split; [congruence|]. split; [congruence|]. rewrite fmap_cons. split.
      * intros Hin.
        destruct (decide (item_id i ∈ item_id <$> rest)) as [Hr | Hr].
        -- apply Hrest'. by rewrite Hid1.
        -- rewrite Hother' by (by rewrite Hid1).
           apply elem_of_cons in Hin as [Hin | Hin]; [by apply Hg1|by destruct Hr].
      * intros Hout. apply not_elem_of_cons in Hout as [Hne Hout].
        rewrite Hother' by (by rewrite Hid1). by apply Hother1.
    + eapply Forall2_trans; [|exact Hitems1|exact Hflags'].
      intros i i1 i' (_ & _ & Hf1 & _) Hf'.
      destruct Hf' as [-> | ->]; [done|by right].
    + rewrite Hreq', Hreq1, <- app_assoc. f_equal.
      unfold updates_sent. rewrite <- fmap_app. f_equal.
      rewrite (filter_cons _ g rest), filter_cons, filter_nil.
      by case_decide.
Qed.

Lemma NoDup_fmap_filter {X Y : Type} (f : X → Y) (P : X → Prop) `{∀ x, Decision (P x)}
    (l : list X) :
  NoDup (f <$> l) → NoDup (f <$> filter P l).
Proof.
  induction l as [|x l IH]; intros Hnd; [done|].
  rewrite fmap_cons in Hnd. apply NoDup_cons in Hnd as [Hx Hnd].
  rewrite filter_cons. case_decide; [|by apply IH].
  rewrite fmap_cons. apply NoDup_cons. split; [|by apply IH].
  intros Hin. apply Hx. apply list_elem_of_fmap in Hin as (y & -> & Hy).
  apply list_elem_of_filter in Hy as [_ Hy]. by apply list_elem_of_fmap_2.
Qed.

Lemma NoDup_fmap_eq {X Y : Type} (f : X → Y) (l : list X) (x y : X) :
  NoDup (f <$> l) → x ∈ l → y ∈ l → f x = f y → x = y.
Proof.
  induction l as [|z l IH]; intros Hnd Hx Hy Heq; [by apply elem_of_nil in Hx|].
  rewrite fmap_cons in Hnd. apply NoDup_cons in Hnd as [Hz Hnd].
  apply elem_of_cons in Hx as [-> | Hx]; apply elem_of_cons in Hy as [-> | Hy].
  - done.
  - exfalso. apply Hz. rewrite Heq. by apply list_elem_of_fmap_2.
  - exfalso. apply Hz. rewrite <- Heq. by apply list_elem_of_fmap_2.
  - by apply IH.
Qed.

(** Marking a group of the print sheet: the page sends one update per
    item of the group whose flag differs, in the order of the group, and
    no other request.  When the store accepts them, every item of the
    group ends up with the flag asked, on the page and in the store, which
    stay in step; the other items stay as they were, on the page and in
    the store; no validation changes, and the orders, with their totals,
    are not written. *)
Theorem group_marked_printed (instants : nat → World * string) (orderId shopId : string)
    (groupItems : list OrderItem) (printed : bool) (s : Screen) :
  shopId ≠ "" → orderId ≠ "" → (∀ n, db_error (instants n).1 = None) →
  NoDup (item_id <$> supplier_order_items (store s)) →
  in_sync orderId s →
  (∀ g, g ∈ groupItems → g ∈ items s ∧ item_id g ≠ "") →
  let s' := toggleGroupPrinted instants 0 orderId shopId groupItems printed s in
  in_sync orderId s'
  ∧ supplier_orders (store s') = supplier_orders (store s)
  ∧ page_requests s'
    = page_requests s
      ++ ((λ item, ReqPUT (print_body shopId (item_id item) printed))
            <$> filter (λ item, is_printed item ≠ printed) groupItems)
  ∧ Forall2 (marked printed (item_id <$> groupItems)) (items s) (items s')
  ∧ (∀ r, r ∈ select_order_items orderId (store s') →
          item_id r ∈ item_id <$> groupItems → is_printed r = printed)
  ∧ (∀ r, r ∈ select_order_items orderId (store s') →
          item_id r ∉ item_id <$> groupItems →
          ∃ r0, r0 ∈ select_order_items orderId (store s) ∧ shown r = shown r0).
Proof.
  intros Hs Ho Herr Hnd Hsync Hgroup s'.
  assert (Hids : item_id <$> items s = item_id <$> select_order_items orderId (store s)).
  { unfold in_sync in Hsync.
    apply (f_equal (fmap (λ c, c.1.1.1.1.1.1.1.1.1.1))) in Hsync.
    by rewrite <- !list_fmap_compose in Hsync. }
  assert (Hnd_page : NoDup (item_id <$> items s)).
  { rewrite Hids. unfold select_order_items.
    by apply NoDup_fmap_filter. }
  destruct (toggleGroupPrinted_marks instants 0 orderId shopId groupItems printed s
              Hs Ho Herr Hnd Hsync) as (Hsync' & Hord' & Hitems' & _ & Hreq').
  { intros g Hg. destruct (Hgroup g Hg) as [Hin Hid]. split; [done|]. split.
    - assert (item_id g ∈ item_id <$> items s) as Hg' by (by apply list_elem_of_fmap_2).
      rewrite Hids in Hg'. apply list_elem_of_fmap in Hg' as (r & -> & Hr).
      apply list_elem_of_filter in Hr as [_ Hr]. by apply list_elem_of_fmap_2.
    - intros i Hi Heq. left. by rewrite (NoDup_fmap_eq item_id (items s) i g Hnd_page Hi Hin Heq). }
  fold s' in Hsync', Hord', Hitems', Hreq'.
  split; [done|]. split; [done|]. split; [exact Hreq'|]. split; [done|].
  assert (Hback : ∀ r, r ∈ select_order_items orderId (store s') →
            ∃ i i', i ∈ items s ∧ marked printed (item_id <$> groupItems) i i'
                    ∧ shown r = shown i').
  { intros r Hr.
    assert (shown r ∈ shown <$> items s') as Hshown.
    { rewrite Hsync'. by apply list_elem_of_fmap_2. }
    apply list_elem_of_fmap in Hshown as (i' & Heq & Hi').
    apply list_elem_of_lookup in Hi' as [k Hk].
    rewrite Forall2_lookup in Hitems'. specialize (Hitems' k). rewrite Hk in Hitems'.
    inversion Hitems' as [i ? Hmark Hki|]; subst.
    exists i, i'. split; [|done]. apply list_elem_of_lookup. by exists k. }
  split.
  - intros r Hr Hin. destruct (Hback r Hr) as (i & i' & _ & (Hid & _ & Hmark & _) & Heq).
    unfold shown in Heq. simplify_eq.
    assert (is_printed r = is_printed i') as -> by congruence.
    apply Hmark. congruence.
  - intros r Hr Hout. destruct (Hback r Hr) as (i & i' & Hi & (Hid & _ & _ & Hsame) & Heq).
    assert (item_id r = item_id i') as Hrid by (unfold shown in Heq; by simplify_eq).
    rewrite Hsame in Heq by congruence.
    assert (shown i ∈ shown <$> select_order_items orderId (store s)) as Hrow.
    { rewrite <- Hsync. by apply list_elem_of_fmap_2. }
    apply list_elem_of_fmap in Hrow as (r0 & Hr0 & Hin0). exists r0. split; [done|].
    by rewrite Heq.
Qed.

End Page.
End OrderPageState.

(** ** The pages on the scenario of the order o1 *)

Module OrderPageExamples.
Import OrderItems OrderItemsExamples OrderPageState.

Local Open Scope float_scope.

(** The number an array length is, on binary64. *)
Definition float_of_nat (n : nat) : float := PrimFloat.of_uint63 (Uint63.of_Z (Z.of_nat n)).

(** The page once it has loaded the order o1. *)
Definition loaded (st : Store (A := float)) : Screen :=
  {| items := select_order_items "o1" st; store := st; page_requests := [] |}.

Example totals_shown :
  let shown := totals PrimFloat.div float_of_nat (items (loaded scenario_after.2))
                      (loaded_balance order_after) in
  totals_subtotal shown = 25 ∧ totalHt shown = 20 ∧ totalTtc shown = 24
  ∧ validatedCount shown = 2%nat ∧ totalItems shown = 3%nat.
Proof. vm_compute. repeat split; reflexivity. Qed.

Lemma page_shows_stored_totals_witness :
  let items := select_order_items "o1" scenario_after.2 in
  let shown := totals PrimFloat.div float_of_nat items (loaded_balance order_after) in
  totals_subtotal shown = subtotal order_after ∧ totalHt shown = total_ht order_after
  ∧ totalTtc shown = total_ttc order_after.
Proof.
  apply (page_shows_stored_totals no_metafields uuid false false 0 0 PrimFloat.div float_of_nat
           world "o1" "s1" validate_i2 scenario_store scenario_after.2 scenario_after.1
           order_after).
  - vm_compute. reflexivity.
  - vm_compute. right. right. eexists. reflexivity.
  - reflexivity.
  - apply (bool_decide_unpack _). vm_compute. exact I.
  - vm_compute. left.
  - reflexivity.
  - reflexivity.
  - vm_compute. repeat constructor.
  - left. vm_compute. reflexivity.
Defined.

(** The user validates i2, removes i3, tries to remove an item that does
    not exist, and validates i1 while the store refuses the statement. *)
Definition gestures : list (World * string * Gesture) :=
  [ (world, "2025-01-01T00:00:01.000Z", Validate "i2" true);
    (later, "2025-01-02T00:00:01.000Z", Remove "i3");
    (later, "2025-01-02T00:00:02.000Z", Remove "i9");
    ({| now := "2025-01-03T00:00:00.000Z"; db_error := Some "connection refused" |},
     "2025-01-03T00:00:01.000Z", Validate "i1" false) ].

Lemma page_follows_store_witness :
  in_sync "o1" (foldl (perform no_metafields uuid false false 0 0 "o1" "s1")
                      (loaded scenario_store) gestures).
Proof.
  apply (page_follows_store no_metafields uuid false false 0 0 "o1" "s1"
           (loaded scenario_store) gestures).
  reflexivity.
Defined.

Example page_after_gestures :
  (λ i, (item_id i, is_validated i))
    <$> items (foldl (perform no_metafields uuid false false 0 0 "o1" "s1")
                     (loaded scenario_store) gestures)
  = [("i1", true); ("i2", true)].
Proof. vm_compute. reflexivity. Qed.

(** Two cards; the user has asked for two units of the variant 111, none
    of 222, and one of a variant that is on no card. *)
Definition cards : list ProductData :=
  [ {| card_product_title := "T-shirt";
       variants := [ {| card_id := "111"; supabaseId := Some "v1"; card_title := Some "M";
                        card_sku := Some "TS-M" |};
                     {| card_id := "222"; supabaseId := Some "v2"; card_title := Some "L";
                        card_sku := Some "TS-L" |} ] |} ].

Definition selection : list (string * Z) := [("111", 2%Z); ("222", 0%Z); ("999", 1%Z)].

Lemma selected_units_added_witness :
  let toAdd := variantsToAdd selection cards in
  let out := addSelectedVariants no_metafields uuid false false 0 0 world "o1" "s1"
                                 selection cards scenario_store in
  (toAdd = [] → out = (Some SelectAtLeastOne, scenario_store))
  ∧ (toAdd ≠ [] →
     out.1 = Some (ItemsAdded (length toAdd))
     ∧ ∃ inserted,
         supplier_order_items out.2 = supplier_order_items scenario_store ++ inserted
         ∧ (inject_Z (Z.of_nat (length inserted))
            == foldr Qplus 0 ((λ item, default 0 (req_quantity item)) <$> toAdd))%Q
         ∧ Forall (λ r, order_id r = "o1" ∧ quantity r = num_1) inserted).
Proof.
  apply (selected_units_added no_metafields uuid false false 0 0 world "o1" "s1"
           selection cards scenario_store).
  - discriminate.
  - discriminate.
  - reflexivity.
Defined.

Example selected_units :
  (addSelectedVariants no_metafields uuid false false 0 0 world "o1" "s1"
                       selection cards scenario_store).1 = Some (ItemsAdded 1)
  ∧ length (supplier_order_items
              (addSelectedVariants no_metafields uuid false false 0 0 world "o1" "s1"
                                   selection cards scenario_store).2) = 5%nat.
Proof. vm_compute. split; reflexivity. Qed.

(** The print sheet: the first two items of the order form a group, the
    first one already printed. *)
Definition printing_store : Store (A := float) :=
  (handle_js world "o1" (ReqPUT OrderItemsFactsExamples.print_i1_body) scenario_store).2.

Definition instants (n : nat) : World * string := (later, "2025-01-02T00:00:01.000Z").

Lemma group_marked_printed_witness :
  let s := loaded printing_store in
  let s' := toggleGroupPrinted no_metafields uuid false false 0 0 instants 0 "o1" "s1"
                               (take 2 (items s)) true s in
  in_sync "o1" s'
  ∧ supplier_orders (store s') = supplier_orders (store s)
  ∧ page_requests s'
    = page_requests s
      ++ ((λ item, ReqPUT (print_body "s1" (item_id item) true))
            <$> filter (λ item, is_printed item ≠ true) (take 2 (items s)))
  ∧ Forall2 (marked true (item_id <$> take 2 (items s))) (items s) (items s')
  ∧ (∀ r, r ∈ select_order_items "o1" (store s') →
          item_id r ∈ item_id <$> take 2 (items s) → is_printed r = true)
  ∧ (∀ r, r ∈ select_order_items "o1" (store s') →
          item_id r ∉ item_id <$> take 2 (items s) →
          ∃ r0, r0 ∈ select_order_items "o1" (store s) ∧ shown r = shown r0).
Proof.
  apply (group_marked_printed no_metafields uuid false false 0 0 instants "o1" "s1"
           (take 2 (items (loaded printing_store))) true (loaded printing_store)).
  - discriminate.
  - discriminate.
  - reflexivity.
  - apply (bool_decide_unpack _). vm_compute. exact I.
  - reflexivity.
  - intros g Hg. split; [by apply (subseteq_take 2 (items (loaded printing_store)))|].
    vm_compute in Hg.
    apply elem_of_cons in Hg as [-> | Hg]; [discriminate|].
    apply elem_of_cons in Hg as [-> | Hg]; [discriminate|].
    by apply elem_of_nil in Hg.
Defined.

Example group_printed :
  let s' := toggleGroupPrinted no_metafields uuid false false 0 0 instants 0 "o1" "s1"
              (take 2 (items (loaded printing_store))) true (loaded printing_store) in
  (λ r, (item_id r, is_printed r, printed_at r)) <$> supplier_order_items (store s')
  = [ ("i1", true, Some (now world)); ("i2", true, Some (now later)); ("i3", false, None) ]
  ∧ page_requests s' = [ ReqPUT (print_body "s1" "i2" true) ].
Proof. vm_compute. split; reflexivity. Qed.

End OrderPageExamples.

(** * More on the inventory sync (src/unnamed/part_000) *)

Module SyncFacts.
Import Sync.

(** ** How long a fetch phase waits *)

Definition total_wait (ms : list Z) : Z := foldr Z.add 0 ms.

Section Waiting.
Context {Body State : Type}.
Variable fetch : nat → list Z → HttpResponse Body.
Variable on_ok : list Z → Body → State → State * list (Message * EventType).

(** The sleeps of the retry loop, without any assumption on [on_ok]. *)
Lemma retry_loop_sleeps (fuel batchNum : nat) (batch : list Z)
    (l l' : Loop (State := State)) :
  retry_loop fetch on_ok fuel batchNum batch l = Some l' →
  ∃ k, (k ≤ S maxRetries - retries l)%nat
    ∧ (success l = false → (retries l ≤ maxRetries)%nat → (1 ≤ k)%nat)
    ∧ requests l' = (requests l + k)%nat
    ∧ sleeps (events l') = sleeps (events l) ++ (delay <$> seq (retries l) k).
Proof.
  pose proof (eq_refl : maxRetries = 3%nat) as Hmax.
  revert l. induction fuel as [|fuel IH]; intros l Hrun.
  - simpl in Hrun. destruct (negb (success l) && Nat.leb (retries l) maxRetries) eqn:Hc;
      [discriminate|]. simplify_eq. exists 0%nat.
    split; [lia|]. split.
    { intros Hs Hr. apply Nat.leb_le in Hr. by rewrite Hs, Hr in Hc. }
    split; [lia|]. simpl. by rewrite app_nil_r.
  - cbn [retry_loop] in Hrun.
    destruct (negb (success l) && Nat.leb (retries l) maxRetries) eqn:Hc.
    + apply andb_true_iff in Hc as [Hs Hr]. apply Nat.leb_le in Hr.
      destruct (ok (fetch (requests l) batch)).
      * destruct (on_ok batch (body (fetch (requests l) batch)) (acc l)) as [acc' sent].
        destruct fuel; simpl in Hrun; simplify_eq; exists 1%nat;
          (split; [lia|]); (split; [lia|]); (split; [simpl; lia|]);
          cbn [events]; by rewrite !sleeps_app, sleeps_sent, app_nil_r.
      * destruct (Z.eqb (http_status (fetch (requests l) batch)) 429).
        -- apply IH in Hrun as (k & Hk & _ & Hreq & Hsl).
           cbn [success retries requests acc events] in *.
           exists (S k). split; [lia|]. split; [lia|]. split; [lia|].
           rewrite Hsl, !sleeps_app. cbn [seq fmap list_fmap].
           destruct (Nat.leb _ _); simpl; by rewrite app_nil_r, <- app_assoc.
        -- simplify_eq. exists 1%nat. split; [lia|]. split; [lia|]. split; [simpl; lia|].
           cbn [events]. rewrite !sleeps_app. simpl. by rewrite app_nil_r.
    + simplify_eq. exists 0%nat. split; [lia|]. split.
      { intros Hs Hr. apply Nat.leb_le in Hr. by rewrite Hs, Hr in Hc. }
      split; [lia|]. simpl. by rewrite app_nil_r.
Qed.

(** The sleeps of the whole phase: for each batch, the delays of its one
    to four requests. *)
Lemma batch_loop_sleeps (fuel j : nat) (ids : list Z) (n : nat) (st : State) :
  let total := ((length ids + 49) / 50)%nat in
  (length ids ≤ 50 * j + fuel)%nat →
  ∃ n' st' evs ks,
    batch_loop fetch on_ok fuel (50 * j) ids n st = Some (n', st', evs)
    ∧ length ks = (total - j)%nat
    ∧ Forall (λ k, 1 ≤ k ≤ 4)%nat ks
    ∧ n' = (n + sum_list ks)%nat
    ∧ sleeps evs = ks ≫= (λ k, delay <$> seq 0 k).
Proof.
  intros total.
  assert (Htotal : ∀ b, (50 * b < length ids ↔ b < total)%nat).
  { intros b. unfold total.
    pose proof (Nat.div_mod_eq (length ids + 49) 50).
    pose proof (Nat.mod_upper_bound (length ids + 49) 50). lia. }
  revert j n st. induction fuel as [|fuel IH]; intros j n st Hfuel.
  - exists n, st, [], []. cbn [batch_loop].
    assert (Nat.ltb (50 * j) (length ids) = false) as -> by (apply Nat.ltb_ge; lia).
    split; [done|]. assert (¬ (j < total)%nat) by (rewrite <- Htotal; lia).
    split; [simpl; lia|]. split; [constructor|]. split; [simpl; lia|done].
  - cbn [batch_loop]. destruct (Nat.ltb_spec (50 * j) (length ids)) as [Hlt | Hge].
    + unfold run_batch.
      destruct (retry_loop_ends fetch on_ok (S maxRetries) (50 * j / 50 + 1)
                  (take 50 (drop (50 * j) ids))
                  {| success := false; retries := 0; requests := n; acc := st;
                     events := [Send (BatchStarted (50 * j / 50 + 1)
                                        ((length ids + 49) / 50)
                                        (length (take 50 (drop (50 * j) ids)))) Progress] |})
        as [l Hl]; [right; simpl; lia|].
      rewrite Hl. apply retry_loop_sleeps in Hl as (k & Hk & Hk1 & Hreq & Hsl).
      cbn [success retries requests events] in Hk, Hk1, Hreq, Hsl.
      replace (50 * j + 50)%nat with (50 * S j)%nat by lia.
      destruct (IH (S j) (requests l) (acc l))
        as (n' & st' & evs & ks & -> & Hlen & Hall & Hn & Hevs); [lia|].
      exists n', st', (events l ++ evs), (k :: ks). split; [done|].
      apply Htotal in Hlt.
      split; [simpl; lia|]. split.
      { constructor; [|done]. pose proof (eq_refl : maxRetries = 3%nat).
        split; [apply Hk1; [done|lia]|lia]. }
      split; [simpl; lia|].
      rewrite sleeps_app, Hsl, Hevs. by rewrite bind_cons.
    + exists n, st, [], []. split; [done|].
      assert (¬ (j < total)%nat) by (rewrite <- Htotal; lia).
      split; [simpl; lia|]. split; [constructor|]. split; [simpl; lia|done].
Qed.

(** What a turn of the batch loop has done when it ends, [n] being the
    number of requests made before it: it has made one to four requests
    and has slept once before each of them, 500 ms before the first one
    and 2, 4 and 8 s before the retries, 14.5 s at most in all. *)
Definition turn_waits (n : nat) (l : Loop (State := State)) : Prop :=
  ∃ k, (1 ≤ k ≤ 4)%nat
    ∧ requests l = (n + k)%nat
    ∧ sleeps (events l) = delay <$> seq 0 k
    ∧ total_wait (sleeps (events l)) ≤ 14500.

Lemma run_batch_waits (i : nat) (ids : list Z) (n : nat) (st : State) :
  ∃ l, run_batch fetch on_ok i ids n st = Some l ∧ turn_waits n l.
Proof.
  unfold run_batch.
  destruct (retry_loop_ends fetch on_ok (S maxRetries) (i / 50 + 1)
              (take 50 (drop i ids))
              {| success := false; retries := 0; requests := n; acc := st;
                 events := [Send (BatchStarted (i / 50 + 1)
                                    ((length ids + 49) / 50)
                                    (length (take 50 (drop i ids)))) Progress] |})
    as [l Hl]; [right; simpl; lia|].
  exists l. split; [exact Hl|].
  apply retry_loop_sleeps in Hl as (k & Hk & Hk1 & Hreq & Hsl).
  cbn [success retries requests events] in Hk, Hk1, Hreq, Hsl.
  pose proof (eq_refl : maxRetries = 3%nat) as Hmax.
  assert (Hk4 : (1 ≤ k ≤ 4)%nat) by (split; [apply Hk1; [done|lia]|lia]).
  exists k. split; [done|]. split; [done|]. split; [exact Hsl|].
  rewrite Hsl. cbn [sleeps omap app]. simpl option_bind. cbn [app].
  assert (k = 1 ∨ k = 2 ∨ k = 3 ∨ k = 4)%nat as [-> | [-> | [-> | ->]]] by lia;
    vm_compute; discriminate.
Qed.

(** The batch loop from the batch [j] on, turn by turn: [count] turns,
    each one starting with the requests and the state the one before has
    left, and [evs] the events of the turns, in their order. *)
Fixpoint turn_by_turn (ids : list Z) (count j n : nat) (st : State) (evs : list Event)
    : Prop :=
  match count with
  | O => evs = []
  | S count' =>
    ∃ l later,
      run_batch fetch on_ok (50 * j) ids n st = Some l
      ∧ turn_waits n l
      ∧ evs = events l ++ later
      ∧ turn_by_turn ids count' (S j) (requests l) (acc l) later
  end.

(** The batch loop ends, after one turn per batch of fifty ids. *)
Lemma batch_loop_turns (fuel j : nat) (ids : list Z) (n : nat) (st : State) :
  let total := ((length ids + 49) / 50)%nat in
  (length ids ≤ 50 * j + fuel)%nat →
  ∃ n' st' evs,
    batch_loop fetch on_ok fuel (50 * j) ids n st = Some (n', st', evs)
    ∧ turn_by_turn ids (total - j) j n st evs.
Proof.
  intros total.
  assert (Htotal : ∀ b, (50 * b < length ids ↔ b < total)%nat).
  { intros b. unfold total.
    pose proof (Nat.div_mod_eq (length ids + 49) 50).
    pose proof (Nat.mod_upper_bound (length ids + 49) 50). lia. }
  revert j n st. induction fuel as [|fuel IH]; intros j n st Hfuel.
  - exists n, st, []. cbn [batch_loop].
    assert (Nat.ltb (50 * j) (length ids) = false) as -> by (apply Nat.ltb_ge; lia).
    split; [done|]. assert (¬ (j < total)%nat) by (rewrite <- Htotal; lia).
    by replace (total - j)%nat with 0%nat by lia.
  - cbn [batch_loop]. destruct (Nat.ltb_spec (50 * j) (length ids)) as [Hlt | Hge].
    + destruct (run_batch_waits (50 * j) ids n st) as (l & Hl & Hwaits). rewrite Hl.
      replace (50 * j + 50)%nat with (50 * S j)%nat by lia.
      destruct (IH (S j) (requests l) (acc l)) as (n' & st' & evs & -> & Hturns); [lia|].
      exists n', st', (events l ++ evs). split; [done|].
      apply Htotal in Hlt.
      replace (total - j)%nat with (S (total - S j)) by lia.
      cbn [turn_by_turn]. by exists l, evs.
    + exists n, st, []. split; [done|].
      assert (¬ (j < total)%nat) by (rewrite <- Htotal; lia).
      by replace (total - j)%nat with 0%nat by lia.
Qed.

End Waiting.

Lemma waits_of_batches (ks : list nat) :
  Forall (λ k, 1 ≤ k ≤ 4)%nat ks →
  let ms := ks ≫= (λ k, delay <$> seq 0 k) in
  (length ks ≤ length ms ≤ 4 * length ks)%nat
  ∧ Forall (λ d, d ∈ [500; 2000; 4000; 8000]) ms
  ∧ total_wait ms ≤ 14500 * Z.of_nat (length ks).
Proof.
  induction 1 as [|k ks Hk _ IH]; cbv zeta.
  - simpl. split; [lia|]. split; [constructor|lia].
  - rewrite bind_cons. destruct IH as (Hlen & Hall & Hsum).
    rewrite length_app, length_fmap, length_seq. cbn [length].
    split; [lia|]. split.
    + apply Forall_app. split; [|done].
      apply Forall_fmap, Forall_forall. intros j Hj. apply elem_of_seq in Hj.
      unfold compose.
      assert (j = 0 ∨ j = 1 ∨ j = 2 ∨ j = 3)%nat as [-> | [-> | [-> | ->]]] by lia;
        match goal with
        | |- ?d ∈ _ => let v := eval vm_compute in d in change d with v
        end; rewrite !elem_of_cons; tauto.
    + unfold total_wait in *. rewrite foldr_app.
      assert (Hfold : ∀ (l : list Z) (z : Z), foldr Z.add z l = foldr Z.add 0 l + z).
      { induction l as [|x l IHl]; intros z; simpl; [lia|]. rewrite IHl. lia. }
      rewrite Hfold.
      assert (foldr Z.add 0 (delay <$> seq 0 k) ≤ 14500).
      { assert (k = 1 ∨ k = 2 ∨ k = 3 ∨ k = 4)%nat as [-> | [-> | [-> | ->]]] by lia;
          vm_compute; discriminate. }
      lia.
Qed.

(** Each of the two fetch phases goes to its end whatever the platform
    answers, one turn per batch of fifty ids.  In the turn of a batch,
    between 1 and 4 requests are made, with a sleep before each of them:
    500 ms before the first one, 2, 4 and 8 s before the retries, 14.5 s
    per batch at most.  The events of the phase are those of the turns, in
    their order, and then the closing messages. *)
Theorem fetch_phases_wait {A : Type} `{JsNumber A} (parseFloat : string → A)
    (fetch_costs : nat → list Z → HttpResponse (option (list InventoryItem)))
    (fetch_levels : nat → list Z → HttpResponse (option (list InventoryLevel)))
    (inventoryItemToVariantUuid : gmap Z string) (now : string)
    (inventory_levels : gmap (string * Z) LevelRow) (inventoryItemIds : list Z) :
  let total := ((length inventoryItemIds + 49) / 50)%nat in
  (∃ costs evs,
     fetchInventoryItemCosts parseFloat fetch_costs inventoryItemIds
     = Some (costs, evs ++ [Send (CostTotals (itemsWithCost costs) (itemsWithoutCost costs))
                                 Progress])
     ∧ turn_by_turn fetch_costs (costs_on_ok parseFloat) inventoryItemIds total 0 0
                    no_costs evs
     ∧ (total ≤ length (sleeps evs) ≤ 4 * total)%nat
     ∧ Forall (λ d, d ∈ [500; 2000; 4000; 8000]) (sleeps evs)
     ∧ total_wait (sleeps evs) ≤ 14500 * Z.of_nat total)
  ∧ (∃ table rows evs,
       fetchInventoryLevels fetch_levels inventoryItemToVariantUuid now inventoryItemIds
                            inventory_levels
       = Some (table, rows,
               evs ++ [Send (SavingLevels (length rows)) Progress;
                       Send (LevelsUpdated (length rows)) Success])
       ∧ turn_by_turn fetch_levels (levels_on_ok inventoryItemToVariantUuid now)
                      inventoryItemIds total 0 0 [] evs
       ∧ (total ≤ length (sleeps evs) ≤ 4 * total)%nat
       ∧ Forall (λ d, d ∈ [500; 2000; 4000; 8000]) (sleeps evs)
       ∧ total_wait (sleeps evs) ≤ 14500 * Z.of_nat total).
Proof.
  intros total. split.
  - unfold fetchInventoryItemCosts.
    destruct (batch_loop_turns fetch_costs (costs_on_ok parseFloat)
                (length inventoryItemIds) 0 inventoryItemIds 0 no_costs)
      as (n' & st' & evs & Hrun & Hturns); [lia|].
    destruct (batch_loop_sleeps fetch_costs (costs_on_ok parseFloat)
                (length inventoryItemIds) 0 inventoryItemIds 0 no_costs)
      as (n2 & st2 & evs2 & ks & Hrun2 & Hlen & Hall & _ & Hsl); [lia|].
    rewrite Hrun in Hrun2. injection Hrun2 as <- <- <-.
    change (50 * 0)%nat with 0%nat in Hrun. rewrite Hrun.
    exists st', evs. split; [reflexivity|].
    fold total in Hturns, Hlen. rewrite Nat.sub_0_r in Hturns, Hlen.
    split; [exact Hturns|]. rewrite Hsl, <- Hlen.
    by apply waits_of_batches.
  - unfold fetchInventoryLevels.
    destruct (batch_loop_turns fetch_levels (levels_on_ok inventoryItemToVariantUuid now)
                (length inventoryItemIds) 0 inventoryItemIds 0 [])
      as (n' & rows & evs & Hrun & Hturns); [lia|].
    destruct (batch_loop_sleeps fetch_levels (levels_on_ok inventoryItemToVariantUuid now)
                (length inventoryItemIds) 0 inventoryItemIds 0 [])
      as (n2 & st2 & evs2 & ks & Hrun2 & Hlen & Hall & _ & Hsl); [lia|].
    rewrite Hrun in Hrun2. injection Hrun2 as <- <- <-.
    change (50 * 0)%nat with 0%nat in Hrun. rewrite Hrun.
    destruct (upsert_loop_ends (length rows) 0 rows inventory_levels)
      as (table & -> & _); [lia|].
    exists table, rows, evs. split; [reflexivity|].
    fold total in Hturns, Hlen. rewrite Nat.sub_0_r in Hturns, Hlen.
    split; [exact Hturns|]. rewrite Hsl, <- Hlen.
    by apply waits_of_batches.
Qed.

(** ** Where the recorded costs come from *)

Section CostProvenance.
Context {A : Type} `{JsNumber A}.
Variable parseFloat : string → A.
Variable fetch : nat → list Z → HttpResponse (option (list InventoryItem)).

(** The cost [cost] was read for the inventory item [id] in an ok answer. *)
Definition answered (id : Z) (cost : A) : Prop :=
  ∃ n batch items item,
    ok (fetch n batch) = true ∧ body (fetch n batch) = Some items ∧ item ∈ items
    ∧ ii_id item = id ∧ cost = item_cost parseFloat item.

Lemma record_costs_lookup (items : list InventoryItem) (s : Costs) (id : Z) (cost : A) :
  inventoryItemToCost (foldl (record_cost parseFloat) s items) !! id = Some cost →
  inventoryItemToCost s !! id = Some cost
  ∨ ∃ item, item ∈ items ∧ ii_id item = id ∧ cost = item_cost parseFloat item.
Proof.
  revert s. induction items as [|x items IH]; intros s Hl; [by left|].
  cbn [foldl] in Hl. apply IH in Hl as [Hl | (item & Hin & Hrest)].
  - unfold record_cost in Hl. cbn [inventoryItemToCost] in Hl.
    destruct (decide (ii_id x = id)) as [Heq | Hne].
    + rewrite <- Heq, lookup_insert_eq in Hl. simplify_eq. right. exists x.
      split; [left|done].
    + rewrite lookup_insert_ne in Hl by done. by left.
  - right. exists item. split; [by right|done].
Qed.

Lemma costs_answered (inventoryItemIds : list Z) (costs : Costs) (sent : list Event) :
  fetchInventoryItemCosts parseFloat fetch inventoryItemIds = Some (costs, sent) →
  ∀ id cost, inventoryItemToCost costs !! id = Some cost → answered id cost.
Proof.
  unfold fetchInventoryItemCosts. intros Hrun.
  destruct (batch_loop fetch (costs_on_ok parseFloat) (length inventoryItemIds) 0
              inventoryItemIds 0 no_costs) as [[[n' s] evs]|] eqn:Hloop; [|discriminate].
  simplify_eq.
  apply (batch_loop_invariant fetch (costs_on_ok parseFloat)
           (λ s, ∀ id cost, inventoryItemToCost s !! id = Some cost → answered id cost)
           _ _ _ _ _ _ _ _) with (3 := Hloop).
  - intros n batch st HP Hok id cost Hl. unfold costs_on_ok in Hl. cbn [fst] in Hl.
    destruct (body (fetch n batch)) as [items|] eqn:Hbody; cbn [default] in Hl;
      [|by apply HP].
    apply record_costs_lookup in Hl as [Hl | (item & Hin & Hid & Hc)]; [by apply HP|].
    by exists n, batch, items, item.
  - intros id cost Hl. cbn [no_costs inventoryItemToCost] in Hl.
    by rewrite lookup_empty in Hl.
Qed.

(** An entry of [inventoryItemToCost] is never taken back. *)
Definition has_costs_of (s1 s2 : Costs (A := A)) : Prop :=
  ∀ id, is_Some (inventoryItemToCost s1 !! id) → is_Some (inventoryItemToCost s2 !! id).

Lemma record_costs_keep (items : list InventoryItem) (s : Costs) :
  has_costs_of s (foldl (record_cost parseFloat) s items).
Proof.
  revert s. induction items as [|x items IH]; intros s id Hid; [done|].
  cbn [foldl]. apply IH. unfold record_cost. cbn [inventoryItemToCost].
  destruct (decide (ii_id x = id)) as [<- | Hne].
  - rewrite lookup_insert_eq. by eexists.
  - by rewrite lookup_insert_ne.
Qed.

(** Every item of an ok answer gets its entry. *)
Lemma record_costs_all (items : list InventoryItem) (s : Costs) (item : InventoryItem) :
  item ∈ items →
  is_Some (inventoryItemToCost (foldl (record_cost parseFloat) s items) !! ii_id item).
Proof.
  revert s. induction items as [|x items IH]; intros s Hin.
  - by apply elem_of_nil in Hin.
  - cbn [foldl]. apply elem_of_cons in Hin as [<- | Hin]; [|by apply IH].
    apply record_costs_keep. unfold record_cost. cbn [inventoryItemToCost].
    rewrite lookup_insert_eq. by eexists.
Qed.

(** Every batch of fifty ids has its one to four requests, all but the
    last one answered 429, and the items of the ok answer that ends the
    batch have an entry at the end of the phase. *)
Lemma costs_complete (inventoryItemIds : list Z) (costs : Costs) (sent : list Event) :
  fetchInventoryItemCosts parseFloat fetch inventoryItemIds = Some (costs, sent) →
  ∀ b, (50 * b < length inventoryItemIds)%nat →
    ∃ n k, (1 ≤ k ≤ 4)%nat
      ∧ (∀ j, (j + 1 < k)%nat →
           http_status (fetch (n + j)%nat (take 50 (drop (50 * b) inventoryItemIds))) = 429)
      ∧ ∀ items item,
          ok (fetch (n + k - 1)%nat (take 50 (drop (50 * b) inventoryItemIds))) = true →
          body (fetch (n + k - 1)%nat (take 50 (drop (50 * b) inventoryItemIds)))
          = Some items →
          item ∈ items →
          is_Some (inventoryItemToCost costs !! ii_id item).
Proof.
  unfold fetchInventoryItemCosts. intros Hrun b Hb.
  destruct (batch_loop fetch (costs_on_ok parseFloat) (length inventoryItemIds) 0
              inventoryItemIds 0 no_costs) as [[[n' s] evs]|] eqn:Hloop; [|discriminate].
  simplify_eq.
  destruct (batch_loop_batches fetch (costs_on_ok parseFloat) has_costs_of
              (λ _ _ Hid, Hid) (λ _ _ _ H1 H2 id Hid, H2 id (H1 id Hid))
              (λ batch response st, record_costs_keep (default [] response) st)
              (length inventoryItemIds) 0 inventoryItemIds 0 no_costs n' costs evs Hloop b)
    as (m & st_b & l & Hl & Hgrows); [lia|done|].
  destruct (run_batch_spec fetch (costs_on_ok parseFloat)
              (costs_on_ok_announces_nothing parseFloat) (50 * b) inventoryItemIds m st_b)
    as (l' & k & Hl' & Hk & _ & _ & _ & _ & Hprev & Hout).
  rewrite Hl in Hl'. injection Hl' as <-.
  exists m, k. split; [done|]. split; [intros j Hj; by apply Hprev|].
  intros items item Hok Hbody Hitem. apply Hgrows.
  destruct Hout as [(_ & _ & ->) | [(Hno & _) | (Hno & _)]]; [|congruence|congruence].
  unfold costs_on_ok. cbn [fst]. rewrite Hbody. cbn [default].
  by apply record_costs_all.
Qed.

End CostProvenance.

(** The costs a run has recorded are costs the platform has answered: for
    every entry of [inventoryItemToCost] there is an ok answer with an
    item of that id, and the entry is the cost read from it ([0] when the
    item has none).  An id that no ok answer carries has no entry. *)
Theorem costs_come_from_answers {A : Type} `{JsNumber A} (parseFloat : string → A)
    (fetch : nat → list Z → HttpResponse (option (list InventoryItem)))
    (inventoryItemIds : list Z) :
  ∃ costs sent,
    fetchInventoryItemCosts parseFloat fetch inventoryItemIds = Some (costs, sent)
    ∧ (∀ id cost, inventoryItemToCost costs !! id = Some cost →
                  answered parseFloat fetch id cost)
    ∧ (∀ id, (∀ n batch items item,
                ok (fetch n batch) = true → body (fetch n batch) = Some items →
                item ∈ items → ii_id item ≠ id) →
             inventoryItemToCost costs !! id = None).
Proof.
  destruct (batch_loop_sleeps fetch (costs_on_ok parseFloat)
              (length inventoryItemIds) 0 inventoryItemIds 0 no_costs)
    as (n' & st' & evs & ks & Hrun & _); [lia|].
  change (50 * 0)%nat with 0%nat in Hrun.
  assert (Hfetch : fetchInventoryItemCosts parseFloat fetch inventoryItemIds
                   = Some (st', evs ++ [Send (CostTotals (itemsWithCost st')
                                                (itemsWithoutCost st')) Progress])).
  { unfold fetchInventoryItemCosts. by rewrite Hrun. }
  eexists _, _. split; [exact Hfetch|].
  pose proof (costs_answered parseFloat fetch _ _ _ Hfetch) as Hans.
  split; [exact Hans|].
  intros id Hno. destruct (inventoryItemToCost st' !! id) as [cost|] eqn:Hl; [|done].
  destruct (Hans id cost Hl) as (n & batch & items & item & Hok & Hbody & Hin & Hid & _).
  by destruct (Hno n batch items item).
Qed.

(** ** The variants and their costs (steps 1 and 3 of the sync) *)

Section Variants.
Context {A : Type} `{JsNumber A}.
Variable parseFloat : string → A.

(** An element of [product.variants], the fields the sync reads; ids are
    integers, read through [toString()]. *)
Record Variant := {
  v_id : Z;
  v_title : option string;
  v_sku : option string;
  v_option1 : option string;
  v_option2 : option string;
  v_option3 : option string;
  v_inventory_item_id : option Z;
  v_price : option string;
}.

(** An element of [allProducts], the fields the two loops over the
    variants read. *)
Record Product := {
  p_id : Z;
  p_variants : option (list Variant);
}.

(** [const productId = productIdMap[product.id.toString()];
     if (!productId) continue;] *)
Definition productId_of (productIdMap : gmap Z string) (product : Product) : option string :=
  match productIdMap !! p_id product with
  | Some productId => if String.eqb productId "" then None else Some productId
  | None => None
  end.

(** Step 1: [if (variant.inventory_item_id) inventoryItemIds.push(..)],
    over the variants of the products that have a row. *)
Definition inventoryItemIds (productIdMap : gmap Z string) (allProducts : list Product)
    : list Z :=
  allProducts ≫= λ product,
    match productId_of productIdMap product with
    | Some _ =>
      omap (λ variant,
              match v_inventory_item_id variant with
              | Some id => if Z.eqb id 0 then None else Some id
              | None => None
              end)
           (default [] (p_variants product))
    | None => []
    end.

(** An object pushed on [variantsToUpsert]. *)
Record VariantRow := {
  product_id : string;
  shopify_id : Z;
  title : option string;
  sku : option string;
  option1 : option string;
  option2 : option string;
  option3 : option string;
  inventory_item_id : option Z;
  cost : A;
  price : A;
}.

(** [inventoryItemId ? (inventoryItemToCost[inventoryItemId] ?? 0) : 0],
    [inventoryItemId] being a printed number, truthy when present. *)
Definition cost_of (costs : gmap Z A) (inventoryItemId : option Z) : A :=
  match inventoryItemId with
  | Some id => default num_0 (costs !! id)
  | None => num_0
  end.

(** [variant.price ? parseFloat(variant.price) : 0] *)
Definition price_of (price' : option string) : A :=
  match price' with
  | Some p => if String.eqb p "" then num_0 else parseFloat p
  | None => num_0
  end.

Definition variant_row (productId : string) (costs : gmap Z A) (variant : Variant)
    : VariantRow :=
  {| product_id := productId;
     shopify_id := v_id variant;
     title := v_title variant;
     sku := v_sku variant;
     option1 := v_option1 variant;
     option2 := v_option2 variant;
     option3 := v_option3 variant;
     inventory_item_id := v_inventory_item_id variant;
     cost := cost_of costs (v_inventory_item_id variant);
     price := price_of (v_price variant) |}.

(** Step 3: [variantsToUpsert], one row per variant of the products that
    have a row. *)
Definition variantsToUpsert (productIdMap : gmap Z string) (costs : gmap Z A)
    (allProducts : list Product) : list VariantRow :=
  allProducts ≫= λ product,
    match productId_of productIdMap product with
    | Some productId => variant_row productId costs <$> default [] (p_variants product)
    | None => []
    end.

(** Steps 1 to 3: the ids are collected, their costs fetched, the rows
    built with the costs that were fetched. *)
Definition variants_with_costs
    (fetch : nat → list Z → HttpResponse (option (list InventoryItem)))
    (productIdMap : gmap Z string) (allProducts : list Product)
    : option (list VariantRow * list Event) :=
  match fetchInventoryItemCosts parseFloat fetch (inventoryItemIds productIdMap allProducts) with
  | Some (costs, sent) =>
    Some (variantsToUpsert productIdMap (inventoryItemToCost costs) allProducts, sent)
  | None => None
  end.

Lemma length_variantsToUpsert (productIdMap : gmap Z string) (costs : gmap Z A)
    (allProducts : list Product) :
  length (variantsToUpsert productIdMap costs allProducts)
  = sum_list_with (λ product,
                     match productId_of productIdMap product with
                     | Some _ => length (default [] (p_variants product))
                     | None => 0%nat
                     end) allProducts.
Proof.
  unfold variantsToUpsert. induction allProducts as [|product l IH]; [done|].
  rewrite bind_cons, length_app, IH. cbn [sum_list_with]. f_equal.
  destruct (productId_of productIdMap product); [by rewrite length_fmap|done].
Qed.

Lemma costs_fetched (fetch : nat → list Z → HttpResponse (option (list InventoryItem)))
    (ids : list Z) :
  ∃ costs sent,
    fetchInventoryItemCosts parseFloat fetch ids = Some (costs, sent)
    ∧ ∀ id cost, inventoryItemToCost costs !! id = Some cost →
                 answered parseFloat fetch id cost.
Proof.
  destruct (batch_loop_sleeps fetch (costs_on_ok parseFloat) (length ids) 0 ids 0 no_costs)
    as (n' & st' & evs & ks & Hrun & _); [lia|].
  change (50 * 0)%nat with 0%nat in Hrun.
  assert (Hfetch : fetchInventoryItemCosts parseFloat fetch ids
                   = Some (st', evs ++ [Send (CostTotals (itemsWithCost st')
                                                (itemsWithoutCost st')) Progress])).
  { unfold fetchInventoryItemCosts. by rewrite Hrun. }
  eexists _, _. split; [exact Hfetch|].
  exact (costs_answered parseFloat fetch _ _ _ Hfetch).
Qed.


End Variants.

(** ** The level table after a run *)

Lemma upsert_from (batch : list LevelRow) (table : gmap (string * Z) LevelRow)
    (k : string * Z) (row : LevelRow) :
  upsert batch table !! k = Some row →
  table !! k = Some row ∨ (row ∈ batch ∧ level_key row = k).
Proof.
  unfold upsert. case_bool_decide; [|by left]. clear.
  revert table. induction batch as [|x batch IH]; intros table Hl; [by left|].
  cbn [foldl] in Hl. apply IH in Hl as [Hl | [Hl Hk]].
  - destruct (decide (level_key x = k)) as [<- | Hne].
    + rewrite lookup_insert_eq in Hl. simplify_eq. right. split; [left|done].
    + rewrite lookup_insert_ne in Hl by done. by left.
  - right. split; [by right|done].
Qed.

Lemma upsert_loop_from (fuel i : nat) (rows : list LevelRow)
    (table table' : gmap (string * Z) LevelRow) (k : string * Z) (row : LevelRow) :
  upsert_loop fuel i rows table = Some table' →
  table' !! k = Some row →
  table !! k = Some row ∨ (row ∈ rows ∧ level_key row = k).
Proof.
  revert i table. induction fuel as [|fuel IH]; intros i table Hrun Hl.
  - cbn [upsert_loop] in Hrun. destruct (Nat.ltb i (length rows)); [discriminate|].
    simplify_eq. by left.
  - cbn [upsert_loop] in Hrun. destruct (Nat.ltb i (length rows)); [|simplify_eq; by left].
    destruct (IH _ _ Hrun Hl) as [Hbatch | Hrows]; [|by right].
    apply upsert_from in Hbatch as [Hold | [Hin Hk]]; [by left|].
    right. split; [|done].
    apply (subseteq_drop i rows), (subseteq_take 500 (drop i rows)), Hin.
Qed.

(** The upsert of the levels is keyed by variant and location, one
    statement per 500 rows.  After a run, a row of the table is a row the
    table held before under its key or a row of the run, under its key.
    No row is ever removed: a level the platform no longer reports stays
    in the table with its old quantity.  When the run has read no key
    twice, the table holds for each key the level read for it and, for the
    other keys, what it held before.  When it has read a key twice among
    at most 500 rows, the store refuses the statement: the table is left
    as it was, and the run announces the levels as updated all the same. *)
Theorem levels_upserted_by_key
    (fetch : nat → list Z → HttpResponse (option (list InventoryLevel)))
    (inventoryItemToVariantUuid : gmap Z string) (now : string)
    (inventoryItemIds : list Z) (inventory_levels : gmap (string * Z) LevelRow) :
  ∃ table inventoryToUpsert sent,
    fetchInventoryLevels fetch inventoryItemToVariantUuid now inventoryItemIds
                         inventory_levels
    = Some (table, inventoryToUpsert, sent)
    ∧ (∀ k row, table !! k = Some row →
         inventory_levels !! k = Some row
         ∨ (row ∈ inventoryToUpsert ∧ (variant_id row, location_id row) = k))
    ∧ (∀ k, is_Some (inventory_levels !! k) → is_Some (table !! k))
    ∧ (NoDup ((λ row, (variant_id row, location_id row)) <$> inventoryToUpsert) →
       (∀ row, row ∈ inventoryToUpsert →
               table !! (variant_id row, location_id row) = Some row)
       ∧ (∀ k, k ∉ (λ row, (variant_id row, location_id row)) <$> inventoryToUpsert →
               table !! k = inventory_levels !! k))
    ∧ ((length inventoryToUpsert ≤ 500)%nat →
       ¬ NoDup ((λ row, (variant_id row, location_id row)) <$> inventoryToUpsert) →
       table = inventory_levels
       ∧ Send (LevelsUpdated (length inventoryToUpsert)) Success ∈ sent)
    ∧ ((∀ n batch, ok (fetch n batch) = false) → table = inventory_levels).
Proof.
  unfold fetchInventoryLevels.
  destruct (batch_loop_sleeps fetch (levels_on_ok inventoryItemToVariantUuid now)
              (length inventoryItemIds) 0 inventoryItemIds 0 [])
    as (n' & rows & evs & ks & Hrun & _); [lia|].
  change (50 * 0)%nat with 0%nat in Hrun. rewrite Hrun.
  destruct (upsert_loop_ends (length rows) 0 rows inventory_levels)
    as (table & Hloop & _ & Hkeep & Hdistinct); [lia|].
  rewrite Hloop. rewrite drop_0 in Hdistinct.
  eexists table, rows, _. split; [reflexivity|].
  split; [intros k row; by apply (upsert_loop_from _ _ _ _ _ _ _ Hloop)|].
  split; [exact Hkeep|]. split; [exact Hdistinct|]. split.
  - intros Hlen Hdup. rewrite upsert_loop_refused in Hloop by done.
    split; [by simplify_eq|]. apply elem_of_app. right. right. left.
  - intros Hdown.
    assert (rows = []) as ->; [|cbn in Hloop; by simplify_eq].
    apply (batch_loop_invariant fetch (levels_on_ok inventoryItemToVariantUuid now)
             (λ rows, rows = []) _ _ _ _ _ _ _ _) with (3 := Hrun); [|done].
    intros n batch st _ Hok. by rewrite Hdown in Hok.
Qed.

End SyncFacts.

(** * The loop of the stock statistics (src/src/app/api/inventory/stats/route.ts) *)

Module StatsFacts.
Import Stats.

(** The sum of a column over the entries of a breakdown. *)
Definition map_sum {V : Type} (f : V → Z) (m : gmap string V) : Z :=
  map_fold (λ _ x acc, f x + acc) 0 m.

Lemma map_sum_empty {V : Type} (f : V → Z) : map_sum f ∅ = 0.
Proof. apply map_fold_empty. Qed.

Lemma map_sum_insert {V : Type} (f : V → Z) (m : gmap string V) (k : string) (x : V) :
  map_sum f (<[k := x]> m) = f x + map_sum f m - from_option f 0 (m !! k).
Proof.
  assert (Hcomm : ∀ (m' : gmap string V) (j1 j2 : string) (z1 z2 : V) (y : Z),
            j1 ≠ j2 → m' !! j1 = Some z1 → m' !! j2 = Some z2 →
            f z1 + (f z2 + y) = f z2 + (f z1 + y)) by (intros; lia).
  unfold map_sum. destruct (m !! k) as [y|] eqn:Hk; simpl.
  - rewrite (map_fold_delete_L _ _ k y m (Hcomm m) Hk).
    rewrite <- (insert_delete_eq m).
    rewrite map_fold_insert_L; [lia|apply Hcomm|apply lookup_delete_eq].
  - rewrite map_fold_insert_L; [lia|apply Hcomm|done].
Qed.

Section Loop.
Context {A : Type} `{JsNumber A}.

(** The number a quantity is, for [totalQuantity * cost]. *)
Variable num_of_Z : Z → A.

(** [variant.product], the columns the loop reads. *)
Record Product := {
  title : option string;
  product_type : option string;
}.

(** A row of the query; [inventory_levels] is given by the [quantity] of
    each level. *)
Record Variant := {
  option1 : option string;
  option2 : option string;
  option3 : option string;
  cost : option A;
  product : option Product;
  inventory_levels : option (list (option Z));
}.

(** An entry of [stats.byProductType]. *)
Record TypeGroup := {
  type_count : nat;
  type_stock : Z;
  type_value : A;
}.

(** A value of the map [productStats]. *)
Record ProductStat := {
  stat_title : string;
  stat_stock : Z;
  stat_value : A;
}.

(** [stats] and [productStats], the latter in the order of insertion of a
    [Map]; [topProducts] is filled after the loop. *)
Record Stats := {
  totalVariants : nat;
  totalStock : Z;
  totalStockValue : A;
  byProductType : gmap string TypeGroup;
  groups : Groups;
  productStats : list ProductStat;
}.

(** [inventoryLevels.reduce((sum, il) => sum + (il.quantity || 0), 0)] *)
Definition totalQuantity (variant : Variant) : Z :=
  foldl (λ sum quantity, sum + default 0 quantity) 0 (default [] (inventory_levels variant)).

(** [x || fallback] on strings *)
Definition string_or (x : option string) (fallback : string) : string :=
  match x with
  | Some s => if String.eqb s "" then fallback else s
  | None => fallback
  end.

(** [if (!m[productType]) { m[productType] = { count: 0, stock: 0, value: 0 }; }
     m[productType].count++; m[productType].stock += totalQuantity;
     m[productType].value += variantValue;]
    where [m] is an object literal: under a name it has no entry for but
    inherits a property under, no entry is made, and the counters are set
    on the inherited object, out of [m]. *)
Definition add_to_type (productType : string) (quantity : Z) (variantValue : A)
    (m : gmap string TypeGroup) : gmap string TypeGroup :=
  match js_read m productType with
  | Own g =>
    <[productType := {| type_count := S (type_count g);
                        type_stock := type_stock g + quantity;
                        type_value := num_add (type_value g) variantValue |}]> m
  | Inherited _ => m
  | Undefined =>
    <[productType := {| type_count := 1;
                        type_stock := 0 + quantity;
                        type_value := num_add num_0 variantValue |}]> m
  end.

(** [const existing = productStats.get(productTitle);
     if (existing) { existing.stock += ..; existing.value += ..; }
     else { productStats.set(productTitle, { .. }); }] *)
Fixpoint add_to_product (productTitle : string) (quantity : Z) (variantValue : A)
    (productStats : list ProductStat) : list ProductStat :=
  match productStats with
  | [] => [{| stat_title := productTitle; stat_stock := quantity; stat_value := variantValue |}]
  | existing :: rest =>
    if String.eqb (stat_title existing) productTitle
    then {| stat_title := stat_title existing;
            stat_stock := stat_stock existing + quantity;
            stat_value := num_add (stat_value existing) variantValue |} :: rest
    else existing :: add_to_product productTitle quantity variantValue rest
  end.

Definition no_stats : Stats :=
  {| totalVariants := 0; totalStock := 0; totalStockValue := num_0;
     byProductType := ∅; groups := {| bySize := ∅; byColor := ∅ |};
     productStats := [] |}.

(** The body of [for (const variant of variants || [])]. *)
Definition count_variant (stats : Stats) (variant : Variant) : Stats :=
  let quantity := totalQuantity variant in
  let cost' := js_or0 (cost variant) in
  let variantValue := num_mul (num_of_Z quantity) cost' in
  let productType := string_or (product variant ≫= product_type) "Non défini" in
  let productTitle := string_or (product variant ≫= title) "Inconnu" in
  {| totalVariants := S (totalVariants stats);
     totalStock := totalStock stats + quantity;
     totalStockValue := num_add (totalStockValue stats) variantValue;
     byProductType := add_to_type productType quantity variantValue (byProductType stats);
     groups := count_options (option1 variant) (option2 variant) (option3 variant)
                             quantity (groups stats);
     productStats := add_to_product productTitle quantity variantValue (productStats stats) |}.

(** The loop over the rows of the query. *)
Definition count_variants (variants : option (list Variant)) : Stats :=
  foldl count_variant no_stats (default [] variants).

(** ** The breakdowns add up *)

Definition sum_of {X : Type} (f : X → Z) (l : list X) : Z := foldr (λ x acc, f x + acc) 0 l.

Lemma add_to_product_sum (productTitle : string) (quantity : Z) (variantValue : A)
    (l : list ProductStat) :
  sum_of stat_stock (add_to_product productTitle quantity variantValue l)
  = sum_of stat_stock l + quantity.
Proof.
  induction l as [|x l IH]; simpl; [lia|].
  destruct (String.eqb (stat_title x) productTitle); simpl; [lia|]. rewrite IH. lia.
Qed.

Lemma add_to_product_titles (productTitle : string) (quantity : Z) (variantValue : A)
    (l : list ProductStat) :
  stat_title <$> add_to_product productTitle quantity variantValue l
  = if bool_decide (productTitle ∈ stat_title <$> l) then stat_title <$> l
    else (stat_title <$> l) ++ [productTitle].
Proof.
  induction l as [|x l IH]; [done|]. simpl.
  destruct (String.eqb_spec (stat_title x) productTitle) as [Heq | Hne].
  - rewrite bool_decide_eq_true_2 by (rewrite Heq; left). done.
  - rewrite fmap_cons, IH. case_bool_decide as Hin.
    + rewrite bool_decide_eq_true_2 by (by right). done.
    + rewrite bool_decide_eq_false_2; [done|].
      intros Hin'. apply elem_of_cons in Hin' as [Heq | Hin']; [by destruct Hne|done].
Qed.

(** The product type a row is counted under. *)
Definition type_of (variant : Variant) : string :=
  string_or (product variant ≫= product_type) "Non défini".

(** The rows whose product type is not a name every object inherits. *)
Definition typed (variants : list Variant) : list Variant :=
  filter (λ v, inherited (type_of v) = false) variants.

(** An object literal that has no entry of its own under an inherited
    name. *)
Definition no_inherited_key {V : Type} (m : gmap string V) : Prop :=
  ∀ name, inherited name = true → m !! name = None.

(** What the loop keeps at every turn. *)
Definition adds_up (stats : Stats) (variants : list Variant) : Prop :=
  totalVariants stats = length variants
  ∧ totalStock stats = sum_of totalQuantity variants
  ∧ map_sum (λ g, Z.of_nat (type_count g)) (byProductType stats)
    = Z.of_nat (length (typed variants))
  ∧ map_sum type_stock (byProductType stats) = sum_of totalQuantity (typed variants)
  ∧ no_inherited_key (byProductType stats)
  ∧ sum_of stat_stock (productStats stats) = totalStock stats
  ∧ NoDup (stat_title <$> productStats stats).

Lemma sum_of_snoc {X : Type} (f : X → Z) (l : list X) (x : X) :
  sum_of f (l ++ [x]) = sum_of f l + f x.
Proof. induction l as [|y l IH]; simpl; [lia|]. rewrite IH. lia. Qed.

Lemma typed_snoc (variants : list Variant) (variant : Variant) :
  typed (variants ++ [variant])
  = if inherited (type_of variant) then typed variants else typed variants ++ [variant].
Proof.
  unfold typed. rewrite filter_app, filter_cons, filter_nil.
  destruct (inherited (type_of variant)).
  - rewrite decide_False by discriminate. by rewrite app_nil_r.
  - by rewrite decide_True.
Qed.

Lemma no_inherited_key_insert {V : Type} (m : gmap string V) (k : string) (x : V) :
  inherited k = false → no_inherited_key m → no_inherited_key (<[k := x]> m).
Proof.
  intros Hk Hm name Hname. rewrite lookup_insert_ne; [by apply Hm|]. intros ->. congruence.
Qed.

(** What [add_to_type] does to the sums. *)
Lemma add_to_type_sums (k : string) (quantity : Z) (variantValue : A)
    (m : gmap string TypeGroup) :
  no_inherited_key m →
  let m' := add_to_type k quantity variantValue m in
  no_inherited_key m'
  ∧ map_sum (λ g, Z.of_nat (type_count g)) m'
    = map_sum (λ g, Z.of_nat (type_count g)) m + (if inherited k then 0 else 1)
  ∧ map_sum type_stock m' = map_sum type_stock m + (if inherited k then 0 else quantity).
Proof.
  intros Hm. cbv zeta. unfold add_to_type, js_read.
  destruct (m !! k) as [g|] eqn:Hk.
  - assert (Hown : inherited k = false).
    { destruct (inherited k) eqn:Hi; [|done]. by rewrite (Hm k Hi) in Hk. }
    rewrite Hown, !map_sum_insert, Hk. simpl.
    split; [by apply no_inherited_key_insert|]. lia.
  - destruct (inherited k) eqn:Hi.
    + split; [done|]. lia.
    + rewrite !map_sum_insert, Hk. simpl.
      split; [by apply no_inherited_key_insert|]. lia.
Qed.

Lemma count_variant_adds_up (stats : Stats) (variants : list Variant) (variant : Variant) :
  adds_up stats variants → adds_up (count_variant stats variant) (variants ++ [variant]).
Proof.
  intros (Hn & Hstock & Hcount & Hts & Hown & Hps & Hnd).
  unfold adds_up, count_variant. cbn [totalVariants totalStock byProductType productStats].
  split; [rewrite length_app; simpl; lia|].
  split; [rewrite sum_of_snoc; lia|].
  fold (type_of variant).
  destruct (add_to_type_sums (type_of variant) (totalQuantity variant)
              (num_mul (num_of_Z (totalQuantity variant)) (js_or0 (cost variant)))
              (byProductType stats) Hown) as (Hown' & -> & ->).
  rewrite typed_snoc.
  destruct (inherited (type_of variant)).
  - split; [lia|]. split; [lia|]. split; [done|].
    split; [rewrite add_to_product_sum; lia|].
    rewrite add_to_product_titles. case_bool_decide; [done|].
    apply NoDup_app. split; [done|]. split; [|apply NoDup_singleton].
    intros x Hx Hx'. apply list_elem_of_singleton in Hx'. by subst.
  - rewrite length_app, sum_of_snoc. cbn [length].
    split; [lia|]. split; [lia|]. split; [done|].
    split; [rewrite add_to_product_sum; lia|].
    rewrite add_to_product_titles. case_bool_decide; [done|].
    apply NoDup_app. split; [done|]. split; [|apply NoDup_singleton].
    intros x Hx Hx'. apply list_elem_of_singleton in Hx'. by subst.
Qed.

Lemma count_variants_adds_up (l : list Variant) (stats : Stats) (before : list Variant) :
  adds_up stats before → adds_up (foldl count_variant stats l) (before ++ l).
Proof.
  revert stats before. induction l as [|variant l IH]; intros stats before Hinv.
  - by rewrite app_nil_r.
  - cbn [foldl]. rewrite (assoc_L (++) before [variant] l : before ++ variant :: l = _).
    apply IH. by apply count_variant_adds_up.
Qed.

Lemma no_stats_adds_up : adds_up no_stats [].
Proof.
  unfold adds_up, no_stats. cbn [totalVariants totalStock byProductType productStats].
  rewrite !map_sum_empty. split_and!; try done. constructor.
Qed.

Lemma typed_all (variants : list Variant) :
  (∀ v, v ∈ variants → inherited (type_of v) = false) → typed variants = variants.
Proof.
  intros Hall. induction variants as [|v l IH]; [done|].
  unfold typed. rewrite filter_cons, decide_True by (apply Hall; left).
  f_equal. apply IH. intros v' Hv'. apply Hall. by right.
Qed.

(** [productStats] has one entry per title. *)
Lemma productStats_titles (variants : option (list Variant)) :
  NoDup (stat_title <$> productStats (count_variants variants)).
Proof.
  by destruct (count_variants_adds_up (default [] variants) no_stats [] no_stats_adds_up)
    as (_ & _ & _ & _ & _ & _ & Hnd).
Qed.

(** The loop counts every row of the query once: [totalVariants] is their
    number and [totalStock] the sum of their quantities, and the stocks of
    [productStats], which has one entry per title, add up to [totalStock].
    [byProductType] is an object literal: a row whose product type is a
    name every object inherits ("constructor", "toString", ..) gets no
    entry and is counted nowhere in it.  Its counts add up to the number
    of the other rows and its stocks to the sum of their quantities: to
    [totalVariants] and [totalStock] when no product type is such a
    name. *)
Theorem breakdowns_add_up (variants : option (list Variant)) :
  let stats := count_variants variants in
  let rows := default [] variants in
  totalVariants stats = length rows
  ∧ totalStock stats = sum_of totalQuantity rows
  ∧ map_sum (λ g, Z.of_nat (type_count g)) (byProductType stats)
    = Z.of_nat (length (filter (λ v, inherited (type_of v) = false) rows))
  ∧ map_sum type_stock (byProductType stats)
    = sum_of totalQuantity (filter (λ v, inherited (type_of v) = false) rows)
  ∧ (∀ name, inherited name = true → byProductType stats !! name = None)
  ∧ ((∀ v, v ∈ rows → inherited (type_of v) = false) →
     map_sum (λ g, Z.of_nat (type_count g)) (byProductType stats)
     = Z.of_nat (totalVariants stats)
     ∧ map_sum type_stock (byProductType stats) = totalStock stats)
  ∧ sum_of stat_stock (productStats stats) = totalStock stats
  ∧ NoDup (stat_title <$> productStats stats).
Proof.
  destruct (count_variants_adds_up (default [] variants) no_stats [] no_stats_adds_up)
    as (Hn & Hstock & Hcount & Hts & Hown & Hps & Hnd).
  cbv zeta. unfold count_variants. rewrite app_nil_l in *.
  split; [done|]. split; [done|]. split; [exact Hcount|]. split; [exact Hts|].
  split; [exact Hown|]. split; [|by split].
  intros Hall. rewrite Hcount, Hts, Hn, Hstock. by rewrite (typed_all _ Hall).
Qed.

(** ** Every option is counted once *)

Definition options_of (variant : Variant) : list string :=
  filter_Boolean [option1 variant; option2 variant; option3 variant].

Definition group_counts (g : Groups) : Z :=
  map_sum (λ x, Z.of_nat (count x)) (bySize g) + map_sum (λ x, Z.of_nat (count x)) (byColor g).

Definition group_stocks (g : Groups) : Z := map_sum stock (bySize g) + map_sum stock (byColor g).

(** An option value that gets counted: a size, or a value that is not a
    name every object inherits. *)
Definition counted (option : string) : bool := is_size option || negb (inherited option).

Definition counted_options (variant : Variant) : list string :=
  filter (λ option, counted option = true) (options_of variant).

Lemma add_to_group_sums (k : string) (quantity : Z) (m : gmap string Group) :
  no_inherited_key m →
  let m' := add_to_group k quantity m in
  no_inherited_key m'
  ∧ map_sum (λ x, Z.of_nat (count x)) m'
    = map_sum (λ x, Z.of_nat (count x)) m + (if inherited k then 0 else 1)
  ∧ map_sum stock m' = map_sum stock m + (if inherited k then 0 else quantity).
Proof.
  intros Hm. cbv zeta. unfold add_to_group, js_read.
  destruct (m !! k) as [g|] eqn:Hk.
  - assert (Hown : inherited k = false).
    { destruct (inherited k) eqn:Hi; [|done]. by rewrite (Hm k Hi) in Hk. }
    rewrite Hown, !map_sum_insert, Hk. simpl.
    split; [by apply no_inherited_key_insert|]. lia.
  - destruct (inherited k) eqn:Hi.
    + split; [done|]. lia.
    + rewrite !map_sum_insert, Hk. simpl.
      split; [by apply no_inherited_key_insert|]. lia.
Qed.

(** The names every object inherits start with a letter or with [_]. *)
Lemma inherited_first (c : ascii) (s : string) :
  inherited (String c s) = true → is_digit c = false.
Proof.
  unfold inherited, inherited_names. intros Hin. apply bool_decide_eq_true_1 in Hin.
  repeat (apply elem_of_cons in Hin as [Heq | Hin]; [by simplify_eq|]).
  by apply elem_of_nil in Hin.
Qed.

Lemma upper_digit (c : ascii) : is_digit c = true → upper c = c.
Proof.
  unfold is_digit, upper. intros Hd. apply andb_true_iff in Hd as [_ Hd].
  apply Nat.leb_le in Hd.
  assert (Nat.leb 97 (nat_of_ascii c) = false) as -> by (apply Nat.leb_gt; lia). done.
Qed.

(** The key of a size is no inherited name. *)
Lemma size_key_own (option : string) :
  is_size option = true → inherited (toUpperCase option) = false.
Proof.
  unfold is_size. intros Hsize. apply orb_true_iff in Hsize as [Hname | Hdigits].
  - apply existsb_exists in Hname as (name & Hin & Heq).
    apply String.eqb_eq in Heq. rewrite Heq. clear Heq.
    apply list_elem_of_In in Hin. unfold size_names in Hin.
    repeat (apply elem_of_cons in Hin as [-> | Hin]; [reflexivity|]).
    by apply elem_of_nil in Hin.
  - apply andb_true_iff in Hdigits as [Hne Hall].
    destruct option as [|c s]; [discriminate|].
    unfold all_digits in Hall. cbn [String.list_ascii_of_string forallb] in Hall.
    apply andb_true_iff in Hall as [Hc _].
    cbn [toUpperCase]. rewrite (upper_digit c Hc).
    destruct (inherited (String c (toUpperCase s))) eqn:Hi; [|done].
    apply inherited_first in Hi. congruence.
Qed.

Definition no_inherited_keys (g : Groups) : Prop :=
  no_inherited_key (bySize g) ∧ no_inherited_key (byColor g).

Lemma count_option_sums (quantity : Z) (g : Groups) (option : string) :
  no_inherited_keys g →
  no_inherited_keys (count_option quantity g option)
  ∧ group_counts (count_option quantity g option)
    = group_counts g + (if counted option then 1 else 0)
  ∧ group_stocks (count_option quantity g option)
    = group_stocks g + (if counted option then quantity else 0).
Proof.
  intros [Hsize Hcolor]. unfold count_option, group_counts, group_stocks, counted.
  rewrite test_sizePattern. destruct (is_size option) eqn:Hs; cbn [bySize byColor orb].
  - destruct (add_to_group_sums (toUpperCase option) quantity (bySize g) Hsize)
      as (Hsize' & -> & ->).
    rewrite (size_key_own option Hs). split; [by split|]. lia.
  - destruct (add_to_group_sums option quantity (byColor g) Hcolor) as (Hcolor' & -> & ->).
    split; [by split|]. destruct (inherited option); simpl; lia.
Qed.

Lemma count_options_sums (quantity : Z) (options : list string) (g : Groups) :
  no_inherited_keys g →
  no_inherited_keys (foldl (count_option quantity) g options)
  ∧ group_counts (foldl (count_option quantity) g options)
    = group_counts g + Z.of_nat (length (filter (λ option, counted option = true) options))
  ∧ group_stocks (foldl (count_option quantity) g options)
    = group_stocks g
      + quantity * Z.of_nat (length (filter (λ option, counted option = true) options)).
Proof.
  revert g. induction options as [|option options IH]; intros g Hg; [simpl; split; [done|lia]|].
  cbn [foldl]. destruct (count_option_sums quantity g option Hg) as (Hg' & Hc & Hs).
  destruct (IH (count_option quantity g option) Hg') as (Hown & -> & ->).
  split; [done|]. rewrite Hc, Hs, filter_cons.
  destruct (counted option); [rewrite decide_True by done|rewrite decide_False by done];
    cbn [length]; lia.
Qed.

Lemma count_variants_options (l : list Variant) (stats : Stats) :
  no_inherited_keys (groups stats) →
  group_counts (groups (foldl count_variant stats l))
  = group_counts (groups stats) + sum_of (λ v, Z.of_nat (length (counted_options v))) l
  ∧ group_stocks (groups (foldl count_variant stats l))
    = group_stocks (groups stats)
      + sum_of (λ v, totalQuantity v * Z.of_nat (length (counted_options v))) l.
Proof.
  revert stats. induction l as [|variant l IH]; intros stats Hown; [simpl; lia|].
  cbn [foldl].
  assert (Hg : groups (count_variant stats variant)
               = foldl (count_option (totalQuantity variant)) (groups stats)
                       (options_of variant)) by reflexivity.
  destruct (count_options_sums (totalQuantity variant) (options_of variant) (groups stats)
              Hown) as (Hown' & Hc & Hs).
  rewrite <- Hg in Hown', Hc, Hs.
  destruct (IH (count_variant stats variant) Hown') as [-> ->].
  rewrite Hc, Hs. unfold counted_options. simpl. lia.
Qed.

Lemma counted_all (options : list string) :
  (∀ option, option ∈ options → is_size option = false → inherited option = false) →
  filter (λ option, counted option = true) options = options.
Proof.
  intros Hall. induction options as [|o l IH]; [done|].
  rewrite filter_cons, decide_True.
  - f_equal. apply IH. intros o' Ho'. apply Hall. by right.
  - unfold counted. destruct (is_size o) eqn:Hs; [done|].
    rewrite (Hall o); [done|left|done].
Qed.

(** Every option value of a variant that is not empty is counted once,
    as a size or as a color, unless it is a color by a name every object
    inherits ("constructor", "toString", ..): [byColor] is an object
    literal, and such a value gets no entry.  The counts of [bySize] and
    [byColor] together add up to the number of the option values of the
    rows that are sizes or are no such names, and their stocks to the
    quantity of each row times the number of these values: to the number
    of all option values when none of them is such a name. *)
Theorem options_counted_once (variants : option (list Variant)) :
  let stats := count_variants variants in
  let rows := default [] variants in
  let counted_of (v : Variant) :=
    filter (λ option, is_size option || negb (inherited option) = true) (options_of v) in
  group_counts (groups stats) = sum_of (λ v, Z.of_nat (length (counted_of v))) rows
  ∧ group_stocks (groups stats)
    = sum_of (λ v, totalQuantity v * Z.of_nat (length (counted_of v))) rows
  ∧ ((∀ v option, v ∈ rows → option ∈ options_of v → is_size option = false →
                  inherited option = false) →
     group_counts (groups stats) = sum_of (λ v, Z.of_nat (length (options_of v))) rows
     ∧ group_stocks (groups stats)
       = sum_of (λ v, totalQuantity v * Z.of_nat (length (options_of v))) rows).
Proof.
  cbv zeta. unfold count_variants.
  destruct (count_variants_options (default [] variants) no_stats) as [Hc Hs];
    [by split|].
  assert (Hnone : group_counts (groups no_stats) = 0 ∧ group_stocks (groups no_stats) = 0).
  { unfold group_counts, group_stocks, no_stats. cbn [groups bySize byColor].
    by rewrite !map_sum_empty. }
  destruct Hnone as [Hc0 Hs0]. rewrite Hc0 in Hc. rewrite Hs0 in Hs.
  split; [rewrite Hc; unfold counted_options, counted; lia|].
  split; [rewrite Hs; unfold counted_options, counted; lia|].
  intros Hall. rewrite Hc, Hs. clear Hc Hs.
  induction (default [] variants) as [|v l IH]; [done|].
  cbn [sum_of foldr].
  assert (Hv : counted_options v = options_of v).
  { apply counted_all. intros option Ho. apply (Hall v option); [left|done]. }
  destruct IH as [IHc IHs]; [intros v' option Hv'; apply Hall; by right|].
  unfold sum_of in IHc, IHs. rewrite Hv. lia.
Qed.

End Loop.
End StatsFacts.

(** * The stock editor of a product (src/unnamed/part_004) *)

Module ProductDetail.

(** A variant of the product, the fields the editor reads. *)
Record Variant := {
  id : string;
  quantity : Z;
}.

(** The state [quantities], as set up by [useState]:
    [product.variants.forEach(v => { initial[v.id] = v.quantity; })] *)
Definition initial (variants : list Variant) : gmap string Z :=
  foldl (λ m v, <[id v := quantity v]> m) ∅ variants.

(** [prev[variantId] || 0] *)
Definition or_0 (q : option Z) : Z := default 0 q.

Definition handleQuantityChange (variantId : string) (value : Z) (prev : gmap string Z)
    : gmap string Z :=
  <[variantId := Z.max 0 value]> prev.

Definition handleIncrement (variantId : string) (prev : gmap string Z) : gmap string Z :=
  <[variantId := or_0 (prev !! variantId) + 1]> prev.

Definition handleDecrement (variantId : string) (prev : gmap string Z) : gmap string Z :=
  <[variantId := Z.max 0 (or_0 (prev !! variantId) - 1)]> prev.

(** [product.variants.some(v => quantities[v.id] !== v.quantity)] *)
Definition hasChanges (variants : list Variant) (quantities : gmap string Z) : bool :=
  existsb (λ v, negb (bool_decide (quantities !! id v = Some (quantity v)))) variants.

(** An element of [changes]. *)
Record Change := {
  variantId : string;
  new_quantity : option Z;
}.

(** [product.variants.filter(v => quantities[v.id] !== v.quantity)
       .map(v => ({ variantId: v.id, quantity: quantities[v.id] }))] *)
Definition changes (variants : list Variant) (quantities : gmap string Z) : list Change :=
  (λ v, {| variantId := id v; new_quantity := quantities !! id v |})
    <$> filter (λ v, quantities !! id v ≠ Some (quantity v)) variants.

(** What [handleSave] does: it gives up, notifies that nothing has
    changed, or posts the changes. *)
Inductive Saved :=
| NotConfigured
| NothingChanged
| Posted (shopId locationId : string) (changes : list Change).

Definition handleSave (shopId locationId : option string) (variants : list Variant)
    (quantities : gmap string Z) : Saved :=
  match shopId, locationId with
  | Some shop, Some location =>
    if negb (js_string_truthy shopId) || negb (js_string_truthy locationId)
    then NotConfigured
    else
      let changes' := changes variants quantities in
      if bool_decide (length changes' = 0%nat) then NothingChanged
      else Posted shop location changes'
  | _, _ => NotConfigured
  end.

(** The gestures on a quantity. *)
Inductive Edit :=
| SetQuantity (variantId : string) (value : Z)
| Increment (variantId : string)
| Decrement (variantId : string).

Definition edit (quantities : gmap string Z) (e : Edit) : gmap string Z :=
  match e with
  | SetQuantity variantId value => handleQuantityChange variantId value quantities
  | Increment variantId => handleIncrement variantId quantities
  | Decrement variantId => handleDecrement variantId quantities
  end.

Lemma initial_lookup (variants : list Variant) (m : gmap string Z) (k : string) (q : Z) :
  foldl (λ m v, <[id v := quantity v]> m) m variants !! k = Some q →
  m !! k = Some q ∨ ∃ v, v ∈ variants ∧ id v = k ∧ quantity v = q.
Proof.
  revert m. induction variants as [|x l IH]; intros m Hl; [by left|].
  cbn [foldl] in Hl. apply IH in Hl as [Hl | (v & Hv & Hrest)].
  - destruct (decide (id x = k)) as [Heq | Hne].
    + rewrite <- Heq, lookup_insert_eq in Hl. simplify_eq. right. exists x.
      split; [left|done].
    + rewrite lookup_insert_ne in Hl by done. by left.
  - right. exists v. split; [by right|done].
Qed.

Lemma initial_absent (variants : list Variant) (m : gmap string Z) (k : string) :
  (∀ v, v ∈ variants → id v ≠ k) →
  foldl (λ m v, <[id v := quantity v]> m) m variants !! k = m !! k.
Proof.
  revert m. induction variants as [|x l IH]; intros m Hno; [done|].
  cbn [foldl]. rewrite IH by (intros v Hv; apply Hno; by right).
  apply lookup_insert_ne, Hno. left.
Qed.

Lemma initial_present (variants : list Variant) (m : gmap string Z) (v : Variant) :
  NoDup (id <$> variants) → v ∈ variants →
  foldl (λ m v, <[id v := quantity v]> m) m variants !! id v = Some (quantity v).
Proof.
  revert m. induction variants as [|x l IH]; intros m Hnd Hin.
  - by apply elem_of_nil in Hin.
  - rewrite fmap_cons in Hnd. apply NoDup_cons in Hnd as [Hx Hnd].
    cbn [foldl]. apply elem_of_cons in Hin as [-> | Hin]; [|by apply IH].
    rewrite initial_absent; [apply lookup_insert_eq|].
    intros y Hy Heq. apply Hx. rewrite <- Heq. by apply list_elem_of_fmap_2.
Qed.

(** ** The quantities stay non-negative *)

Lemma edit_nonneg (quantities : gmap string Z) (e : Edit) :
  (∀ k q, quantities !! k = Some q → 0 ≤ q) →
  ∀ k q, edit quantities e !! k = Some q → 0 ≤ q.
Proof.
  intros Hinv k q Hl. destruct e as [variantId' value | variantId' | variantId']; simpl in Hl;
    unfold handleQuantityChange, handleIncrement, handleDecrement in Hl;
    (destruct (decide (variantId' = k)) as [-> | Hne];
     [rewrite lookup_insert_eq in Hl; simplify_eq
     |rewrite lookup_insert_ne in Hl by done; by apply (Hinv k)]).
  - lia.
  - unfold or_0. destruct (quantities !! k) as [x|] eqn:Hk; simpl; [|lia].
    pose proof (Hinv k x Hk). lia.
  - lia.
Qed.

(** Starting from stocks that are not negative, no sequence of edits
    (typing a quantity, even a negative one, incrementing, decrementing,
    also below zero or on an id the product does not have) leaves a
    negative quantity in the editor, and so none in what [handleSave]
    posts. *)
Theorem edited_quantities_nonneg (variants : list Variant) (edits : list Edit)
    (shopId locationId : option string) :
  (∀ v, v ∈ variants → 0 ≤ quantity v) →
  let quantities := foldl edit (initial variants) edits in
  (∀ k q, quantities !! k = Some q → 0 ≤ q)
  ∧ ∀ shop location posted c q,
      handleSave shopId locationId variants quantities = Posted shop location posted →
      c ∈ posted → new_quantity c = Some q → 0 ≤ q.
Proof.
  intros Hstock quantities.
  assert (Hq : ∀ k q, quantities !! k = Some q → 0 ≤ q).
  { assert (Hinit : ∀ k q, initial variants !! k = Some q → 0 ≤ q).
    { intros k q Hl. apply initial_lookup in Hl as [Hl | (v & Hv & _ & <-)].
      - by rewrite lookup_empty in Hl.
      - by apply Hstock. }
    unfold quantities. revert Hinit. generalize (initial variants) as m.
    induction edits as [|e edits IH]; intros m Hm; [exact Hm|].
    cbn [foldl]. apply IH. by apply edit_nonneg. }
  split; [exact Hq|].
  intros shop location posted c q Hsave Hc Hnew.
  unfold handleSave in Hsave.
  destruct shopId as [s|], locationId as [l|]; try discriminate.
  destruct (_ || _); [discriminate|]. cbv zeta in Hsave.
  case_bool_decide; [discriminate|]. simplify_eq.
  unfold changes in Hc. apply list_elem_of_fmap in Hc as (v & -> & _).
  simpl in Hnew. by apply (Hq (id v)).
Qed.

(** ** What is saved *)

Lemma changes_nil (variants : list Variant) (quantities : gmap string Z) :
  changes variants quantities = []
  ↔ ∀ v, v ∈ variants → quantities !! id v = Some (quantity v).
Proof.
  unfold changes. split.
  - intros Hnil v Hv. apply fmap_nil_inv in Hnil.
    destruct (decide (quantities !! id v = Some (quantity v))) as [Heq | Hne]; [done|].
    assert (v ∈ filter (λ v, quantities !! id v ≠ Some (quantity v)) variants) as Hin
      by (by apply list_elem_of_filter).
    rewrite Hnil in Hin. by apply elem_of_nil in Hin.
  - intros Hall. rewrite filter_none; [done|]. intros v Hv Hne. by apply Hne, Hall.
Qed.

(** The editor posts the differences and nothing else: a request goes
    out exactly when the quantity of some variant in the editor differs
    from its stock, and lists these variants, in the order of the product,
    each with the quantity of the editor.  Right after the product is
    loaded nothing differs, and [handleSave] posts nothing. *)
Theorem save_posts_the_differences (shop location : string) (variants : list Variant)
    (quantities : gmap string Z) :
  shop ≠ "" → location ≠ "" →
  let differing := filter (λ v, quantities !! id v ≠ Some (quantity v)) variants in
  handleSave (Some shop) (Some location) variants quantities
  = (if bool_decide (differing = []) then NothingChanged
     else Posted shop location
            ((λ v, {| variantId := id v; new_quantity := quantities !! id v |}) <$> differing))
  ∧ (hasChanges variants quantities = negb (bool_decide (differing = [])))
  ∧ (NoDup (id <$> variants) →
     handleSave (Some shop) (Some location) variants (initial variants) = NothingChanged).
Proof.
  intros Hs Hl differing.
  assert (Hsave : ∀ q, handleSave (Some shop) (Some location) variants q
                       = if bool_decide (changes variants q = []) then NothingChanged
                         else Posted shop location (changes variants q)).
  { intros q. unfold handleSave. apply String.eqb_neq in Hs, Hl. simpl. rewrite Hs, Hl. simpl.
    destruct (changes variants q); done. }
  split; [|split].
  - rewrite Hsave. unfold changes. fold differing. by destruct differing.
  - clear Hsave. unfold hasChanges, differing. induction variants as [|v l IH]; [done|].
    cbn [existsb]. rewrite filter_cons, IH.
    destruct (decide (quantities !! id v = Some (quantity v))) as [Heq | Hne].
    + rewrite (bool_decide_eq_true_2 _ Heq). rewrite decide_False by (intros Hn; by apply Hn).
      done.
    + rewrite (bool_decide_eq_false_2 _ Hne). rewrite decide_True by done. done.
  - intros Hnd. rewrite Hsave. rewrite bool_decide_eq_true_2; [done|].
    apply changes_nil. intros v Hv. by apply initial_present.
Qed.


(** ** On a product with two variants *)

Definition two_variants : list Variant :=
  [ {| id := "111"; quantity := 4 |}; {| id := "222"; quantity := 0 |} ].

Lemma edited_quantities_nonneg_witness :
  let quantities :=
    foldl edit (initial two_variants)
          [SetQuantity "111" (-7); Decrement "222"; Decrement "999"; Increment "222"] in
  (∀ k q, quantities !! k = Some q → 0 ≤ q)
  ∧ ∀ shop location posted c q,
      handleSave (Some "s1") (Some "l1") two_variants quantities = Posted shop location posted →
      c ∈ posted → new_quantity c = Some q → 0 ≤ q.
Proof.
  apply (edited_quantities_nonneg two_variants
           [SetQuantity "111" (-7); Decrement "222"; Decrement "999"; Increment "222"]
           (Some "s1") (Some "l1")).
  intros v Hv. vm_compute in Hv.
  apply elem_of_cons in Hv as [-> | Hv]; [simpl; lia|].
  apply elem_of_cons in Hv as [-> | Hv]; [simpl; lia|].
  by apply elem_of_nil in Hv.
Defined.

Example negative_typed :
  handleSave (Some "s1") (Some "l1") two_variants
             (foldl edit (initial two_variants)
                    [SetQuantity "111" (-7); Decrement "222"; Decrement "999"; Increment "222"])
  = Posted "s1" "l1" [ {| variantId := "111"; new_quantity := Some 0 |};
                       {| variantId := "222"; new_quantity := Some 1 |} ].
Proof. vm_compute. reflexivity. Qed.

Lemma save_posts_the_differences_witness :
  let quantities := handleIncrement "222" (initial two_variants) in
  let differing := filter (λ v, quantities !! id v ≠ Some (quantity v)) two_variants in
  handleSave (Some "s1") (Some "l1") two_variants quantities
  = (if bool_decide (differing = []) then NothingChanged
     else Posted "s1" "l1"
            ((λ v, {| variantId := id v; new_quantity := quantities !! id v |}) <$> differing))
  ∧ (hasChanges two_variants quantities = negb (bool_decide (differing = [])))
  ∧ (NoDup (id <$> two_variants) →
     handleSave (Some "s1") (Some "l1") two_variants (initial two_variants) = NothingChanged).
Proof.
  apply (save_posts_the_differences "s1" "l1" two_variants
           (handleIncrement "222" (initial two_variants))).
  - discriminate.
  - discriminate.
Defined.


End ProductDetail.

(** * The form of a price rule (src/unnamed/part_003) *)

Module PriceRuleForm.
Import PriceRules.

Section Form.
Context {A : Type} `{JsNumber A}.

(** The fields under "add a metafield modifier". *)
Record NewModifier := {
  newModifierNamespace : string;
  newModifierKey : string;
  newModifierValue : string;
  newModifierAmount : A;
}.

(** The part of the state of the page that [addModifier] and
    [removeModifier] read and write. *)
Record Form := {
  formModifiers : list (Modifier (A := A));
  newModifier : NewModifier;
}.

(** [addModifier()]: refused, with a notification, while one of the three
    texts is empty; otherwise the modifier is appended and the value and
    the amount are reset. *)
Definition addModifier (form : Form) : Form :=
  let new := newModifier form in
  if negb (js_string_truthy (Some (newModifierNamespace new)))
     || negb (js_string_truthy (Some (newModifierKey new)))
     || negb (js_string_truthy (Some (newModifierValue new)))
  then form
  else
    {| formModifiers :=
         formModifiers form
         ++ [{| namespace := newModifierNamespace new;
                key := newModifierKey new;
                value := newModifierValue new;
                amount := Some (newModifierAmount new);
                modifier_amount := None |}];
       newModifier :=
         {| newModifierNamespace := newModifierNamespace new;
            newModifierKey := newModifierKey new;
            newModifierValue := "";
            newModifierAmount := num_0 |} |}.

(** [l.filter((_, i) => keep(i))], the index counted from [i]. *)
Fixpoint filter_index {X : Type} (keep : nat → bool) (i : nat) (l : list X) : list X :=
  match l with
  | [] => []
  | x :: l' =>
    if keep i then x :: filter_index keep (S i) l' else filter_index keep (S i) l'
  end.

(** [removeModifier(index)]:
    [setFormModifiers(formModifiers.filter((_, i) => i !== index))] *)
Definition removeModifier (index : nat) (form : Form) : Form :=
  {| formModifiers := filter_index (λ i, negb (Nat.eqb i index)) 0 (formModifiers form);
     newModifier := newModifier form |}.

(** The rule as the form stands, for the total the page computes. *)
Definition rule_of (rule : PriceRule) (form : Form) : PriceRule :=
  {| sku := sku rule; base_price := base_price rule; product_type := product_type rule;
     is_active := is_active rule; modifiers := formModifiers form;
     option_modifiers := option_modifiers rule |}.

Lemma filter_index_after {X : Type} (index i : nat) (l : list X) :
  (index < i)%nat → filter_index (λ i, negb (Nat.eqb i index)) i l = l.
Proof.
  revert i. induction l as [|x l IH]; intros i Hi; [done|]. simpl.
  destruct (Nat.eqb_spec i index); [lia|]. simpl. by rewrite IH by lia.
Qed.

Lemma filter_index_spec {X : Type} (index i : nat) (l : list X) :
  (i ≤ index)%nat →
  filter_index (λ i, negb (Nat.eqb i index)) i l
  = take (index - i) l ++ drop (S (index - i)) l.
Proof.
  revert i. induction l as [|x l IH]; intros i Hi; [by rewrite take_nil, drop_nil|].
  simpl. destruct (Nat.eqb_spec i index) as [-> | Hne]; simpl.
  - rewrite Nat.sub_diag. simpl. rewrite drop_0. apply filter_index_after. lia.
  - rewrite IH by lia. replace (index - i)%nat with (S (index - S i)) by lia. done.
Qed.

(** Removing by index and adding at the end: an index past the end
    removes nothing; an index within the list removes that one modifier
    and keeps the others in their order; a modifier that has just been
    added is the last one, and removing it gives the list back, and with
    it the total the page shows for the rule. *)
Theorem modifier_added_then_removed (rule : PriceRule) (form : Form) (index : nat) :
  (length (formModifiers form) ≤ index →
   formModifiers (removeModifier index form) = formModifiers form)%nat
  ∧ formModifiers (removeModifier index form)
    = take index (formModifiers form) ++ drop (S index) (formModifiers form)
  ∧ formModifiers (removeModifier (length (formModifiers form)) (addModifier form))
    = formModifiers form
  ∧ calculateTotalPrice
      (rule_of rule (removeModifier (length (formModifiers form)) (addModifier form)))
    = calculateTotalPrice (rule_of rule form).
Proof.
  assert (Hspec : ∀ i f, formModifiers (removeModifier i f)
                         = take i (formModifiers f) ++ drop (S i) (formModifiers f)).
  { intros i f. unfold removeModifier. cbn [formModifiers].
    rewrite filter_index_spec by lia. by rewrite Nat.sub_0_r. }
  assert (Hback : formModifiers (removeModifier (length (formModifiers form))
                                                (addModifier form))
                  = formModifiers form).
  { rewrite Hspec. unfold addModifier. destruct (_ || _); cbn [formModifiers].
    - rewrite take_ge, drop_ge by lia. by rewrite app_nil_r.
    - rewrite take_app_length, drop_ge by (rewrite length_app; simpl; lia).
      by rewrite app_nil_r. }
  split; [|split; [apply Hspec|split; [exact Hback|]]].
  - intros Hlen. rewrite Hspec, take_ge, drop_ge by lia. by rewrite app_nil_r.
  - unfold rule_of. by rewrite Hback.
Qed.

End Form.

(** A modifier with an empty value is not added. *)
Example incomplete_modifier_refused :
  let form := {| formModifiers := [a_modifier "matte" 1%float];
                 newModifier := {| newModifierNamespace := "custom";
                                   newModifierKey := "finish";
                                   newModifierValue := "";
                                   newModifierAmount := 2%float |} |} in
  addModifier form = form.
Proof. reflexivity. Qed.

End PriceRuleForm.

(** * [Array.prototype.sort] with a comparator *)

From stdpp Require Import sorting.
Local Open Scope Z_scope.

Module ArraySort.

Section Sort.
Context {X : Type}.

(** The comparator: negative when its first argument goes first, positive
    when it goes last, zero to keep the two in their order. *)
Variable compare : X → X → Z.

(** [x], which came before every element of [sorted], put at its place. *)
Fixpoint insert (x : X) (sorted : list X) : list X :=
  match sorted with
  | [] => [x]
  | y :: rest => if Z.leb (compare x y) 0 then x :: sorted else y :: insert x rest
  end.

(** The sort is stable (ECMAScript 2019): with a consistent comparator
    it has one result, which this insertion sort computes. *)
Definition sort (l : list X) : list X := foldr insert [] l.

Lemma insert_Permutation (x : X) (l : list X) : insert x l ≡ₚ x :: l.
Proof.
  induction l as [|y l IH]; [done|]. simpl.
  destruct (Z.leb _ _); [done|]. rewrite IH. apply Permutation_swap.
Qed.

Lemma sort_Permutation (l : list X) : sort l ≡ₚ l.
Proof.
  induction l as [|x l IH]; [done|]. simpl. by rewrite insert_Permutation, IH.
Qed.

(** ** A comparator that subtracts ranks *)

Variable rank : X → Z.
Hypothesis compare_rank : ∀ a b, compare a b = rank a - rank b.

Lemma insert_sorted (x : X) (l : list X) :
  StronglySorted (λ a b, rank a ≤ rank b) l →
  StronglySorted (λ a b, rank a ≤ rank b) (insert x l).
Proof.
  induction 1 as [|y l Hl IH Hy]; simpl; [repeat constructor|].
  rewrite compare_rank. destruct (Z.leb_spec (rank x - rank y) 0) as [Hle | Hgt].
  - constructor; [by constructor|]. constructor; [lia|].
    eapply Forall_impl; [exact Hy|]. intros z Hz. cbn beta in Hz. lia.
  - constructor; [exact IH|]. rewrite insert_Permutation. constructor; [lia|exact Hy].
Qed.

Lemma sort_sorted (l : list X) : StronglySorted (λ a b, rank a ≤ rank b) (sort l).
Proof. induction l as [|x l IH]; [constructor|]. simpl. by apply insert_sorted. Qed.

Lemma filter_insert (k : Z) (x : X) (l : list X) :
  StronglySorted (λ a b, rank a ≤ rank b) l →
  filter (λ y, rank y = k) (insert x l) = filter (λ y, rank y = k) (x :: l).
Proof.
  induction 1 as [|y l Hl IH Hy]; [done|]. simpl.
  rewrite compare_rank. destruct (Z.leb_spec (rank x - rank y) 0) as [Hle | Hgt]; [done|].
  rewrite filter_cons, IH, !filter_cons.
  repeat case_decide; first [done | lia].
Qed.

(** Elements of the same rank keep their order. *)
Lemma sort_stable (k : Z) (l : list X) :
  filter (λ y, rank y = k) (sort l) = filter (λ y, rank y = k) l.
Proof.
  induction l as [|x l IH]; [done|]. simpl.
  rewrite filter_insert by apply sort_sorted. by rewrite !filter_cons, IH.
Qed.

End Sort.

Lemma sorted_weaken {X : Type} (R S : X → X → Prop) (l : list X) :
  (∀ a b, R a b → S a b) → StronglySorted R l → StronglySorted S l.
Proof.
  intros HRS. induction 1 as [|x l Hl IH Hx]; constructor; [exact IH|].
  eapply Forall_impl; [exact Hx|]. intros y. apply HRS.
Qed.

End ArraySort.

(** * The groups of the order page (src/unnamed/part_002, groupedItems) *)

Module OrderPageGroups.
Import OrderItems.

Definition is_letter (c : ascii) : bool :=
  let n := nat_of_ascii c in
  (Nat.leb 65 n && Nat.leb n 90) || (Nat.leb 97 n && Nat.leb n 122).

(** The capture of [/^([A-Za-z]+)/]: the longest run of letters the
    string starts with, empty when the pattern does not match. *)
Fixpoint leading_letters (s : string) : string :=
  match s with
  | EmptyString => EmptyString
  | String c s' => if is_letter c then String c (leading_letters s') else EmptyString
  end.

(** [item.sku?.match(/^([A-Za-z]+)/)?.[1]?.toUpperCase() || 'AUTRES'] *)
Definition sku_prefix (sku' : option string) : string :=
  match sku' with
  | Some s =>
    let letters := leading_letters s in
    if String.eqb letters "" then "AUTRES" else Stats.toUpperCase letters
  | None => "AUTRES"
  end.

(** [x || ''] *)
Definition or_empty (x : option string) : string := default "" x.

Section Groups.
Context {A : Type}.

(** [a.localeCompare(b)], the comparison of the user's locale. *)
Variable localeCompare : string → string → Z.

(** [`${item.variant_id || ''}_${item.sku || ''}_${item.variant_title || ''}`] *)
Definition variantKey (item : OrderItem (A := A)) : string :=
  or_empty (variant_id item) +:+ "_" +:+ or_empty (sku item) +:+ "_"
  +:+ or_empty (variant_title item).

(** [{ key, items }] *)
Record VariantGroup := {
  key : string;
  group_items : list (OrderItem (A := A));
}.

(** [let variantGroup = groups[prefix].find(g => g.key === variantKey);
     if (!variantGroup) { variantGroup = { key: variantKey, items: [] };
                          groups[prefix].push(variantGroup); }
     variantGroup.items.push(item);] *)
Fixpoint push_item (variantKey' : string) (item : OrderItem) (groups : list VariantGroup)
    : list VariantGroup :=
  match groups with
  | [] => [{| key := variantKey'; group_items := [item] |}]
  | g :: rest =>
    if String.eqb (key g) variantKey'
    then {| key := key g; group_items := group_items g ++ [item] |} :: rest
    else g :: push_item variantKey' item rest
  end.

(** The body of [items.forEach(item => { .. })]. *)
Definition group_item (groups : gmap string (list VariantGroup)) (item : OrderItem)
    : gmap string (list VariantGroup) :=
  let prefix := sku_prefix (sku item) in
  <[prefix := push_item (variantKey item) item (default [] (groups !! prefix))]> groups.

(** [groups] after [items.forEach(..)]. *)
Definition groups_of (items : list OrderItem) : gmap string (list VariantGroup) :=
  foldl group_item ∅ items.

(** [(a, b) => (a.items[0]?.sku || '').localeCompare(b.items[0]?.sku || '')] *)
Definition by_sku (a b : VariantGroup) : Z :=
  localeCompare (or_empty (head (group_items a) ≫= sku))
                (or_empty (head (group_items b) ≫= sku)).

(** [groupedItems]: the groups, the array of each prefix sorted by sku. *)
Definition groupedItems (items : list OrderItem) : gmap string (list VariantGroup) :=
  ArraySort.sort by_sku <$> groups_of items.

(** The items of [items] that belong under [prefix] in the group [key']. *)
Definition members (prefix key' : string) (items : list (OrderItem (A := A)))
    : list OrderItem :=
  filter (λ item, sku_prefix (sku item) = prefix ∧ variantKey item = key') items.

(** The variant groups of one prefix, for the items read so far: one
    group per key met, holding the items of that prefix and key, in their
    order. *)
Definition well_grouped (prefix : string) (items : list OrderItem)
    (groups : list VariantGroup) : Prop :=
  NoDup (key <$> groups)
  ∧ (∀ g, g ∈ groups → group_items g ≠ [] ∧ group_items g = members prefix (key g) items)
  ∧ (∀ item, item ∈ items → sku_prefix (sku item) = prefix →
             variantKey item ∈ key <$> groups).

Lemma members_snoc (prefix key' : string) (items : list OrderItem) (item : OrderItem) :
  members prefix key' (items ++ [item])
  = members prefix key' items
    ++ (if bool_decide (sku_prefix (sku item) = prefix ∧ variantKey item = key')
        then [item] else []).
Proof.
  unfold members. rewrite filter_app, filter_cons, filter_nil.
  case_bool_decide; [by rewrite decide_True|by rewrite decide_False].
Qed.

Definition extended (k : string) (item : OrderItem) (g : VariantGroup) : VariantGroup :=
  if String.eqb (key g) k
  then {| key := key g; group_items := group_items g ++ [item] |}
  else g.

Lemma push_item_spec (k : string) (item : OrderItem) (groups : list VariantGroup) :
  NoDup (key <$> groups) →
  push_item k item groups
  = if bool_decide (k ∈ key <$> groups) then extended k item <$> groups
    else groups ++ [{| key := k; group_items := [item] |}].
Proof.
  induction groups as [|g rest IH]; intros Hnd; [done|].
  rewrite fmap_cons in Hnd. apply NoDup_cons in Hnd as [Hg Hnd]. simpl.
  unfold extended at 1.
  destruct (String.eqb_spec (key g) k) as [Heq | Hne].
  - rewrite bool_decide_eq_true_2 by (rewrite Heq; left). f_equal.
    symmetry. rewrite <- (list_fmap_id rest) at 2. apply list_fmap_ext.
    intros i x Hx. unfold extended. destruct (String.eqb_spec (key x) k) as [Hx' | _]; [|done].
    exfalso. apply Hg. rewrite Heq, <- Hx'. apply list_elem_of_fmap_2.
    by apply list_elem_of_lookup_2 in Hx.
  - rewrite IH by done. case_bool_decide as Hin.
    + rewrite bool_decide_eq_true_2 by (by right). done.
    + rewrite bool_decide_eq_false_2; [done|].
      intros Hin'. apply elem_of_cons in Hin' as [Heq | Hin']; [by destruct Hne|done].
Qed.

Lemma push_item_groups (prefix : string) (items : list OrderItem) (item : OrderItem)
    (groups : list VariantGroup) :
  sku_prefix (sku item) = prefix →
  well_grouped prefix items groups →
  well_grouped prefix (items ++ [item]) (push_item (variantKey item) item groups).
Proof.
  intros Hprefix (Hnd & Hall & Hcover). rewrite push_item_spec by done.
  case_bool_decide as Hin.
  - assert (Hkeys : key <$> (extended (variantKey item) item <$> groups) = key <$> groups).
    { rewrite <- list_fmap_compose. apply list_fmap_ext. intros i g _. simpl.
      unfold extended. by destruct (String.eqb _ _). }
    split; [by rewrite Hkeys|]. split.
    + intros g' Hg'. apply list_elem_of_fmap in Hg' as (g & -> & Hg).
      destruct (Hall g Hg) as [Hne Hitems]. unfold extended.
      destruct (String.eqb_spec (key g) (variantKey item)) as [Heq | Hneq]; simpl.
      * split; [by destruct (group_items g)|].
        by rewrite members_snoc, bool_decide_eq_true_2, Hitems.
      * split; [done|]. rewrite members_snoc, bool_decide_eq_false_2, app_nil_r; [done|].
        intros [_ ?]. by apply Hneq.
    + rewrite Hkeys. intros x Hx Hpx. apply elem_of_app in Hx as [Hx | Hx]; [by apply Hcover|].
      by apply list_elem_of_singleton in Hx as ->.
  - split; [|split].
    + rewrite fmap_app. apply NoDup_app. split; [done|]. split; [|apply NoDup_singleton].
      intros x Hx Hx'. apply list_elem_of_singleton in Hx'. simpl in Hx'. by subst.
    + intros g Hg. apply elem_of_app in Hg as [Hg | Hg].
      * destruct (Hall g Hg) as [Hne Hitems]. split; [done|].
        rewrite members_snoc, bool_decide_eq_false_2, app_nil_r; [done|].
        intros [_ Hk]. apply Hin. rewrite Hk. by apply list_elem_of_fmap_2.
      * apply list_elem_of_singleton in Hg as ->. simpl. split; [done|].
        rewrite members_snoc, bool_decide_eq_true_2 by done.
        unfold members. rewrite filter_none; [done|].
        intros x Hx [Hpx Hkx]. apply Hin. rewrite <- Hkx. by apply Hcover.
    + rewrite fmap_app. intros x Hx Hpx. apply elem_of_app.
      apply elem_of_app in Hx as [Hx | Hx]; [left; by apply Hcover|].
      apply list_elem_of_singleton in Hx as ->. right. left.
Qed.

Lemma other_prefix_groups (prefix : string) (items : list OrderItem) (item : OrderItem)
    (groups : list VariantGroup) :
  sku_prefix (sku item) ≠ prefix →
  well_grouped prefix items groups → well_grouped prefix (items ++ [item]) groups.
Proof.
  intros Hprefix (Hnd & Hall & Hcover). split; [done|]. split.
  - intros g Hg. destruct (Hall g Hg) as [Hne Hitems]. split; [done|].
    rewrite members_snoc, bool_decide_eq_false_2, app_nil_r; [done|]. by intros [? _].
  - intros x Hx Hpx. apply elem_of_app in Hx as [Hx | Hx]; [by apply Hcover|].
    apply list_elem_of_singleton in Hx as ->. done.
Qed.

Lemma groups_of_well_grouped (items : list OrderItem) (prefix : string) :
  well_grouped prefix items (default [] (groups_of items !! prefix))
  ∧ groups_of items !! prefix ≠ Some [].
Proof.
  unfold groups_of. induction items as [|item items IH] using rev_ind.
  - simpl. rewrite lookup_empty. simpl. split; [|done]. split; [constructor|].
    split; intros x Hx; by apply elem_of_nil in Hx.
  - rewrite foldl_snoc. destruct IH as [IH Hne].
    destruct (decide (sku_prefix (sku item) = prefix)) as [Heq | Hneq].
    + assert (Hstep : group_item (foldl group_item ∅ items) item !! prefix
                      = Some (push_item (variantKey item) item
                                (default [] (foldl group_item ∅ items !! prefix)))).
      { unfold group_item. rewrite Heq. apply lookup_insert_eq. }
      rewrite Hstep. simpl. split; [by apply push_item_groups|].
      destruct (default [] (foldl group_item ∅ items !! prefix)) as [|g rest]; simpl;
        [done|]. by destruct (String.eqb _ _).
    + assert (Hstep : group_item (foldl group_item ∅ items) item !! prefix
                      = foldl group_item ∅ items !! prefix).
      { unfold group_item. by apply lookup_insert_ne. }
      rewrite Hstep. split; [by apply other_prefix_groups|done].
Qed.

(** The page groups the items of the order by the letters their sku
    starts with (in upper case, AUTRES without any) and, under each
    prefix, by variant, sku and variant title, whatever the comparison
    the groups of a prefix are sorted with.  The groups are a
    partition of the items: under each prefix there is one group per key
    met, none empty, holding exactly the items of that prefix and key in
    their order; and every item is in the group of its prefix and key. *)
Theorem grouped_items_partition (items : list OrderItem) :
  let groups := groupedItems items in
  (∀ prefix variantGroups,
     groups !! prefix = Some variantGroups →
     variantGroups ≠ [] ∧ NoDup (key <$> variantGroups)
     ∧ ∀ g, g ∈ variantGroups →
            group_items g ≠ [] ∧ group_items g = members prefix (key g) items)
  ∧ (∀ item, item ∈ items →
       ∃ variantGroups g,
         groups !! sku_prefix (sku item) = Some variantGroups ∧ g ∈ variantGroups
         ∧ key g = variantKey item ∧ item ∈ group_items g).
Proof.
  cbv zeta. unfold groupedItems. split.
  - intros prefix sorted Hsorted. rewrite lookup_fmap in Hsorted.
    destruct (groups_of_well_grouped items prefix) as [(Hnd & Hall & _) Hne].
    destruct (groups_of items !! prefix) as [gs|]; [|done].
    simpl in Hnd, Hall, Hsorted. injection Hsorted as <-.
    pose proof (ArraySort.sort_Permutation by_sku gs) as Hperm.
    split; [|split].
    + intros Hnil. rewrite Hnil in Hperm. apply Permutation_nil_l in Hperm. by subst.
    + by rewrite Hperm.
    + intros g Hg. rewrite Hperm in Hg. by apply Hall.
  - intros item Hitem.
    destruct (groups_of_well_grouped items (sku_prefix (sku item)))
      as [(_ & Hall & Hcover) _].
    pose proof (Hcover item Hitem eq_refl) as Hk.
    apply list_elem_of_fmap in Hk as (g & Hkey & Hg).
    rewrite lookup_fmap.
    destruct (groups_of items !! sku_prefix (sku item)) as [gs|] eqn:Hgs;
      [|by apply elem_of_nil in Hg].
    simpl in Hg, Hall. exists (ArraySort.sort by_sku gs), g. split; [done|].
    split; [by rewrite ArraySort.sort_Permutation|]. split; [done|].
    destruct (Hall g Hg) as [_ ->]. unfold members. apply list_elem_of_filter. done.
Qed.

End Groups.

(** The units of two variants of a T-shirt and an item without sku. *)
Definition a_unit (itemId : string) (sku' : option string) (title' : string)
    : OrderItem (A := Z) :=
  {| item_id := itemId; order_id := "o1"; variant_id := Some "v"; product_title := "T-shirt";
     variant_title := Some title'; sku := sku';
     quantity := 1; unit_price := 5; line_total := 5;
     is_validated := false; validated_at := None; is_printed := false; printed_at := None;
     metafields := ∅; item_updated_at := None |}.

(** The comparison of two strings by their characters, for a locale. *)
Definition by_characters (a b : string) : Z :=
  match String.compare a b with Lt => -1 | Eq => 0 | Gt => 1 end.

Example three_groups :
  let groups := groupedItems by_characters [ a_unit "i1" (Some "ts-01-M") "M"; a_unit "i2" (Some "TS-01-L") "L";
                               a_unit "i3" (Some "ts-01-M") "M"; a_unit "i4" None "M" ] in
  (λ g, (key g, item_id <$> group_items g)) <$> default [] (groups !! "TS")
  = [("v_TS-01-L_L", ["i2"]); ("v_ts-01-M_M", ["i1"; "i3"])]
  ∧ (λ g, (key g, item_id <$> group_items g)) <$> default [] (groups !! "AUTRES")
    = [("v__M", ["i4"])]
  ∧ size groups = 2%nat.
Proof. vm_compute. repeat split; reflexivity. Qed.

End OrderPageGroups.

(** * The best stocked products (src/src/app/api/inventory/stats/route.ts) *)

Module TopProducts.
Import Stats StatsFacts.

Section Top.
Context {A : Type} `{JsNumber A}.
Variable num_of_Z : Z → A.

(** [(a, b) => b.stock - a.stock] *)
Definition by_stock (a b : ProductStat (A := A)) : Z := stat_stock b - stat_stock a.

(** [Array.from(productStats.values()).sort((a, b) => b.stock - a.stock).slice(0, 10)] *)
Definition topProducts (stats : Stats (A := A)) : list ProductStat :=
  take 10 (ArraySort.sort by_stock (productStats stats)).

Lemma by_stock_rank (a b : ProductStat (A := A)) :
  by_stock a b = - stat_stock a - - stat_stock b.
Proof. unfold by_stock. lia. Qed.

Lemma sorted_by_stock (l : list (ProductStat (A := A))) :
  StronglySorted (λ a b, stat_stock b ≤ stat_stock a) (ArraySort.sort by_stock l).
Proof.
  eapply ArraySort.sorted_weaken; [|apply (ArraySort.sort_sorted by_stock _ by_stock_rank)].
  intros a b Hab. cbn beta in Hab. lia.
Qed.

(** [topProducts] holds the ten best stocked products of the query, or
    all of them when they are fewer, from the best stocked on: each has
    an entry of [productStats], of a title of its own, and no product
    left out has more stock than one of them. *)
Theorem top_products_best_stocked (variants : option (list Variant)) :
  let stats := count_variants num_of_Z variants in
  let top := topProducts stats in
  length top = Nat.min 10 (length (productStats stats))
  ∧ StronglySorted (λ a b, stat_stock b ≤ stat_stock a) top
  ∧ NoDup (stat_title <$> top)
  ∧ (∀ p, p ∈ top → p ∈ productStats stats)
  ∧ (∀ p q, p ∈ top → q ∈ productStats stats → q ∉ top → stat_stock q ≤ stat_stock p).
Proof.
  intros stats top. unfold top, topProducts.
  set (sorted := ArraySort.sort by_stock (productStats stats)).
  assert (Hperm : sorted ≡ₚ productStats stats) by apply ArraySort.sort_Permutation.
  assert (Hsorted : StronglySorted (λ a b, stat_stock b ≤ stat_stock a) sorted)
    by apply sorted_by_stock.
  assert (Hnd : NoDup (stat_title <$> sorted)).
  { rewrite Hperm. apply (productStats_titles num_of_Z variants). }
  rewrite <- (take_drop 10 sorted) in Hsorted, Hnd.
  split; [by rewrite length_take, Hperm|].
  split; [by apply StronglySorted_app_1_l in Hsorted|].
  split; [rewrite fmap_app in Hnd; by apply NoDup_app in Hnd as (? & _ & _)|].
  split.
  - intros p Hp. rewrite <- Hperm, <- (take_drop 10 sorted). apply elem_of_app. by left.
  - intros p q Hp Hq Hnot. rewrite <- Hperm, <- (take_drop 10 sorted) in Hq.
    apply elem_of_app in Hq as [Hq | Hq]; [done|].
    apply (StronglySorted_app_1_elem_of _ _ _ _ _ Hsorted Hp Hq).
Qed.

End Top.
End TopProducts.

(** * The products offered by the order page (src/unnamed/part_002, displayedProducts) *)

Module OrderPageProducts.

(** [const SIZE_ORDER = ['XXXS', .., '5XL']] *)
Definition SIZE_ORDER : list string :=
  ["XXXS"; "XXS"; "XS"; "S"; "M"; "L"; "XL"; "XXL"; "2XL"; "3XL"; "4XL"; "5XL"].

(** [array.indexOf(x)], counted from [from]. *)
Fixpoint indexOf_from (from : Z) (array : list string) (x : string) : Z :=
  match array with
  | [] => -1
  | y :: rest => if String.eqb y x then from else indexOf_from (from + 1) rest x
  end.

Definition indexOf (array : list string) (x : string) : Z := indexOf_from 0 array x.

(** An option of a variant. *)
Record VariantOption := {
  name : option string;
  value : option string;
}.

(** A variant of a product, the fields [displayedProducts] reads. *)
Record ProductVariant := {
  variant_id : string;
  sku : option string;
  size : option string;
  options : option (list VariantOption);
}.

Record ProductData := {
  product_id : string;
  variants : list ProductVariant;
}.

Section Displayed.

Variable toUpperCase : string → string.
Variable toLowerCase : string → string.

(** [getSizeIndex] *)
Definition getSizeIndex (size' : option string) : Z :=
  if negb (js_string_truthy size') then 999
  else
    let upperSize := toUpperCase (default "" size') in
    let index := indexOf SIZE_ORDER upperSize in
    if Z.eqb index (-1) then 999 else index.

(** [a.size || a.options?.find(o => o.name?.toLowerCase() === 'taille')?.value] *)
Definition size_of (a : ProductVariant) : option string :=
  if js_string_truthy (size a) then size a
  else
    let taille o := match name o with
                    | Some n => String.eqb (toLowerCase n) "taille"
                    | None => false
                    end in
    match options a with
    | Some options' =>
      match List.find taille options' with
      | Some o => value o
      | None => None
      end
    | None => None
    end.

(** [(a, b) => getSizeIndex(sizeA) - getSizeIndex(sizeB)] *)
Definition by_size (a b : ProductVariant) : Z :=
  getSizeIndex (size_of a) - getSizeIndex (size_of b).

(** [product.variants.some(v => v.sku?.toUpperCase().startsWith(skuFilter))] *)
Definition has_prefix (skuFilter : string) (product : ProductData) : bool :=
  existsb (λ v, match sku v with
                | Some s => String.prefix skuFilter (toUpperCase s)
                | None => false
                end) (variants product).

Definition displayedProducts (products : list ProductData) (skuFilter : option string)
    : list ProductData :=
  let result :=
    if js_string_truthy skuFilter
    then filter (λ product, has_prefix (default "" skuFilter) product = true) products
    else products in
  (λ product, {| product_id := product_id product;
                 variants := ArraySort.sort by_size (variants product) |}) <$> result.

(** ** The sizes in their order *)

Lemma indexOf_from_bounds (from : Z) (array : list string) (x : string) :
  0 ≤ from →
  indexOf_from from array x = -1
  ∨ from ≤ indexOf_from from array x < from + Z.of_nat (length array).
Proof.
  revert from. induction array as [|y rest IH]; intros from Hfrom; [by left|].
  cbn [indexOf_from]. rewrite length_cons, Nat2Z.inj_succ.
  destruct (String.eqb y x); [right; lia|].
  destruct (IH (from + 1)) as [Hnone | Hin]; [lia|by left|right; lia].
Qed.

Lemma indexOf_from_lookup (from : Z) (array : list string) (x : string) (i : nat) :
  NoDup array → array !! i = Some x → indexOf_from from array x = from + Z.of_nat i.
Proof.
  revert from i. induction array as [|y rest IH]; intros from i Hnd Hi; [done|].
  apply NoDup_cons in Hnd as [Hy Hnd]. simpl.
  destruct i as [|i]; simpl in Hi.
  - injection Hi as ->. rewrite String.eqb_refl. lia.
  - destruct (String.eqb_spec y x) as [-> | _].
    + destruct Hy. by eapply list_elem_of_lookup_2.
    + rewrite (IH (from + 1) i Hnd Hi). lia.
Qed.

(** The index of a size: its place in [SIZE_ORDER], or 999. *)
Lemma getSizeIndex_range (size' : option string) :
  0 ≤ getSizeIndex size' < 12 ∨ getSizeIndex size' = 999.
Proof.
  unfold getSizeIndex, indexOf. destruct (js_string_truthy size'); cbn [negb]; [|by right].
  assert (Hlen : Z.of_nat (length SIZE_ORDER) = 12) by reflexivity.
  destruct (indexOf_from_bounds 0 SIZE_ORDER (toUpperCase (default "" size')))
    as [Hnone | Hin]; [done| |].
  - rewrite Hnone. by right.
  - destruct (Z.eqb_spec (indexOf_from 0 SIZE_ORDER (toUpperCase (default "" size'))) (-1));
      [by right|]. left. lia.
Qed.

(** A size of [SIZE_ORDER], in any case the conversion maps to it, has its
    place there as index. *)
Lemma getSizeIndex_listed (s : string) (i : nat) :
  s ≠ "" → SIZE_ORDER !! i = Some (toUpperCase s) → getSizeIndex (Some s) = Z.of_nat i.
Proof.
  intros Hs Hi. unfold getSizeIndex, indexOf. cbv zeta. cbn [js_string_truthy default].
  destruct (String.eqb_spec s "") as [Heq | _]; [done|]. cbn [negb].
  assert (Hnd : NoDup SIZE_ORDER) by (apply (bool_decide_unpack _); by vm_compute).
  unfold id. rewrite (indexOf_from_lookup 0 SIZE_ORDER _ i Hnd Hi).
  destruct (Z.eqb_spec (0 + Z.of_nat i) (-1)); lia.
Qed.

(** The products offered are those of the search that have a variant
    whose sku, in upper case, starts with the chosen prefix, all of them
    when no prefix is chosen, in the order of the search.  Each one is
    shown with its own variants, every one once, from the smallest size
    to the largest: a variant comes before another when its size is
    earlier in XXXS .. 5XL, the variants of a size out of this list come
    last, and variants of the same size keep their order. *)
Theorem variants_shown_by_size (products : list ProductData) (skuFilter : option string) :
  Forall2
    (λ shown product,
       product_id shown = product_id product
       ∧ variants shown ≡ₚ variants product
       ∧ StronglySorted (λ a b, getSizeIndex (size_of a) ≤ getSizeIndex (size_of b))
                        (variants shown)
       ∧ ∀ index, filter (λ v, getSizeIndex (size_of v) = index) (variants shown)
                  = filter (λ v, getSizeIndex (size_of v) = index) (variants product))
    (displayedProducts products skuFilter)
    (if js_string_truthy skuFilter
     then filter (λ product, has_prefix (default "" skuFilter) product = true) products
     else products).
Proof.
  unfold displayedProducts.
  set (result := if js_string_truthy skuFilter then _ else _).
  apply Forall2_fmap_l, Forall_Forall2_diag, Forall_forall. intros product _.
  cbn [product_id variants]. split; [done|].
  split; [apply ArraySort.sort_Permutation|].
  split; [by apply (ArraySort.sort_sorted by_size (λ v, getSizeIndex (size_of v)))|].
  intros index. by apply (ArraySort.sort_stable by_size (λ v, getSizeIndex (size_of v))).
Qed.

End Displayed.
End OrderPageProducts.
